(** * Resumable transfer engine of [sequential_uploader.py]

    A shallow embedding of the [RobustUploader] class: the completion ledger
    ([used_recipes]), the resume-state mapping ([resume_data]), the chunked
    downloader, the size-adaptive compressor, the chunked uploader and the
    orchestrator [process_single_recipe].

    Conventions of the embedding.
    - The object's attributes and the files it reads and writes form one
      record, [State], threaded through every method.
    - Every call that leaves the process (Drive, YouTube, the ffmpeg
      subprocess, the clock, [random]) is answered by a script given as an
      argument; a loop that asks for a reply the script does not hold ends
      in [Pending].
    - A Python exception is the [Raise] result; mutations made before the
      exception stay in the returned state, as they do in Python.
    - Every external call and every [time.sleep] is appended to [trace].
    - Strings are sequences of ASCII characters.
    - A Python float is the rational number ([Q]) it stands for, and every
      float operation is the exact operation followed by [PyFloat.fl], the
      rounding of binary64 to nearest, ties to even. *)

From Stdlib Require Import ZArith NArith QArith Qround Qminmax Qpower Lqa String
  Ascii List Sorted Lia Bool.
From Stdlib Require PrimFloat FloatOps SpecFloat Uint63.
From stdpp Require Import base option list gmap sets strings pretty.
From Equations Require Import Equations.

Import ListNotations.
Local Open Scope string_scope.
Local Open Scope list_scope.
Local Open Scope Z_scope.

(** ** Python strings *)

Module PyStr.

(** ASCII members of Python's [str.isspace]. *)
Definition is_space (c : ascii) : bool :=
  let n := nat_of_ascii c in
  ((9 <=? n) && (n <=? 13) || (28 <=? n) && (n <=? 32))%nat.

Definition is_digit (c : ascii) : bool :=
  let n := nat_of_ascii c in ((48 <=? n) && (n <=? 57))%nat.

Definition digit_val (c : ascii) : Z := Z.of_nat (nat_of_ascii c) - 48.

(** [sub in s] *)
Fixpoint contains (sub s : string) : bool :=
  String.prefix sub s ||
  match s with
  | EmptyString => false
  | String _ s' => contains sub s'
  end.

(** [s.split(sep)] for a non-empty separator: [skip] counts the characters
    of a separator just matched that are still to be dropped, [cur] is the
    piece being read. *)
Fixpoint split_aux (sep s : string) (skip : nat) (cur : string) : list string :=
  match s with
  | EmptyString => [cur]
  | String c s' =>
      match skip with
      | S k => split_aux sep s' k cur
      | O =>
          if String.prefix sep s
          then cur :: split_aux sep s' (String.length sep - 1) ""
          else split_aux sep s' O (cur +:+ String c "")
      end
  end.

Definition split (sep s : string) : list string := split_aux sep s O "".

(** [s.split()]: pieces between runs of whitespace, no empty piece. *)
Fixpoint split_ws_aux (s : string) (cur : string) : list string :=
  match s with
  | EmptyString => if String.eqb cur "" then [] else [cur]
  | String c s' =>
      if is_space c
      then (if String.eqb cur "" then [] else [cur]) ++ split_ws_aux s' ""
      else split_ws_aux s' (cur +:+ String c "")
  end.

Definition split_ws (s : string) : list string := split_ws_aux s "".

(** The characters [int] skips at both ends of an ASCII string (C's
    [isspace]): the codes 9 to 13 and the space. The separators 28 to 31,
    members of [str.isspace], are not among them: [int] rejects them. *)
Definition is_int_space (c : ascii) : bool :=
  let n := nat_of_ascii c in
  ((9 <=? n) && (n <=? 13) || (n =? 32))%nat.

Fixpoint int_lstrip (s : string) : string :=
  match s with
  | String c s' => if is_int_space c then int_lstrip s' else s
  | EmptyString => s
  end.

Definition int_rstrip (s : string) : string :=
  String.rev (int_lstrip (String.rev s)).

Definition int_strip (s : string) : string := int_rstrip (int_lstrip s).

(** Digits with single underscores between them, as [int] reads them;
    [acc] is the value read so far, [prev_digit] tells whether an
    underscore may come next. *)
Fixpoint digits_aux (s : string) (acc : Z) (prev_digit : bool) : option Z :=
  match s with
  | EmptyString => if prev_digit then Some acc else None
  | String c s' =>
      if is_digit c then digits_aux s' (10 * acc + digit_val c) true
      else if Ascii.eqb c "_" && prev_digit then
        match s' with
        | String d _ => if is_digit d then digits_aux s' acc false else None
        | EmptyString => None
        end
      else None
  end.

(** [sys.get_int_max_str_digits()], as the interpreter starts. *)
Definition int_max_str_digits : nat := 4300.

Fixpoint count_digits (s : string) : nat :=
  match s with
  | EmptyString => O
  | String c s' => if is_digit c then S (count_digits s') else count_digits s'
  end.

(** [int(s)] for a string: [None] is [ValueError], raised for a string
    that is not a decimal numeral and for one of more than
    [int_max_str_digits] digits. *)
Definition to_int (s : string) : option Z :=
  let body := int_strip s in
  if (int_max_str_digits <? count_digits body)%nat then None
  else
    match body with
    | String "-" ds => Z.opp <$> digits_aux ds 0 false
    | String "+" ds => digits_aux ds 0 false
    | ds => digits_aux ds 0 false
    end.

(** [sep.join(l)] *)
Fixpoint join (sep : string) (l : list string) : string :=
  match l with
  | [] => ""
  | [x] => x
  | x :: l' => x +:+ sep +:+ join sep l'
  end.

Definition nl : string := String (ascii_of_nat 10) "".

End PyStr.

(** ** Python floats *)

(** Binary64 arithmetic on the rationals the floats stand for. The values
    met here are quotients and products of file sizes the file system
    reports (below [2 ^ 63] bytes) by constants, far from the ends of the
    exponent range, so the rounding keeps 53 significant bits and nothing
    else is modelled (no infinity, no subnormal number). *)
Module PyFloat.

(** [floor(log2 x)] for a positive [x]. *)
Definition ilog2 (x : Q) : Z :=
  let k := Z.log2 (Qnum x) - Z.log2 (Z.pos (Qden x)) in
  if Qle_bool (2 ^ k) x then k else k - 1.

(** The integer nearest to [y], the even one of two that are equally
    near. *)
Definition rne (y : Q) : Z :=
  let f := Qfloor y in
  let r := (y - inject_Z f)%Q in
  match (r ?= 1 # 2)%Q with
  | Lt => f
  | Gt => f + 1
  | Eq => if Z.even f then f else f + 1
  end.

(** A positive [x] rounded to 53 significant bits. *)
Definition round53 (x : Q) : Q :=
  let e := ilog2 x - 52 in
  Qred (inject_Z (rne (x * 2 ^ (- e))) * 2 ^ e).

(** The binary64 value nearest to [x]. *)
Definition fl (x : Q) : Q :=
  match (x ?= 0)%Q with
  | Eq => 0%Q
  | Gt => round53 x
  | Lt => Qred (- round53 (- x))
  end.

(** The rational a finite hardware float stands for, to compare [fl] with
    the processor's arithmetic. *)
Definition Q_of_float (f : PrimFloat.float) : Q :=
  match FloatOps.Prim2SF f with
  | SpecFloat.S754_finite s m e =>
      Qred ((if s then -1 else 1) * inject_Z (Z.pos m) * 2 ^ e)
  | _ => 0%Q
  end.

(** The float of a machine integer below [2 ^ 53]. *)
Definition float_of_Z (n : Z) : PrimFloat.float :=
  PrimFloat.of_uint63 (Uint63.of_Z n).

End PyFloat.

Import PyFloat.

(** ** Data model *)

(** The [id] of a catalog entry as JSON gives it: an integer or a string.
    An entry with another [id] is outside this model: a missing one makes
    the code raise [KeyError] and [null] or a container [TypeError], of
    which no property here speaks. *)
Inductive RecipeId :=
| IdInt (n : Z)
| IdStr (s : string).

(** [str(recipe['id'])] *)
Definition str_id (i : RecipeId) : string :=
  match i with
  | IdInt n => pretty n
  | IdStr s => s
  end.

(** [int(recipe['id'])]; [None] is [ValueError]. *)
Definition int_id (i : RecipeId) : option Z :=
  match i with
  | IdInt n => Some n
  | IdStr s => PyStr.to_int s
  end.

Record Recipe := {
  id : RecipeId;
  dish_name : string;
  public_url : string;
  ingredients : list string;
  instructions : list string;
  prep_time : string;
  cook_time : string;
  yield : string;
  dish_type : string;
  taste_category : string
}.

(** One entry of [resume_data]; [video_path] is set by the uploader only. *)
Record ResumeRec := {
  status : string;
  start_time : string;
  rr_dish_name : string;
  video_path : option string
}.

(** A Python [dict] with string keys, in insertion order. *)
Section Dict.
Context {V : Type}.

Fixpoint dict_get (k : string) (d : list (string * V)) : option V :=
  match d with
  | [] => None
  | (k', v) :: d' => if String.eqb k k' then Some v else dict_get k d'
  end.

(** [d[k] = v]: in place when the key is there, appended otherwise. *)
Fixpoint dict_set (k : string) (v : V) (d : list (string * V)) : list (string * V) :=
  match d with
  | [] => [(k, v)]
  | (k', v') :: d' =>
      if String.eqb k k' then (k, v) :: d' else (k', v') :: dict_set k v d'
  end.

(** [del d[k]] *)
Fixpoint dict_del (k : string) (d : list (string * V)) : list (string * V) :=
  match d with
  | [] => []
  | (k', v') :: d' =>
      if String.eqb k k' then dict_del k d' else (k', v') :: dict_del k d'
  end.
End Dict.

(** The response of the video service: a JSON object. *)
Definition Response := gmap string string.

(** The request body of [videos().insert]. *)
Record Body := {
  title : string;
  description : string;
  tags : list string
}.

(** Which handler called [time.sleep]. *)
Inductive RetryClass :=
| ChunkTimeoutRetry      (* download: [next_chunk] timed out *)
| DownloadTimeoutRetry   (* download: the attempt timed out *)
| DownloadErrorRetry     (* download: any other error *)
| UploadTimeoutRetry     (* upload: timeout or stall *)
| UploadServerRetry      (* upload: HTTP 500, 502, 503, 504 *)
| UploadErrorRetry.      (* upload: any other exception *)

Inductive Event :=
| EvSaveResume (d : list (string * ResumeRec))
| EvSaveUsed (s : gset string)
| EvDriveRequest (file_id : string)
| EvDriveChunk
| EvWriteFile (path : string) (size : N)
| EvSleep (c : RetryClass) (secs : Z)
| EvFfmpegVersion
| EvFfmpegProbe (input : string)
| EvFfmpegEncode (input : string) (bitrate maxrate bufsize : Z) (output : string)
| EvYoutubeInsert (body : Body) (path : string)
| EvYoutubeChunk
| EvRemove (path : string).

(** The uploader object and the files it owns. [fs] maps a path to the size
    in bytes of the file there. *)
Record State := {
  recipes : list Recipe;
  used_recipes : gset string;
  resume_data : list (string * ResumeRec);
  fs : gmap string N;
  catalog_file : option (list Recipe);
  used_recipes_file : option (gset string);
  resume_data_file : option (list (string * ResumeRec));
  trace : list Event
}.

Definition set_recipes (x : list Recipe) (st : State) : State :=
  {| recipes := x; used_recipes := used_recipes st; resume_data := resume_data st;
     fs := fs st; catalog_file := catalog_file st;
     used_recipes_file := used_recipes_file st;
     resume_data_file := resume_data_file st; trace := trace st |}.

Definition set_used_recipes (x : gset string) (st : State) : State :=
  {| recipes := recipes st; used_recipes := x; resume_data := resume_data st;
     fs := fs st; catalog_file := catalog_file st;
     used_recipes_file := used_recipes_file st;
     resume_data_file := resume_data_file st; trace := trace st |}.

Definition set_resume_data (x : list (string * ResumeRec)) (st : State) : State :=
  {| recipes := recipes st; used_recipes := used_recipes st; resume_data := x;
     fs := fs st; catalog_file := catalog_file st;
     used_recipes_file := used_recipes_file st;
     resume_data_file := resume_data_file st; trace := trace st |}.

Definition set_fs (x : gmap string N) (st : State) : State :=
  {| recipes := recipes st; used_recipes := used_recipes st;
     resume_data := resume_data st; fs := x; catalog_file := catalog_file st;
     used_recipes_file := used_recipes_file st;
     resume_data_file := resume_data_file st; trace := trace st |}.

Definition set_used_recipes_file (x : option (gset string)) (st : State) : State :=
  {| recipes := recipes st; used_recipes := used_recipes st;
     resume_data := resume_data st; fs := fs st; catalog_file := catalog_file st;
     used_recipes_file := x;
     resume_data_file := resume_data_file st; trace := trace st |}.

Definition set_resume_data_file (x : option (list (string * ResumeRec))) (st : State) : State :=
  {| recipes := recipes st; used_recipes := used_recipes st;
     resume_data := resume_data st; fs := fs st; catalog_file := catalog_file st;
     used_recipes_file := used_recipes_file st;
     resume_data_file := x; trace := trace st |}.

Definition emit (e : Event) (st : State) : State :=
  {| recipes := recipes st; used_recipes := used_recipes st;
     resume_data := resume_data st; fs := fs st; catalog_file := catalog_file st;
     used_recipes_file := used_recipes_file st;
     resume_data_file := resume_data_file st; trace := trace st ++ [e] |}.

(** Exceptions and results. *)
Inductive Exn :=
| SocketTimeout
| HttpError (code : Z)
| KeyError
| ValueError
| ZeroDivisionError
| FileNotFoundError
| SubprocessError
| OtherError (msg : string).

Inductive Result (A : Type) :=
| Ok (a : A)
| Raise (e : Exn)
| Pending.
Arguments Ok {A} a.
Arguments Raise {A} e.
Arguments Pending {A}.

(** How a call to a remote service ends. *)
Inductive Failure :=
| FTimeout
| FHttp (code : Z)
| FOther (msg : string).

Definition exn_of (f : Failure) : Exn :=
  match f with
  | FTimeout => SocketTimeout
  | FHttp c => HttpError c
  | FOther m => OtherError m
  end.

Inductive Reply (A : Type) :=
| Returned (a : A)
| Failed (f : Failure).
Arguments Returned {A} a.
Arguments Failed {A} f.

(** ** Constants of the class *)

Definition temp_dir : string := "temp_videos".

(** [1024*1024]: a local artifact larger than this is taken as complete. *)
Definition MiB : N := 1048576.

(** [os.path.join(self.temp_dir, f"original_{recipe_id}.mp4")] *)
Definition original_path (recipe_id : string) : string :=
  temp_dir +:+ "/" +:+ "original_" +:+ recipe_id +:+ ".mp4".

Definition compressed_path (recipe_id : string) : string :=
  temp_dir +:+ "/" +:+ "compressed_" +:+ recipe_id +:+ ".mp4".

(** [_save_resume_data]: the mapping is written out whole. *)
Definition save_resume_data (st : State) : State :=
  emit (EvSaveResume (resume_data st))
       (set_resume_data_file (Some (resume_data st)) st).

(** ** Tag list of the upload request (lines 410-433) *)

(** [ingredient.split(',')[0].split()[-1]]; [None] is [IndexError]. *)
Definition main_ingredient (ingredient : string) : option string :=
  match PyStr.split "," ingredient with
  | [] => None
  | first :: _ => last (PyStr.split_ws first)
  end.

Definition in_tags (t : string) (l : list string) : bool :=
  existsb (String.eqb t) l.

Fixpoint add_ingredient_tags (ings : list string) (tgs : list string) : list string :=
  match ings with
  | [] => tgs
  | i :: ings' =>
      match main_ingredient i with
      | Some m =>
          if negb (String.eqb m "") && negb (in_tags m tgs)
          then add_ingredient_tags ings' (tgs ++ [m])
          else add_ingredient_tags ings' tgs
      | None => add_ingredient_tags ings' tgs
      end
  end.

Definition initial_tags (r : Recipe) : list string :=
  add_ingredient_tags (ingredients r)
    [dish_name r; dish_type r; taste_category r;
     "recipe"; "cooking"; "food"; "homemade"; "chef"; "delicious"].

(** [sum(len(tag) for tag in tags)] *)
Definition total_tags_length (tgs : list string) : nat :=
  foldr (fun t n => (String.length t + n)%nat) O tgs.

Definition tags_ceiling : nat := 490.
Definition min_tags : nat := 5.

(** The guard of the trimming loop. *)
Definition must_trim (tgs : list string) : bool :=
  (tags_ceiling <? total_tags_length tgs)%nat && (min_tags <? length tgs)%nat.

Definition inspect {A : Type} (a : A) : {b : A | a = b} := exist _ a eq_refl.

(** [while total_tags_length > 490 and len(tags) > 5: tags.pop()] *)
Equations? trim_tags (tgs : list string) : list string by wf (length tgs) lt :=
  trim_tags tgs with inspect (must_trim tgs) => {
    | exist _ true _ => trim_tags (removelast tgs);
    | exist _ false _ => tgs }.
Proof.
  unfold must_trim, min_tags in e.
  apply andb_true_iff in e as [_ e]. apply Nat.ltb_lt in e.
  destruct tgs as [|t tgs]; [simpl in e; lia|].
  rewrite (@app_removelast_last _ (t :: tgs) "") at 2 by discriminate.
  rewrite length_app. simpl. lia.
Qed.


(** ** Chunked downloader (lines 199-286) *)

(** [_extract_file_id] *)
Definition extract_file_id (drive_url : string) : option string :=
  if PyStr.contains "/file/d/" drive_url then
    match PyStr.split "/file/d/" drive_url with
    | _ :: rest :: _ => head (PyStr.split "/" rest)
    | _ => None
    end
  else None.

(** One pass of the retry loop as the remote store answers it: the reply
    to building the request, then the replies to [next_chunk], each a
    number of bytes added to the buffer and the [done] flag. *)
Record DriveAttempt := {
  da_request : Reply unit;
  da_chunks : list (Reply (N * bool))
}.

(** The arguments of [time.sleep] at lines 252, 267 and 278. *)
Definition chunk_timeout_delay (retry_count : Z) : Z := Z.min (2 ^ retry_count) 30.
Definition download_timeout_delay (retry_count : Z) : Z := Z.min (2 ^ retry_count) 60.
Definition download_error_delay : Z := 10.

(** [while not done:] of lines 245-253. A timeout of [next_chunk] sleeps
    and asks again without touching [retry_count]; any other failure leaves
    the loop as an exception. *)
Fixpoint download_chunks (retry_count : Z) (chunks : list (Reply (N * bool)))
    (buf : N) (st : State) : Result N * State :=
  match chunks with
  | [] => (Pending, st)
  | c :: chunks' =>
      let st := emit EvDriveChunk st in
      match c with
      | Returned (n, done) =>
          if done then (Ok (buf + n)%N, st)
          else download_chunks retry_count chunks' (buf + n)%N st
      | Failed FTimeout =>
          download_chunks retry_count chunks' buf
            (emit (EvSleep ChunkTimeoutRetry (chunk_timeout_delay retry_count)) st)
      | Failed f => (Raise (exn_of f), st)
      end
  end.

(** [while retry_count < max_retries:] of lines 235-282. *)
Fixpoint download_attempts (max_retries : Z) (drive : list DriveAttempt)
    (file_id temp_video_path : string) (retry_count : Z) (st : State)
    : Result string * State :=
  if retry_count <? max_retries then
    match drive with
    | [] => (Pending, st)
    | a :: drive' =>
        let on_timeout st :=
          let retry_count := retry_count + 1 in
          if retry_count <? max_retries then
            download_attempts max_retries drive' file_id temp_video_path retry_count
              (emit (EvSleep DownloadTimeoutRetry (download_timeout_delay retry_count)) st)
          else (Raise SocketTimeout, st) in
        let on_error e st :=
          let retry_count := retry_count + 1 in
          if retry_count <? max_retries then
            download_attempts max_retries drive' file_id temp_video_path retry_count
              (emit (EvSleep DownloadErrorRetry download_error_delay) st)
          else (Raise e, st) in
        let st := emit (EvDriveRequest file_id) st in
        match da_request a with
        | Failed FTimeout => on_timeout st
        | Failed f => on_error (exn_of f) st
        | Returned _ =>
            match download_chunks retry_count (da_chunks a) 0%N st with
            | (Ok size, st) =>
                (Ok temp_video_path,
                 emit (EvWriteFile temp_video_path size)
                      (set_fs (<[temp_video_path := size]> (fs st)) st))
            | (Raise SocketTimeout, st) => on_timeout st
            | (Raise e, st) => on_error e st
            | (Pending, st) => (Pending, st)
            end
        end
    end
  else
    (Raise (OtherError ("Failed to download video after " +:+ pretty max_retries
                        +:+ " retries")), st).

(** [download_video(recipe, max_retries)]; [now] is the clock's answer. *)
Definition download_video (max_retries : Z) (drive : list DriveAttempt)
    (now : string) (recipe : Recipe) (st : State) : Result string * State :=
  let recipe_id := str_id (id recipe) in
  let st :=
    set_resume_data
      (dict_set recipe_id
         {| status := "downloading"; start_time := now;
            rr_dish_name := dish_name recipe; video_path := None |}
         (resume_data st)) st in
  let st := save_resume_data st in
  let temp_video_path := original_path recipe_id in
  let fetch :=
    match extract_file_id (public_url recipe) with
    | None => (Raise ValueError, st)
    | Some file_id =>
        if String.eqb file_id "" then (Raise ValueError, st)
        else download_attempts max_retries drive file_id temp_video_path 0 st
    end in
  match fs st !! temp_video_path with
  | Some file_size =>
      if (MiB <? file_size)%N then (Ok temp_video_path, st) else fetch
  | None => fetch
  end.

(** ** Size-adaptive compressor (lines 288-381) *)

Fixpoint strip_prefix (p s : string) : option string :=
  match p, s with
  | EmptyString, _ => Some s
  | String a p', String b s' => if Ascii.eqb a b then strip_prefix p' s' else None
  | String _ _, EmptyString => None
  end.

(** [(\d{2})] *)
Definition two_digits (s : string) : option (Z * string) :=
  match s with
  | String a (String b rest) =>
      if PyStr.is_digit a && PyStr.is_digit b
      then Some (10 * PyStr.digit_val a + PyStr.digit_val b, rest)
      else None
  | _ => None
  end.

(** [Duration: (\d{2}):(\d{2}):(\d{2})] matched at the start of [s]. *)
Definition match_duration (s : string) : option (Z * Z * Z) :=
  rest ← strip_prefix "Duration: " s;
  '(h, rest) ← two_digits rest;
  rest ← strip_prefix ":" rest;
  '(m, rest) ← two_digits rest;
  rest ← strip_prefix ":" rest;
  '(sec, _) ← two_digits rest;
  Some (h, m, sec).

(** [re.search]: the leftmost match. *)
Fixpoint search_duration (s : string) : option (Z * Z * Z) :=
  match match_duration s with
  | Some r => Some r
  | None =>
      match s with
      | EmptyString => None
      | String _ s' => search_duration s'
      end
  end.

(** Lines 326-333. *)
Definition duration_seconds (stderr : string) : Z :=
  match search_duration stderr with
  | Some (h, m, s) => h * 3600 + m * 60 + s
  | None => 120
  end.

Definition Qlt_bool (x y : Q) : bool := negb (Qle_bool y x).

(** [max(a, b)]: the first argument unless the second is greater. *)
Definition py_max (a b : Q) : Q := if Qlt_bool a b then b else a.

(** [int(x)]: towards zero. *)
Definition py_int (x : Q) : Z := Z.quot (Qnum x) (Z.pos (Qden x)).

(** [os.path.getsize(p) / (1024 * 1024)]: the quotient of two integers,
    rounded once. *)
Definition size_mb (bytes : N) : Q := fl (Z.of_N bytes # 1048576).

Definition small_file_mb : Q := inject_Z 10.

(** Line 319: [max(5, input_size * 0.5)]; [0.5] is a float, exactly. *)
Definition target_size_mb (input_size : Q) : Q :=
  py_max (inject_Z 5) (fl (input_size * (1 # 2))).

(** Line 336, for a duration that is not zero: three products and a
    quotient, each rounded, then [int]. Where [max] gives the integer 5
    the products are exact integers and the quotient of two integers is
    rounded once, which is what [fl] gives on them. *)
Definition target_bitrate (input_size : Q) (duration : Z) : Z :=
  py_int (fl (fl (fl (fl (target_size_mb input_size * inject_Z 8)
                      * inject_Z 1024) * inject_Z 1024) / inject_Z duration)).

(** Line 350: [int(target_bitrate * 1.5)]; the integer becomes a float
    first. *)
Definition max_bitrate (bitrate : Z) : Z :=
  py_int (fl (fl (inject_Z bitrate) * (3 # 2))).

(** Line 366: [output_size > input_size * 0.9]; the literal [0.9] is the
    float nearest to nine tenths. *)
Definition barely_smaller (input_size output_size : Q) : bool :=
  Qlt_bool (fl (input_size * fl (9 # 10))) output_size.

(** How the [ffmpeg -version] probe ends. *)
Inductive VersionProbe :=
| VersionOk
| VersionMissing      (* [FileNotFoundError]: no such program *)
| VersionFailed.      (* [CalledProcessError]: non-zero exit under [check=True] *)

(** What the encoding tool does in this run: the probe, the diagnostic
    output of the analysis run, the exit code of the encoding run, and the
    size of the file it left at the output path ([None]: it left the path
    as it was). *)
Record Ffmpeg := {
  ff_version : VersionProbe;
  ff_stderr : string;
  ff_returncode : Z;
  ff_output : option N
}.

Definition set_status (s : string) (r : ResumeRec) : ResumeRec :=
  {| status := s; start_time := start_time r; rr_dish_name := rr_dish_name r;
     video_path := video_path r |}.

(** Lines 305-373, after the look for an artifact to reuse. Every exception
    of this part is caught by the handlers of lines 375-381, which return
    [input_path]. *)
Definition run_compression (ff : Ffmpeg) (input_path output_path : string)
    (st : State) : Result string * State :=
  let st := emit EvFfmpegVersion st in
  match ff_version ff with
  | VersionMissing | VersionFailed => (Ok input_path, st)
  | VersionOk =>
      match fs st !! input_path with
      | None => (Ok input_path, st)
      | Some input_bytes =>
          let input_size := size_mb input_bytes in
          if Qlt_bool input_size small_file_mb then (Ok input_path, st)
          else
            let st := emit (EvFfmpegProbe input_path) st in
            let duration := duration_seconds (ff_stderr ff) in
            if duration =? 0 then (Ok input_path, st)
            else
              let bitrate := target_bitrate input_size duration in
              let st :=
                emit (EvFfmpegEncode input_path bitrate
                        (max_bitrate bitrate) (bitrate * 2)
                        output_path) st in
              let st :=
                match ff_output ff with
                | Some n => set_fs (<[output_path := n]> (fs st)) st
                | None => st
                end in
              if negb (ff_returncode ff =? 0) then (Ok input_path, st)
              else
                match fs st !! output_path with
                | Some output_bytes =>
                    if barely_smaller input_size (size_mb output_bytes)
                    then (Ok input_path, st)
                    else (Ok output_path, st)
                | None => (Ok input_path, st)
                end
      end
  end.

(** Lines 292-294: the resume record is marked and written before the
    [try] block. *)
Definition compress_entry (recipe_id : string) (rec : ResumeRec) (st : State)
    : State :=
  save_resume_data
    (set_resume_data
       (dict_set recipe_id (set_status "compressing" rec) (resume_data st)) st).

(** [compress_video(input_path, recipe_id)] *)
Definition compress_video (ff : Ffmpeg) (input_path recipe_id : string)
    (st : State) : Result string * State :=
  let output_path := compressed_path recipe_id in
  match dict_get recipe_id (resume_data st) with
  | None => (Raise KeyError, st)
  | Some rec =>
      let st := compress_entry recipe_id rec st in
      match fs st !! output_path with
      | Some file_size =>
          if (MiB <? file_size)%N then (Ok output_path, st)
          else run_compression ff input_path output_path st
      | None => run_compression ff input_path output_path st
      end
  end.

(** ** Chunked uploader (lines 383-555) *)

Record Clock := {
  clock_iso : string;     (* [datetime.now().isoformat()] *)
  clock_date : string     (* [datetime.now().strftime('%Y-%m-%d')] *)
}.

Definition video_title (today : string) (r : Recipe) : string :=
  dish_name r +:+ " Recipe - " +:+ today.

(** [f"{i+1}. {instruction}" for i, instruction in enumerate(...)] *)
Fixpoint numbered (i : nat) (l : list string) : list string :=
  match l with
  | [] => []
  | x :: l' => (pretty (S i) +:+ ". " +:+ x) :: numbered (S i) l'
  end.

Definition video_description (r : Recipe) : string :=
  let ingredients_list := PyStr.join PyStr.nl (map (fun i => "- " +:+ i) (ingredients r)) in
  let instructions_list := PyStr.join PyStr.nl (numbered 0 (instructions r)) in
  dish_name r +:+ PyStr.nl +:+ PyStr.nl +:+
  "Prep Time: " +:+ prep_time r +:+ PyStr.nl +:+
  "Cook Time: " +:+ cook_time r +:+ PyStr.nl +:+
  "Yield: " +:+ yield r +:+ PyStr.nl +:+ PyStr.nl +:+
  "INGREDIENTS:" +:+ PyStr.nl +:+ ingredients_list +:+ PyStr.nl +:+ PyStr.nl +:+
  "INSTRUCTIONS:" +:+ PyStr.nl +:+ instructions_list +:+ PyStr.nl +:+ PyStr.nl +:+
  "Follow for more delicious recipes daily!".

Definition request_body (today : string) (r : Recipe) : Body :=
  {| title := video_title today r;
     description := video_description r;
     tags := trim_tags (initial_tags r) |}.

(** What [upload_request.next_chunk()] returns: the progress in per cent
    ([int(status.progress() * 100)]) when there is a status, and the
    response when the upload is complete. *)
Definition UploadReply := Reply (option Z * option Response).

(** The local variables of the retry loop. *)
Record Loop := {
  response : option Response;
  retry_count : Z;
  last_progress : Z;
  stalled_count : Z
}.

Definition loop_init : Loop :=
  {| response := None; retry_count := 0; last_progress := 0; stalled_count := 0 |}.

(** The delay of lines 504, 517 and 531; the limit of line 494. *)
Definition upload_delay (retry_count : Z) : Z := Z.min (2 ^ retry_count) 120.
Definition stall_limit : Z := 5.

(** [e.resp.status in [500, 502, 503, 504]] *)
Definition is_server_error (code : Z) : bool :=
  (code =? 500) || (code =? 502) || (code =? 503) || (code =? 504).

(** How one pass of the loop body ends. *)
Inductive Pass :=
| Continue (l : Loop) (st : State)
| Abort (e : Exn) (l : Loop) (st : State).

(** The three retrying handlers (lines 501-510, 515-521, 527-533): count,
    sleep, and give up once the count has reached [max_retries]. *)
Definition retry_handler (c : RetryClass) (e : Exn) (max_retries : Z)
    (l : Loop) (st : State) : Pass :=
  let l :=
    {| response := response l; retry_count := retry_count l + 1;
       last_progress := last_progress l; stalled_count := stalled_count l |} in
  let st := emit (EvSleep c (upload_delay (retry_count l))) st in
  if max_retries <=? retry_count l then Abort e l st else Continue l st.

(** The body of the loop (lines 479-533) for one reply of [next_chunk]. *)
Definition upload_pass (max_retries : Z) (r : UploadReply) (l : Loop)
    (st : State) : Pass :=
  let st := emit EvYoutubeChunk st in
  match r with
  | Returned (progress, resp) =>
      let l :=
        {| response := resp; retry_count := retry_count l;
           last_progress := last_progress l; stalled_count := stalled_count l |} in
      match progress with
      | Some current_progress =>
          if current_progress =? last_progress l then
            let l :=
              {| response := response l; retry_count := retry_count l;
                 last_progress := last_progress l;
                 stalled_count := stalled_count l + 1 |} in
            if stall_limit <? stalled_count l
            then retry_handler UploadTimeoutRetry SocketTimeout max_retries l st
            else Continue l st
          else
            Continue
              {| response := response l; retry_count := retry_count l;
                 last_progress := current_progress; stalled_count := 0 |} st
      | None => Continue l st
      end
  | Failed FTimeout =>
      retry_handler UploadTimeoutRetry SocketTimeout max_retries l st
  | Failed (FHttp code) =>
      if is_server_error code
      then retry_handler UploadServerRetry (HttpError code) max_retries l st
      else Abort (HttpError code) l st
  | Failed (FOther msg) =>
      retry_handler UploadErrorRetry (OtherError msg) max_retries l st
  end.

(** The guard of line 478. *)
Definition loop_guard (max_retries : Z) (l : Loop) : bool :=
  match response l with
  | None => retry_count l <? max_retries
  | Some _ => false
  end.

(** [while response is None and retry_count < max_retries:] *)
Fixpoint upload_loop (max_retries : Z) (youtube : list UploadReply) (l : Loop)
    (st : State) : Result unit * Loop * State :=
  if loop_guard max_retries l then
    match youtube with
    | [] => (Pending, l, st)
    | r :: youtube' =>
        match upload_pass max_retries r l st with
        | Continue l st => upload_loop max_retries youtube' l st
        | Abort e l st => (Raise e, l, st)
        end
    end
  else (Ok tt, l, st).

Definition set_uploading (path : string) (r : ResumeRec) : ResumeRec :=
  {| status := "uploading"; start_time := start_time r;
     rr_dish_name := rr_dish_name r; video_path := Some path |}.

(** Lines 535-551: what follows the loop. *)
Definition finish_upload (recipe_id : string) (l : Loop) (st : State)
    : Result string * State :=
  match response l with
  | Some resp =>
      if bool_decide (resp = ∅) then
        (Raise (OtherError "Upload failed after maximum retries"), st)
      else
        match resp !! "id" with
        | None => (Raise KeyError, st)
        | Some video_id =>
            let st := set_used_recipes ({[recipe_id]} ∪ used_recipes st) st in
            let st :=
              emit (EvSaveUsed (used_recipes st))
                   (set_used_recipes_file (Some (used_recipes st)) st) in
            let st :=
              match dict_get recipe_id (resume_data st) with
              | Some _ =>
                  save_resume_data
                    (set_resume_data (dict_del recipe_id (resume_data st)) st)
              | None => st
              end in
            (Ok ("https://www.youtube.com/watch?v=" +:+ video_id), st)
        end
  | None => (Raise (OtherError "Upload failed after maximum retries"), st)
  end.

(** Lines 387-390: the resume record is marked and written before the
    [try] block. *)
Definition upload_entry (video_path : string) (recipe : Recipe) (rec : ResumeRec)
    (st : State) : State :=
  save_resume_data
    (set_resume_data
       (dict_set (str_id (id recipe)) (set_uploading video_path rec) (resume_data st))
       st).

(** [upload_to_youtube(video_path, recipe, max_retries)] *)
Definition upload_to_youtube (max_retries : Z) (youtube : list UploadReply)
    (today : string) (video_path : string) (recipe : Recipe) (st : State)
    : Result string * State :=
  let recipe_id := str_id (id recipe) in
  match dict_get recipe_id (resume_data st) with
  | None => (Raise KeyError, st)
  | Some rec =>
      let st := upload_entry video_path recipe rec st in
      match fs st !! video_path with
      | None => (Raise FileNotFoundError, st)
      | Some _ =>
          let st := emit (EvYoutubeInsert (request_body today recipe) video_path) st in
          match upload_loop max_retries youtube loop_init st with
          | (Ok _, l, st) => finish_upload recipe_id l st
          | (Raise e, _, st) => (Raise e, st)
          | (Pending, _, st) => (Pending, st)
          end
      end
  end.

(** ** Orchestrator (lines 156-197, 565-647) *)

(** [load_recipes]: [None] in [catalog_file] is a file that cannot be read
    or parsed. *)
Definition load_recipes (st : State) : Result unit * State :=
  match catalog_file st with
  | Some l => (Ok tt, set_recipes l st)
  | None => (Raise (OtherError "Failed to load recipes"), st)
  end.

(** [get_recipe_by_id] *)
Definition get_recipe_by_id (recipe_id : string) (st : State) : option Recipe :=
  find (fun r => String.eqb (str_id (id r)) recipe_id) (recipes st).

(** The answer of [random]: [None] when [random.random() < 0.2] is false,
    the index chosen by [random.choice] otherwise. *)
Definition Random := option nat.

Definition in_progress (r : ResumeRec) : bool :=
  String.eqb (status r) "downloading" || String.eqb (status r) "compressing"
  || String.eqb (status r) "uploading".

(** [list.sort(key=...)]: stable insertion of one element. *)
Fixpoint insert_by_key (x : Z * Recipe) (l : list (Z * Recipe)) : list (Z * Recipe) :=
  match l with
  | [] => [x]
  | y :: l' => if fst x <=? fst y then x :: l else y :: insert_by_key x l'
  end.

Definition sort_by_key (l : list (Z * Recipe)) : list (Z * Recipe) :=
  foldr insert_by_key [] l.

(** The key of every element is computed before sorting; one that has no
    integer reading raises [ValueError]. *)
Fixpoint keyed (l : list Recipe) : option (list (Z * Recipe)) :=
  match l with
  | [] => Some []
  | r :: l' =>
      k ← int_id (id r);
      rest ← keyed l';
      Some ((k, r) :: rest)
  end.

(** [get_next_recipe] *)
Definition get_next_recipe (rnd : Random) (st : State) : Result (option Recipe) :=
  let available_recipes :=
    filter (fun r => str_id (id r) ∉ used_recipes st) (recipes st) in
  match available_recipes with
  | [] => Ok None
  | _ :: _ =>
      let resume_recipe_id :=
        fst <$> find (fun kv => in_progress (snd kv)) (resume_data st) in
      let resumed :=
        match resume_recipe_id with
        | Some rid =>
            if String.eqb rid "" then None
            else find (fun r => String.eqb (str_id (id r)) rid) available_recipes
        | None => None
        end in
      match resumed with
      | Some r => Ok (Some r)
      | None =>
          match keyed available_recipes with
          | None => Raise ValueError
          | Some ks =>
              let sorted := map snd (sort_by_key ks) in
              let next_recipe := head sorted in
              if (10 <? length sorted)%nat then
                match rnd with
                | Some i => Ok (take 10 sorted !! (i mod 10)%nat)
                | None => Ok next_recipe
                end
              else Ok next_recipe
          end
      end
  end.

(** [cleanup(recipe_id)] *)
Definition remove_if_exists (path : string) (st : State) : State :=
  match fs st !! path with
  | Some _ => emit (EvRemove path) (set_fs (delete path (fs st)) st)
  | None => st
  end.

Definition cleanup (recipe_id : string) (st : State) : State :=
  remove_if_exists (compressed_path recipe_id)
    (remove_if_exists (original_path recipe_id) st).

(** The replies of everything outside the process for one run. *)
Record Env := {
  env_clock : Clock;
  env_drive : list DriveAttempt;
  env_ffmpeg : Ffmpeg;
  env_youtube : list UploadReply;
  env_random : Random
}.

Definition download_max_retries : Z := 5.
Definition upload_max_retries : Z := 15.

(** Lines 592-608: the recipe to process; [Ok None] is [return None]. *)
Definition select_recipe (env : Env) (recipe_id : option string) (st : State)
    : Result (option Recipe) :=
  match recipe_id with
  | Some rid =>
      if String.eqb rid "" then get_next_recipe (env_random env) st
      else
        match get_recipe_by_id rid st with
        | None => Ok None
        | Some recipe =>
            if bool_decide (str_id (id recipe) ∈ used_recipes st) then Ok None
            else Ok (Some recipe)
        end
  | None => get_next_recipe (env_random env) st
  end.

(** Lines 613-625: the artifact a crashed run left for the uploader. *)
Definition resume_path (recipe_id : string) (st : State) : option string :=
  match dict_get recipe_id (resume_data st) with
  | Some rec =>
      if String.eqb (status rec) "uploading" then
        match video_path rec with
        | Some p =>
            if negb (String.eqb p "") && bool_decide (is_Some (fs st !! p))
            then Some p else None
        | None => None
        end
      else None
  | None => None
  end.

(** Lines 613-632: the artifact for the uploader, either the one a crashed
    run left or the result of download and compression. *)
Definition stage_artifact (env : Env) (recipe : Recipe) (st : State)
    : Result string * State :=
  match resume_path (str_id (id recipe)) st with
  | Some p => (Ok p, st)
  | None =>
      match download_video download_max_retries (env_drive env)
              (clock_iso (env_clock env)) recipe st with
      | (Ok original_video_path, st) =>
          compress_video (env_ffmpeg env) original_video_path (str_id (id recipe)) st
      | other => other
      end
  end.

(** Lines 610-643 for the selected recipe. *)
Definition process_recipe (env : Env) (recipe : Recipe) (st : State)
    : Result (option string) * State :=
  let recipe_id := str_id (id recipe) in
  match stage_artifact env recipe st with
  | (Ok temp_video_path, st) =>
      match upload_to_youtube upload_max_retries (env_youtube env)
              (clock_date (env_clock env)) temp_video_path recipe st with
      | (Ok youtube_url, st) =>
          let st := if String.eqb youtube_url "" then st else cleanup recipe_id st in
          (Ok (Some youtube_url), st)
      | (Raise e, st) => (Raise e, st)
      | (Pending, st) => (Pending, st)
      end
  | (Raise e, st) => (Raise e, st)
  | (Pending, st) => (Pending, st)
  end.

(** Lines 588-590: [if not self.recipes: self.load_recipes()]. *)
Definition ensure_recipes (st : State) : Result unit * State :=
  match recipes st with
  | [] => load_recipes st
  | _ :: _ => (Ok tt, st)
  end.

(** [process_single_recipe(recipe_id)]: every exception ends in
    [return None]. *)
Definition process_single_recipe (env : Env) (recipe_id : option string)
    (st : State) : Result (option string) * State :=
  let body :=
    match ensure_recipes st with
    | (Ok _, st) =>
        match select_recipe env recipe_id st with
        | Ok (Some recipe) => process_recipe env recipe st
        | Ok None => (Ok None, st)
        | Raise e => (Raise e, st)
        | Pending => (Pending, st)
        end
    | (Raise e, st) => (Raise e, st)
    | (Pending, st) => (Pending, st)
    end in
  match body with
  | (Raise _, st) => (Ok None, st)
  | other => other
  end.

(** ** Start-up, catalog text, sign-in and status report
    (lines 46-154, 649-720) *)

(** [content.replace(chr(i), '')] *)
Fixpoint remove_char (c : ascii) (s : string) : string :=
  match s with
  | EmptyString => EmptyString
  | String x s' =>
      if Ascii.eqb x c then remove_char c s' else String x (remove_char c s')
  end.

(** Lines 143-145 of [load_recipes]: every character below 32 is taken out
    of the text of the catalog, one code after the other, tab, line feed and
    carriage return apart. *)
Definition sanitize (content : string) : string :=
  fold_left
    (fun content i =>
       if bool_decide (i ∈ [9; 10; 13]%nat) then content
       else remove_char (ascii_of_nat i) content)
    (seq 0 32) content.

(** [__init__] (lines 55-85) on the files a former process left: the ledger
    is read from its file when there is one, the resume mapping likewise,
    and the catalog is not loaded yet. *)
Definition init (disk : State) : State :=
  {| recipes := [];
     used_recipes := default ∅ (used_recipes_file disk);
     resume_data := default [] (resume_data_file disk);
     fs := fs disk; catalog_file := catalog_file disk;
     used_recipes_file := used_recipes_file disk;
     resume_data_file := resume_data_file disk; trace := trace disk |}.

(** How one pass of the loop of [authenticate] ends. *)
Inductive AuthEnd :=
| AuthBreak                  (* line 115 *)
| AuthTimeout                (* line 116 *)
| AuthError (msg : string).  (* line 120 *)

(** One pass of that loop as the outside answers it: the value of [creds]
    when the pass ends, and how it ends. *)
Record AuthPass (Creds : Type) := {
  ap_creds : option Creds;
  ap_end : AuthEnd
}.
Arguments ap_creds {Creds} _.
Arguments ap_end {Creds} _.

Definition auth_max_retries : Z := 3.
Definition auth_delay : Z := 5.

(** [while retry_count < max_retries:] of lines 95-125, with the seconds
    slept so far. *)
Fixpoint authenticate_loop {Creds : Type} (passes : list (AuthPass Creds))
    (creds : option Creds) (retry_count : Z) (slept : list Z)
    : Result (option Creds) * list Z :=
  if retry_count <? auth_max_retries then
    match passes with
    | [] => (Pending, slept)
    | p :: passes' =>
        let creds := ap_creds p in
        match ap_end p with
        | AuthBreak => (Ok creds, slept)
        | AuthTimeout =>
            authenticate_loop passes' creds (retry_count + 1) (slept ++ [auth_delay])
        | AuthError msg =>
            let retry_count := retry_count + 1 in
            if auth_max_retries <=? retry_count then (Raise (OtherError msg), slept)
            else authenticate_loop passes' creds retry_count (slept ++ [auth_delay])
        end
    end
  else (Ok creds, slept).

(** [authenticate] (lines 87-134): the credentials the services are built
    with; [build] is how building the two services ends. *)
Definition authenticate {Creds : Type} (passes : list (AuthPass Creds))
    (build : Reply unit) : Result (option Creds) * list Z :=
  match authenticate_loop passes None 0 [] with
  | (Ok creds, slept) =>
      match build with
      | Returned _ => (Ok creds, slept)
      | Failed f => (Raise (exn_of f), slept)
      end
  | other => other
  end.

(** What [get_status_report] shows (lines 656-687); the text of the report
    file is not rendered. [next_recipes] is [None] when line 675 skips the
    list. *)
Record Report := {
  total_recipes : Z;
  uploaded_count : Z;
  remaining_count : Z;
  estimated_hours : option Z;
  next_recipes : option (list Recipe);
  in_progress_recipes : list (string * ResumeRec)
}.

(** Lines 676-677: the catalog entries that are not in the ledger, by
    integer identifier. *)
Definition remaining_sorted (st : State) : option (list Recipe) :=
  ks ← keyed (filter (fun r => str_id (id r) ∉ used_recipes st) (recipes st));
  Some (map snd (sort_by_key ks)).

(** [get_status_report]: [Ok None] when an exception was caught and logged
    (lines 719-720), so no report was written. *)
Definition get_status_report (st : State) : Result (option Report) * State :=
  match ensure_recipes st with
  | (Ok _, st) =>
      let total := Z.of_nat (length (recipes st)) in
      let uploaded := Z.of_nat (size (used_recipes st)) in
      let remaining := total - uploaded in
      let estimate := if 0 <? uploaded then Some (remaining * 2) else None in
      let report next :=
        {| total_recipes := total; uploaded_count := uploaded;
           remaining_count := remaining; estimated_hours := estimate;
           next_recipes := next; in_progress_recipes := resume_data st |} in
      if 0 <? remaining then
        match remaining_sorted st with
        | Some next => (Ok (Some (report (Some next))), st)
        | None => (Ok None, st)
        end
      else (Ok (Some (report None)), st)
  | (Raise _, st) => (Ok None, st)
  | (Pending, st) => (Pending, st)
  end.

(** ** Vocabulary of the properties *)

(** The events that go to the remote store. *)
Definition is_fetch (e : Event) : bool :=
  match e with
  | EvDriveRequest _ | EvDriveChunk => true
  | _ => false
  end.

(** The events that write the ledger file. *)
Definition is_ledger_write (e : Event) : bool :=
  match e with
  | EvSaveUsed _ => true
  | _ => false
  end.

(** From [a] to [b] the ledger and its file are the same, and the events in
    between write neither. *)
Definition ledger_untouched (a b : State) : Prop :=
  used_recipes b = used_recipes a ∧
  used_recipes_file b = used_recipes_file a ∧
  ∃ evs, trace b = trace a ++ evs ∧ Forall (fun e => is_ledger_write e = false) evs.

(** Everything but the trace. *)
Definition same_store (a b : State) : Prop :=
  recipes b = recipes a ∧ used_recipes b = used_recipes a ∧
  resume_data b = resume_data a ∧ fs b = fs a ∧
  catalog_file b = catalog_file a ∧
  used_recipes_file b = used_recipes_file a ∧
  resume_data_file b = resume_data_file a.

(** The state and the loop variables a pass ends with. *)
Definition pass_state (p : Pass) : State :=
  match p with
  | Continue _ st | Abort _ _ st => st
  end.

Definition pass_loop (p : Pass) : Loop :=
  match p with
  | Continue l _ | Abort _ l _ => l
  end.

(** The retry classes of the uploader. *)
Definition is_upload_class (c : RetryClass) : bool :=
  match c with
  | UploadTimeoutRetry | UploadServerRetry | UploadErrorRetry => true
  | _ => false
  end.

(** The removals of local files. *)
Definition is_remove (e : Event) : bool :=
  match e with
  | EvRemove _ => true
  | _ => false
  end.

(** The state in which the retry loop of the uploader starts. *)
Definition upload_start (today video_path : string) (recipe : Recipe)
    (rec : ResumeRec) (st : State) : State :=
  emit (EvYoutubeInsert (request_body today recipe) video_path)
       (upload_entry video_path recipe rec st).

(** [n] calls of [next_chunk] and nothing else. *)
Definition polled (n : nat) (st : State) : State :=
  Nat.iter n (emit EvYoutubeChunk) st.

(** The loop variables with another stall counter, another response. *)
Definition with_stalled (k : Z) (l : Loop) : Loop :=
  {| response := response l; retry_count := retry_count l;
     last_progress := last_progress l; stalled_count := k |}.

Definition with_response (r : option Response) (l : Loop) : Loop :=
  {| response := r; retry_count := retry_count l;
     last_progress := last_progress l; stalled_count := stalled_count l |}.

(** A completion that reports the recorded percentage and no response. *)
Definition unchanged (l : Loop) : UploadReply :=
  Returned (Some (last_progress l), None).

(** The text [Duration: ab:cd:ef]. *)
Definition hms_text (a b c d e f : ascii) : string :=
  "Duration: " +:+ String a (String b (String ":" (String c (String d
    (String ":" (String e (String f EmptyString))))))).

(** The six characters are digits; the seconds they stand for. *)
Definition hms_digits (a b c d e f : ascii) : bool :=
  PyStr.is_digit a && PyStr.is_digit b && PyStr.is_digit c &&
  PyStr.is_digit d && PyStr.is_digit e && PyStr.is_digit f.

Definition hms_seconds (a b c d e f : ascii) : Z :=
  (10 * PyStr.digit_val a + PyStr.digit_val b) * 3600 +
  (10 * PyStr.digit_val c + PyStr.digit_val d) * 60 +
  (10 * PyStr.digit_val e + PyStr.digit_val f).

(** The pattern [Duration: (\d{2}):(\d{2}):(\d{2})] matches [s] right after
    the prefix [pre]. *)
Definition pattern_at (s pre : string) (a b c d e f : ascii) : Prop :=
  hms_digits a b c d e f = true ∧ ∃ post, s = pre +:+ hms_text a b c d e f +:+ post.

(** The pattern matches nowhere in [s]. *)
Definition pattern_free (s : string) : Prop :=
  ∀ pre a b c d e f, ¬ pattern_at s pre a b c d e f.

(** The match that [re.search] reports: no match starts further left. *)
Definition leftmost_at (s pre : string) (a b c d e f : ascii) : Prop :=
  pattern_at s pre a b c d e f ∧
  ∀ pre' a' b' c' d' e' f',
    pattern_at s pre' a' b' c' d' e' f' → (String.length pre ≤ String.length pre')%nat.

(** The bit rate as the specification words it, the Python expression
    [int((max(5, 0.5 * input_size_mb) * 8 * 1024 * 1024) / duration_seconds)]
    read in Python's arithmetic: the products from left to right, each
    operation on floats rounded, [int] towards zero. *)
Definition spec_target_bitrate (input_size_mb : Q) (duration : Z) : Z :=
  py_int (fl (fl (fl (fl (py_max (inject_Z 5) (fl ((1 # 2) * input_size_mb))
                          * inject_Z 8) * inject_Z 1024) * inject_Z 1024)
              / inject_Z duration)).

(** The tool with another diagnostic output of its analysis run. *)
Definition with_stderr (s : string) (ff : Ffmpeg) : Ffmpeg :=
  {| ff_version := ff_version ff; ff_stderr := s;
     ff_returncode := ff_returncode ff; ff_output := ff_output ff |}.

(** The cap of each class of retry (the fixed delay for the downloader's
    other errors). *)
Definition retry_cap (c : RetryClass) : Z :=
  match c with
  | ChunkTimeoutRetry => 30
  | DownloadTimeoutRetry => 60
  | DownloadErrorRetry => 10
  | UploadTimeoutRetry | UploadServerRetry | UploadErrorRetry => 120
  end.

(** The delay of a class at a given count of attempts: [min(2^attempt, cap)],
    and the fixed 10 seconds of the downloader's other errors. *)
Definition retry_delay (c : RetryClass) (attempt : Z) : Z :=
  match c with
  | DownloadErrorRetry => 10
  | _ => Z.min (2 ^ attempt) (retry_cap c)
  end.

(** The count of attempts at the first retry of a class: a chunk timeout
    reads the counter as it is, every other handler has added one. *)
Definition first_attempt (c : RetryClass) : Z :=
  match c with
  | ChunkTimeoutRetry => 0
  | _ => 1
  end.

#[global] Instance RetryClass_eq_dec : EqDecision RetryClass.
Proof. solve_decision. Defined.

(** The delays of one class, in the order of the trace. *)
Fixpoint class_delays (c : RetryClass) (evs : list Event) : list Z :=
  match evs with
  | [] => []
  | EvSleep c' secs :: evs' =>
      if decide (c' = c) then secs :: class_delays c evs' else class_delays c evs'
  | _ :: evs' => class_delays c evs'
  end.

(** The calls of [time.sleep]. *)
Definition is_sleep (e : Event) : bool :=
  match e with
  | EvSleep _ _ => true
  | _ => false
  end.

(** [backoff rc rc' evs]: the sleeps of [evs] are those of a retry counter
    that starts at [rc] and ends at [rc']. A chunk timeout sleeps for the
    delay at the current count; every other retry adds one to the count and
    sleeps for the delay at the new count. *)
Inductive backoff : Z → Z → list Event → Prop :=
| backoff_nil rc : backoff rc rc []
| backoff_skip rc rc' e evs :
    is_sleep e = false → backoff rc rc' evs → backoff rc rc' (e :: evs)
| backoff_chunk rc rc' evs :
    backoff rc rc' evs →
    backoff rc rc' (EvSleep ChunkTimeoutRetry (retry_delay ChunkTimeoutRetry rc) :: evs)
| backoff_retry rc rc' c evs :
    c ≠ ChunkTimeoutRetry →
    backoff (rc + 1) rc' evs →
    backoff rc rc' (EvSleep c (retry_delay c (rc + 1)) :: evs).

(** The sleeps of the handlers that count the attempt (every class but the
    chunk timeouts), each with its class, in the order of the trace. *)
Fixpoint counted_sleeps (evs : list Event) : list (RetryClass * Z) :=
  match evs with
  | [] => []
  | EvSleep c secs :: evs' =>
      if decide (c = ChunkTimeoutRetry) then counted_sleeps evs'
      else (c, secs) :: counted_sleeps evs'
  | _ :: evs' => counted_sleeps evs'
  end.

(** The delays of successive retries of the classes [cs], the first of
    them at the count [k]. *)
Fixpoint numbered_delays (k : Z) (cs : list RetryClass) : list (RetryClass * Z) :=
  match cs with
  | [] => []
  | c :: cs' => (c, retry_delay c k) :: numbered_delays (k + 1) cs'
  end.

(** ** Vocabulary of the further properties *)

(** The characters [sanitize] lets through: codes from 32 on, tab, line
    feed and carriage return. *)
Definition is_allowed (c : ascii) : bool :=
  let n := nat_of_ascii c in
  ((32 <=? n) || (n =? 9) || (n =? 10) || (n =? 13))%nat.

(** The characters of a string that pass a test, in order. *)
Fixpoint string_filter (f : ascii → bool) (s : string) : string :=
  match s with
  | EmptyString => EmptyString
  | String x s' => if f x then String x (string_filter f s') else string_filter f s'
  end.

(** Every character of a string passes a test. *)
Fixpoint string_forall (f : ascii → bool) (s : string) : bool :=
  match s with
  | EmptyString => true
  | String x s' => f x && string_forall f s'
  end.

(** The nine tags every upload request starts with (lines 411-417). *)
Definition base_tags (r : Recipe) : list string :=
  [dish_name r; dish_type r; taste_category r;
   "recipe"; "cooking"; "food"; "homemade"; "chef"; "delicious"].

(** The catalog entries that are not in the ledger (line 158). *)
Definition available_recipes (st : State) : list Recipe :=
  filter (fun r => str_id (id r) ∉ used_recipes st) (recipes st).

(** The identifier of the first resume record that is in progress
    (lines 166-170). *)
Definition resume_recipe_id (st : State) : option string :=
  fst <$> find (fun kv => in_progress (snd kv)) (resume_data st).

(** What a new process would read from the files is what the object
    holds. *)
Definition synced (st : State) : Prop :=
  default ∅ (used_recipes_file st) = used_recipes st ∧
  default [] (resume_data_file st) = resume_data st.

(** The [get_media] requests the downloader builds (line 239), one as
    each attempt starts. Building one sends nothing: what reaches the
    remote store are the calls of [next_chunk], which [is_drive_chunk]
    counts. *)
Definition is_request (e : Event) : bool :=
  match e with
  | EvDriveRequest _ => true
  | _ => false
  end.

Definition is_drive_chunk (e : Event) : bool :=
  match e with
  | EvDriveChunk => true
  | _ => false
  end.

(** The calls of the encoding tool. *)

Definition is_ffmpeg (e : Event) : bool :=
  match e with
  | EvFfmpegVersion | EvFfmpegProbe _ | EvFfmpegEncode _ _ _ _ _ => true
  | _ => false
  end.

(** The calls to the video service. *)
Definition is_youtube (e : Event) : bool :=
  match e with
  | EvYoutubeInsert _ _ | EvYoutubeChunk => true
  | _ => false
  end.

(** The integer a recipe is sorted by (line 180), for an identifier that
    reads as one. *)
Definition int_key (r : Recipe) : Z := default 0 (int_id (id r)).

(** No character of the string is a slash. *)
Definition slash_free (s : string) : bool :=
  string_forall (fun c => negb (Ascii.eqb c "/")) s.

(** The marker [_extract_file_id] looks for, and the marker without its
    last character. *)
Definition file_marker : string := "/file/d/".
Definition file_marker_open : string := "/file/d".

(** The sleeps between two attempts of the downloader (lines 267 and 278),
    the calls of [next_chunk] of the uploader and its sleeps. *)
Definition is_attempt_sleep (e : Event) : bool :=
  match e with
  | EvSleep DownloadTimeoutRetry _ | EvSleep DownloadErrorRetry _ => true
  | _ => false
  end.

Definition is_upload_chunk (e : Event) : bool :=
  match e with
  | EvYoutubeChunk => true
  | _ => false
  end.

Definition is_upload_sleep (e : Event) : bool :=
  match e with
  | EvSleep c _ => is_upload_class c
  | _ => false
  end.

(** How many events of a kind the trace of a state holds. *)
Definition count (f : Event → bool) (st : State) : Z :=
  Z.of_nat (length (List.filter f (trace st))).

(** An attempt of the downloader that ends in an exception: the request
    fails, or a call of [next_chunk] fails with something else than a
    timeout before the last chunk. *)
Fixpoint chunks_fail (chunks : list (Reply (N * bool))) : bool :=
  match chunks with
  | [] => false
  | Returned (_, done) :: chunks' => if done then false else chunks_fail chunks'
  | Failed FTimeout :: chunks' => chunks_fail chunks'
  | Failed _ :: _ => true
  end.

Definition attempt_fails (a : DriveAttempt) : bool :=
  match da_request a with
  | Failed _ => true
  | Returned _ => chunks_fail (da_chunks a)
  end.

(** The record [download_video] writes at line 211. *)
Definition downloading_record (now : string) (r : Recipe) : ResumeRec :=
  {| status := "downloading"; start_time := now;
     rr_dish_name := dish_name r; video_path := None |}.

(** A complete original is on disk (lines 221-225). *)
Definition cached (recipe_id : string) (st : State) : bool :=
  match fs st !! original_path recipe_id with
  | Some file_size => (MiB <? file_size)%N
  | None => false
  end.

(** [if not file_id] (line 228). *)
Definition no_file_id (drive_url : string) : bool :=
  match extract_file_id drive_url with
  | Some file_id => String.eqb file_id ""
  | None => true
  end.

(** Everything but the trace and the file at one path. *)
Definition same_but (path : string) (a b : State) : Prop :=
  recipes b = recipes a ∧ used_recipes b = used_recipes a ∧
  resume_data b = resume_data a ∧ catalog_file b = catalog_file a ∧
  used_recipes_file b = used_recipes_file a ∧
  resume_data_file b = resume_data_file a ∧
  ∀ q, q ≠ path → fs b !! q = fs a !! q.

(** What a run of the retry loop of the downloader that starts with the
    counter at [rc] leaves: the file is there after a success and the files
    are untouched otherwise, and the requests and the sleeps between
    attempts are bounded by the attempts that are left. *)
Definition fetch_run (max_retries : Z) (path : string) (rc : Z) (st : State)
    (r : Result string) (st' : State) : Prop :=
  same_but path st st' ∧
  match r with
  | Ok p => p = path ∧ is_Some (fs st' !! path)
  | _ => fs st' = fs st
  end ∧
  r ≠ Raise ValueError ∧
  count is_request st' - count is_request st ≤ Z.max 0 (max_retries - rc) ∧
  count is_attempt_sleep st' - count is_attempt_sleep st
    ≤ Z.max 0 (max_retries - rc - 1) ∧
  count is_remove st' = count is_remove st.

(** A reply of [next_chunk] that one of the three retrying handlers of the
    uploader takes. *)
Definition is_retryable (r : UploadReply) : bool :=
  match r with
  | Failed FTimeout | Failed (FOther _) => true
  | Failed (FHttp code) => is_server_error code
  | Returned _ => false
  end.

(** The runs of the encoder. *)
Definition is_encode (e : Event) : bool :=
  match e with
  | EvFfmpegEncode _ _ _ _ _ => true
  | _ => false
  end.

(** From [a] to [b] no file is removed and the catalog in memory is the
    same. *)
Definition keeps_files (a b : State) : Prop :=
  (∀ q, is_Some (fs a !! q) → is_Some (fs b !! q)) ∧
  count is_remove b = count is_remove a ∧
  recipes b = recipes a.

(** A complete compressed artifact is on disk (lines 298-303). *)
Definition reusable (recipe_id : string) (st : State) : bool :=
  match fs st !! compressed_path recipe_id with
  | Some file_size => (MiB <? file_size)%N
  | None => false
  end.

(** A pass of the sign-in loop that fails: it ends in an exception, not at
    [break]. *)
Definition pass_fails {Creds : Type} (p : AuthPass Creds) : bool :=
  match ap_end p with
  | AuthBreak => false
  | AuthTimeout | AuthError _ => true
  end.

(** The failed passes at the head of a script: those before the first pass
    that ends at [break]. *)
Fixpoint failed_passes {Creds : Type} (passes : list (AuthPass Creds)) : nat :=
  match passes with
  | [] => O
  | p :: passes' => if pass_fails p then S (failed_passes passes') else O
  end.

(** ** Sample runs *)

Module Sample.

Definition recipe : Recipe :=
  {| id := IdInt 7; dish_name := "Soup";
     public_url := "https://drive.google.com/file/d/ABC/view";
     ingredients := ["2 cups flour, sifted"; "1 egg"];
     instructions := ["Mix"; "Bake"];
     prep_time := "5 min"; cook_time := "10 min"; yield := "2";
     dish_type := "main"; taste_category := "savoury" |}.

(** A fresh start: the catalog is loaded, nothing else is there. *)
Definition fresh : State :=
  {| recipes := [recipe]; used_recipes := ∅; resume_data := []; fs := ∅;
     catalog_file := Some [recipe]; used_recipes_file := None;
     resume_data_file := None; trace := [] |}.

Definition downloading : ResumeRec :=
  {| status := "downloading"; start_time := "2024-01-01T00:00:00";
     rr_dish_name := "Soup"; video_path := None |}.

Definition uploading : ResumeRec :=
  {| status := "uploading"; start_time := "2024-01-01T00:00:00";
     rr_dish_name := "Soup"; video_path := Some (compressed_path "7") |}.

(** The original of 20 MiB is on disk. *)
Definition downloaded : State :=
  {| recipes := [recipe]; used_recipes := ∅;
     resume_data := [("7", downloading)];
     fs := {[ original_path "7" := 20971520%N ]};
     catalog_file := Some [recipe]; used_recipes_file := None;
     resume_data_file := Some [("7", downloading)]; trace := [] |}.

(** A run was killed during the upload of the compressed artifact. *)
Definition interrupted : State :=
  {| recipes := [recipe]; used_recipes := ∅;
     resume_data := [("7", uploading)];
     fs := {[ compressed_path "7" := 9000000%N ]};
     catalog_file := Some [recipe]; used_recipes_file := None;
     resume_data_file := Some [("7", uploading)]; trace := [] |}.

(** The item has been published. *)
Definition published : State :=
  {| recipes := [recipe]; used_recipes := {[ "7" ]}; resume_data := []; fs := ∅;
     catalog_file := Some [recipe]; used_recipes_file := Some {[ "7" ]};
     resume_data_file := Some []; trace := [] |}.

Definition ffmpeg : Ffmpeg :=
  {| ff_version := VersionOk; ff_stderr := "  Duration: 00:01:30.50, start: 0.0";
     ff_returncode := 0; ff_output := Some 9000000%N |}.

(** One chunk, a server error, then the confirmation. *)
Definition youtube : list UploadReply :=
  [Returned (Some 50, None); Failed (FHttp 503);
   Returned (None, Some {[ "id" := "xyz" ]})].

Definition env : Env :=
  {| env_clock := {| clock_iso := "2024-01-01T00:00:00"; clock_date := "2024-01-01" |};
     env_drive :=
       [{| da_request := Returned tt;
           da_chunks := [Returned (1048576%N, false); Failed FTimeout;
                         Returned (19922944%N, true)] |}];
     env_ffmpeg := ffmpeg;
     env_youtube := youtube;
     env_random := None |}.

(** The replies before a client error, and the loop after them. *)
Definition before_error : list UploadReply :=
  [Returned (Some 50, None); Failed (FHttp 503)].

Definition loop_before_error : Result unit * Loop * State :=
  upload_loop upload_max_retries before_error loop_init
    (upload_start "2024-01-01" (compressed_path "7") recipe uploading interrupted).

End Sample.

(** ** A catalog of three *)

Module Shelf.

Definition stew : Recipe :=
  {| id := IdStr "3"; dish_name := "Stew";
     public_url := "https://drive.google.com/file/d/DEF/view";
     ingredients := ["1 onion, diced"; "2 cups stock"; "1 red onion"];
     instructions := ["Simmer"];
     prep_time := "10 min"; cook_time := "60 min"; yield := "4";
     dish_type := "main"; taste_category := "savoury" |}.

(** A link without the marker of a shared file. *)
Definition cake : Recipe :=
  {| id := IdInt 12; dish_name := "Cake";
     public_url := "https://example.com/cake.mp4";
     ingredients := ["3 eggs"]; instructions := ["Whisk"; "Bake"];
     prep_time := "20 min"; cook_time := "40 min"; yield := "8";
     dish_type := "dessert"; taste_category := "sweet" |}.

Definition catalog : list Recipe := [cake; Sample.recipe; stew].

(** The soup is published, nothing is in progress. *)
Definition idle : State :=
  {| recipes := catalog; used_recipes := {[ "7" ]}; resume_data := []; fs := ∅;
     catalog_file := Some catalog; used_recipes_file := Some {[ "7" ]};
     resume_data_file := Some []; trace := [] |}.

(** A run on the cake was interrupted during the download. *)
Definition resuming : State :=
  {| recipes := catalog; used_recipes := {[ "7" ]};
     resume_data := [("12", Sample.downloading)]; fs := ∅;
     catalog_file := Some catalog; used_recipes_file := Some {[ "7" ]};
     resume_data_file := Some [("12", Sample.downloading)]; trace := [] |}.

(** A store on which every request times out, a service on which every
    chunk does, and one that refuses the upload. *)
Definition dead_drive : list DriveAttempt :=
  replicate 5 {| da_request := Failed FTimeout; da_chunks := [] |}.

Definition dead_youtube : list UploadReply := replicate 15 (Failed FTimeout).

Definition refusing : Env :=
  {| env_clock := env_clock Sample.env; env_drive := env_drive Sample.env;
     env_ffmpeg := Sample.ffmpeg; env_youtube := [Failed (FHttp 403)];
     env_random := None |}.

End Shelf.

(** * Properties *)

(** ** Dictionaries *)

Section DictFacts.
Context {V : Type}.
Implicit Types (k : string) (d : list (string * V)).

Lemma dict_get_set_eq k (v : V) d : dict_get k (dict_set k v d) = Some v.
Proof.
  induction d as [|[k' v'] d IH]; simpl.
  - by rewrite String.eqb_refl.
  - destruct (String.eqb k k') eqn:E; simpl; rewrite ?E, ?String.eqb_refl; auto.
Qed.

Lemma dict_get_set_ne k k' (v : V) d :
  k ≠ k' → dict_get k' (dict_set k v d) = dict_get k' d.
Proof.
  intros Hne. induction d as [|[k0 v0] d IH]; simpl.
  - destruct (String.eqb_spec k' k); congruence.
  - destruct (String.eqb_spec k k0) as [->|]; simpl.
    + destruct (String.eqb_spec k' k0); congruence.
    + by rewrite IH.
Qed.

Lemma dict_get_del_eq k d : dict_get k (dict_del k d) = None.
Proof.
  induction d as [|[k' v'] d IH]; simpl; [done|].
  destruct (String.eqb k k') eqn:E; simpl; rewrite ?E; auto.
Qed.

Lemma dict_get_del_ne k k' d :
  k ≠ k' → dict_get k' (dict_del k d) = dict_get k' d.
Proof.
  intros Hne. induction d as [|[k0 v0] d IH]; simpl; [done|].
  destruct (String.eqb_spec k k0) as [->|]; simpl.
  - destruct (String.eqb_spec k' k0); congruence.
  - by rewrite IH.
Qed.
End DictFacts.

(** ** Tag trimming *)

Lemma total_tags_length_app (l1 l2 : list string) :
  total_tags_length (l1 ++ l2) = (total_tags_length l1 + total_tags_length l2)%nat.
Proof. induction l1; simpl; lia. Qed.

Lemma removelast_take {A : Type} (l : list A) :
  removelast l = take (length l - 1) l.
Proof.
  induction l as [|x [|y l] IH]; [done..|].
  change (removelast (x :: y :: l)) with (x :: removelast (y :: l)).
  rewrite IH. simpl. by rewrite Nat.sub_0_r.
Qed.

Lemma trim_tags_step (l : list string) :
  trim_tags l = if must_trim l then trim_tags (removelast l) else l.
Proof.
  simp trim_tags. destruct (inspect (must_trim l)) as [b Hb].
  destruct b; simp trim_tags; by rewrite Hb.
Qed.

(** The loop only pops: its result is the list cut at some length. *)
Lemma trim_tags_take (l : list string) :
  ∃ k, (k ≤ length l)%nat ∧ trim_tags l = take k l.
Proof.
  remember (length l) as n eqn:Hn. revert l Hn.
  induction n as [n IH] using lt_wf_ind. intros l ->.
  rewrite trim_tags_step. destruct (must_trim l) eqn:E.
  - unfold must_trim in E. apply andb_true_iff in E as [_ E].
    apply Nat.ltb_lt in E. unfold min_tags in E.
    destruct (IH (length (removelast l))) with (l := removelast l)
      as (k & Hk & Heq); [|done|].
    { rewrite removelast_take, length_take. lia. }
    exists k. rewrite removelast_take, length_take in Hk.
    split; [lia|]. rewrite Heq, removelast_take, take_take. f_equal. lia.
  - exists (length l). split; [lia|]. by rewrite firstn_all.
Qed.

(** The loop stops only when its guard is false. *)
Lemma trim_tags_guard (l : list string) : must_trim (trim_tags l) = false.
Proof.
  remember (length l) as n eqn:Hn. revert l Hn.
  induction n as [n IH] using lt_wf_ind. intros l ->.
  rewrite trim_tags_step. destruct (must_trim l) eqn:E; [|done].
  apply (IH (length (removelast l))); [|done].
  unfold must_trim in E. apply andb_true_iff in E as [_ E].
  apply Nat.ltb_lt in E. unfold min_tags in E.
  rewrite removelast_take, length_take. lia.
Qed.

(** The loop never goes below the minimum count. *)
Lemma trim_tags_min (l : list string) :
  (min_tags ≤ length l → min_tags ≤ length (trim_tags l))%nat.
Proof.
  remember (length l) as n eqn:Hn. revert l Hn.
  induction n as [n IH] using lt_wf_ind. intros l -> Hl.
  rewrite trim_tags_step. destruct (must_trim l) eqn:E; [|done].
  unfold must_trim in E. apply andb_true_iff in E as [_ E].
  apply Nat.ltb_lt in E.
  apply (IH (length (removelast l))); [|done|];
    rewrite removelast_take, length_take; unfold min_tags in *; lia.
Qed.

Lemma add_ingredient_tags_length (ings tgs : list string) :
  (length tgs ≤ length (add_ingredient_tags ings tgs))%nat.
Proof.
  revert tgs. induction ings as [|i ings IH]; intros tgs; simpl; [done|].
  destruct (main_ingredient i) as [m|]; [|apply IH].
  destruct (_ && _); [|apply IH].
  etrans; [|apply IH]. rewrite length_app. simpl. lia.
Qed.

(** The uploader's list starts from nine fixed tags. *)
Lemma initial_tags_length (r : Recipe) : (9 ≤ length (initial_tags r))%nat.
Proof. unfold initial_tags. etrans; [|apply add_ingredient_tags_length]. done. Qed.

(** C4 (counterexample). A dish name of 500 characters: the list exceeds
    the ceiling, the loop stops at five tags and the result is still longer
    than the ceiling. And a list of one tag of 500 characters, which the
    uploader never builds, is over the ceiling and keeps its one tag. *)
Lemma trim_tags_over_ceiling :
  let long := string_of_list_ascii (repeat "a"%char 500) in
  let r := {| id := IdInt 7; dish_name := long;
              public_url := ""; ingredients := []; instructions := [];
              prep_time := ""; cook_time := ""; yield := "";
              dish_type := "main"; taste_category := "sweet" |} in
  (tags_ceiling < total_tags_length (initial_tags r))%nat ∧
  length (trim_tags (initial_tags r)) = min_tags ∧
  ¬ (total_tags_length (trim_tags (initial_tags r)) ≤ tags_ceiling)%nat ∧
  (tags_ceiling < total_tags_length [long])%nat ∧
  trim_tags [long] = [long].
Proof. vm_compute. repeat split; lia. Qed.

(** C4 (amended). For a tag list over the ceiling that holds at least the
    minimum count, the loop removes tags from the tail only, keeps at least
    five tags, and stops either at or under the ceiling or at exactly five
    tags. *)
Theorem trim_tags_spec (l : list string) :
  (tags_ceiling < total_tags_length l)%nat →
  (min_tags ≤ length l)%nat →
  (∃ k, (k ≤ length l)%nat ∧ trim_tags l = take k l) ∧
  (min_tags ≤ length (trim_tags l))%nat ∧
  ((total_tags_length (trim_tags l) ≤ tags_ceiling)%nat ∨
   length (trim_tags l) = min_tags).
Proof.
  intros _ Hmin. split; [apply trim_tags_take|].
  pose proof (trim_tags_min l Hmin) as Hlen. split; [done|].
  pose proof (trim_tags_guard l) as Hg. unfold must_trim in Hg.
  apply andb_false_iff in Hg as [Hg|Hg]; apply Nat.ltb_ge in Hg; [by left|right; lia].
Qed.

Lemma trim_tags_spec_witness :
  let l := [string_of_list_ascii (repeat "a"%char 480);
            "b"; "c"; "d"; "e"; "recipe"; "cooking"] in
  (∃ k, (k ≤ length l)%nat ∧ trim_tags l = take k l) ∧
  (min_tags ≤ length (trim_tags l))%nat ∧
  ((total_tags_length (trim_tags l) ≤ tags_ceiling)%nat ∨
   length (trim_tags l) = min_tags).
Proof. intros l. apply (trim_tags_spec l); vm_compute; lia. Defined.

(** ** Download stage *)

(** The short cut of lines 219-225. *)
Lemma download_video_short_cut max_retries drive now recipe st size :
  fs st !! original_path (str_id (id recipe)) = Some size →
  (MiB < size)%N →
  ∃ st',
    download_video max_retries drive now recipe st
      = (Ok (original_path (str_id (id recipe))), st') ∧
    trace st' = trace st ++ [EvSaveResume (resume_data st')] ∧
    fs st' = fs st ∧
    used_recipes st' = used_recipes st.
Proof.
  intros Hfs Hsize. unfold download_video. cbn -[N.ltb]. rewrite Hfs.
  apply N.ltb_lt in Hsize. rewrite Hsize. eexists. split; [reflexivity|]. done.
Qed.

(** C5. When the original artifact of the item exists and is larger than
    1 MiB, [download_video] returns its path, whatever the remote store
    would answer, and the only event of the call is the write of the resume
    record: no request, no chunk. Hence a second call, made after a first
    one that left such an artifact, fetches nothing and returns the same
    path. *)
Theorem download_video_idempotent max_retries now recipe st :
  (∀ drive size,
     fs st !! original_path (str_id (id recipe)) = Some size →
     (MiB < size)%N →
     ∃ st' evs,
       download_video max_retries drive now recipe st
         = (Ok (original_path (str_id (id recipe))), st') ∧
       trace st' = trace st ++ evs ∧ existsb is_fetch evs = false) ∧
  (∀ drive1 p st1 size drive2 now2,
     download_video max_retries drive1 now recipe st = (Ok p, st1) →
     fs st1 !! p = Some size →
     (MiB < size)%N →
     ∃ st2 evs,
       download_video max_retries drive2 now2 recipe st1 = (Ok p, st2) ∧
       trace st2 = trace st1 ++ evs ∧ existsb is_fetch evs = false ∧
       fs st2 = fs st1).
Proof.
  split.
  - intros drive size Hfs Hsize.
    destruct (download_video_short_cut max_retries drive now recipe st size Hfs Hsize)
      as (st' & Heq & Htr & _).
    exists st', [EvSaveResume (resume_data st')]. done.
  - intros drive1 p st1 size drive2 now2 Hfirst Hfs Hsize.
    assert (p = original_path (str_id (id recipe))) as ->.
    { revert Hfirst. unfold download_video. cbn -[N.ltb].
      set (st0 := save_resume_data _).
      assert (∀ fid r s, download_attempts max_retries drive1 fid
                (original_path (str_id (id recipe))) r s = (Ok p, st1) →
              p = original_path (str_id (id recipe))) as Hatt.
      { clear. induction drive1 as [|a drive1 IH]; intros fid r s; simpl.
        - destruct (r <? max_retries); discriminate.
        - destruct (r <? max_retries); [|discriminate].
          destruct (da_request a) as [[]|[]].
          + destruct (download_chunks _ _ _ _) as [[size|[]|] s'];
              try (destruct (r + 1 <? max_retries); [apply IH|discriminate]);
              [|discriminate].
            intros [= <- _]. done.
          + destruct (r + 1 <? max_retries); [apply IH|discriminate].
          + simpl. destruct (r + 1 <? max_retries); [apply IH|discriminate].
          + simpl. destruct (r + 1 <? max_retries); [apply IH|discriminate]. }
      assert (match extract_file_id (public_url recipe) with
              | Some file_id =>
                  if String.eqb file_id "" then (Raise ValueError, st0)
                  else download_attempts max_retries drive1 file_id
                         (original_path (str_id (id recipe))) 0 st0
              | None => (Raise ValueError, st0)
              end = (Ok p, st1) → p = original_path (str_id (id recipe))) as Hfetch.
      { destruct (extract_file_id _) as [fid|]; [|discriminate].
        destruct (String.eqb fid ""); [discriminate|]. apply Hatt. }
      destruct (fs st !! _) as [sz|]; [|apply Hfetch].
      destruct (_ <? _)%N; [|apply Hfetch]. by intros [= <- _]. }
    destruct (download_video_short_cut max_retries drive2 now2 recipe st1 size Hfs Hsize)
      as (st2 & Heq & Htr & Hfs2 & _).
    exists st2, [EvSaveResume (resume_data st2)]. done.
Qed.

(** ** Orchestrator: an identifier that is already in the ledger *)

Lemma get_recipe_by_id_str rid st r :
  get_recipe_by_id rid st = Some r → str_id (id r) = rid.
Proof.
  unfold get_recipe_by_id. intros H. apply find_some in H as [_ H].
  by apply String.eqb_eq in H.
Qed.

(** C10. For a requested identifier (a non-empty string, the form that
    line 594 takes as a request) that is in the ledger,
    [process_single_recipe] returns [None]; the ledger, the resume mapping,
    the files and their persisted copies are as before, and the trace has
    no new event: nothing was downloaded, compressed or uploaded. *)
Theorem process_single_recipe_already_uploaded env rid st :
  rid ≠ "" →
  rid ∈ used_recipes st →
  ∃ st',
    process_single_recipe env (Some rid) st = (Ok None, st') ∧
    used_recipes st' = used_recipes st ∧
    resume_data st' = resume_data st ∧
    fs st' = fs st ∧
    used_recipes_file st' = used_recipes_file st ∧
    resume_data_file st' = resume_data_file st ∧
    trace st' = trace st.
Proof.
  intros Hne Hin.
  assert (∀ s, used_recipes s = used_recipes st →
               select_recipe env (Some rid) s = Ok None) as Hsel.
  { intros s Hs. unfold select_recipe.
    destruct (String.eqb_spec rid ""); [done|].
    destruct (get_recipe_by_id rid s) as [r|] eqn:Hr; [|done].
    apply get_recipe_by_id_str in Hr. rewrite Hr, Hs.
    by rewrite bool_decide_eq_true_2. }
  unfold process_single_recipe, ensure_recipes.
  destruct (recipes st) eqn:Hrec.
  - unfold load_recipes. destruct (catalog_file st) as [l|] eqn:Hcat.
    + rewrite Hsel by done. by eexists.
    + by eexists.
  - rewrite Hsel by done. by eexists.
Qed.

(** ** What each stage leaves alone *)

Lemma ledger_untouched_refl a : ledger_untouched a a.
Proof. repeat split. exists []. by rewrite app_nil_r. Qed.

Lemma ledger_untouched_trans a b c :
  ledger_untouched a b → ledger_untouched b c → ledger_untouched a c.
Proof.
  intros (H1 & H2 & e1 & H3 & H4) (H5 & H6 & e2 & H7 & H8).
  split; [congruence|]. split; [congruence|].
  exists (e1 ++ e2). rewrite H7, H3, app_assoc. split; [done|].
  by apply Forall_app.
Qed.

Lemma ledger_untouched_emit e a :
  is_ledger_write e = false → ledger_untouched a (emit e a).
Proof. intros He. repeat split. exists [e]. split; [done|]. by constructor. Qed.

Lemma ledger_untouched_set_fs x a : ledger_untouched a (set_fs x a).
Proof. repeat split. exists []. by rewrite app_nil_r. Qed.

Lemma ledger_untouched_set_resume_data x a : ledger_untouched a (set_resume_data x a).
Proof. repeat split. exists []. by rewrite app_nil_r. Qed.

Lemma ledger_untouched_set_recipes x a : ledger_untouched a (set_recipes x a).
Proof. repeat split. exists []. by rewrite app_nil_r. Qed.

Lemma ledger_untouched_save_resume_data a : ledger_untouched a (save_resume_data a).
Proof. repeat split. exists [EvSaveResume (resume_data a)]. split; [done|]. by constructor. Qed.

(** Chains the steps of a stage. *)
Ltac ledger_steps :=
  repeat match goal with
  | |- ledger_untouched ?a ?a => apply ledger_untouched_refl
  | |- ledger_untouched _ (emit _ _) =>
      eapply ledger_untouched_trans; [|apply ledger_untouched_emit; reflexivity]
  | |- ledger_untouched _ (set_fs _ _) =>
      eapply ledger_untouched_trans; [|apply ledger_untouched_set_fs]
  | |- ledger_untouched _ (set_resume_data _ _) =>
      eapply ledger_untouched_trans; [|apply ledger_untouched_set_resume_data]
  | |- ledger_untouched _ (save_resume_data _) =>
      eapply ledger_untouched_trans; [|apply ledger_untouched_save_resume_data]
  end.

Lemma download_chunks_ledger rc chunks buf st r st' :
  download_chunks rc chunks buf st = (r, st') → ledger_untouched st st'.
Proof.
  revert buf st. induction chunks as [|c chunks IH]; intros buf st; simpl.
  - intros [= _ <-]. ledger_steps.
  - destruct c as [[n []]|[]]; try (intros [= _ <-]; ledger_steps); intros H;
      apply IH in H; (eapply ledger_untouched_trans; [|exact H]); ledger_steps.
Qed.

Lemma download_attempts_ledger max_retries drive fid path rc st r st' :
  download_attempts max_retries drive fid path rc st = (r, st') →
  ledger_untouched st st'.
Proof.
  revert rc st. induction drive as [|a drive IH]; intros rc st; simpl.
  - destruct (rc <? max_retries); intros [= _ <-]; ledger_steps.
  - destruct (rc <? max_retries); [|intros [= _ <-]; ledger_steps].
    destruct (da_request a) as [[]|f].
    + destruct (download_chunks _ _ _ _) as [res s] eqn:Hch.
      apply download_chunks_ledger in Hch.
      assert (ledger_untouched st s) as Hs.
      { eapply ledger_untouched_trans; [|exact Hch]. ledger_steps. }
      destruct res as [size|e|].
      * intros [= _ <-]. eapply ledger_untouched_trans; [exact Hs|]. ledger_steps.
      * destruct e; destruct (rc + 1 <? max_retries) eqn:E;
          try (intros [= _ <-]; exact Hs);
          intros H; apply IH in H; (eapply ledger_untouched_trans; [|exact H]);
          (eapply ledger_untouched_trans; [exact Hs|]); ledger_steps.
      * by intros [= _ <-].
    + destruct f; simpl; destruct (rc + 1 <? max_retries) eqn:E;
        try (intros [= _ <-]; ledger_steps);
        intros H; apply IH in H; (eapply ledger_untouched_trans; [|exact H]);
        ledger_steps.
Qed.

Lemma download_video_ledger max_retries drive now recipe st r st' :
  download_video max_retries drive now recipe st = (r, st') →
  ledger_untouched st st'.
Proof.
  unfold download_video.
  set (st0 := save_resume_data _).
  assert (ledger_untouched st st0) as H0 by (subst st0; ledger_steps).
  assert (match extract_file_id (public_url recipe) with
          | Some file_id =>
              if String.eqb file_id "" then (Raise ValueError, st0)
              else download_attempts max_retries drive file_id
                     (original_path (str_id (id recipe))) 0 st0
          | None => (Raise ValueError, st0)
          end = (r, st') → ledger_untouched st st') as Hfetch.
  { destruct (extract_file_id _) as [fid|]; [|by intros [= _ <-]].
    destruct (String.eqb fid ""); [by intros [= _ <-]|].
    intros H. apply download_attempts_ledger in H.
    by eapply ledger_untouched_trans. }
  destruct (fs st0 !! _) as [sz|]; [|exact Hfetch].
  destruct (_ <? _)%N; [by intros [= _ <-]|exact Hfetch].
Qed.

Lemma run_compression_ledger ff input output st r st' :
  run_compression ff input output st = (r, st') → ledger_untouched st st'.
Proof.
  unfold run_compression.
  destruct (ff_version ff); try (intros [= _ <-]; ledger_steps).
  cbv zeta.
  destruct (fs _ !! input) as [n|]; [|intros [= _ <-]; ledger_steps].
  destruct (Qlt_bool _ _); [intros [= _ <-]; ledger_steps|].
  destruct (_ =? 0); [intros [= _ <-]; ledger_steps|].
  set (st1 := emit (EvFfmpegEncode _ _ _ _ _) _).
  assert (ledger_untouched st st1) as H1 by (subst st1; ledger_steps).
  set (st2 := match ff_output ff with Some _ => _ | None => _ end).
  assert (ledger_untouched st st2) as H2.
  { subst st2. destruct (ff_output ff); [|done].
    eapply ledger_untouched_trans; [exact H1|]. ledger_steps. }
  destruct (negb _); [by intros [= _ <-]|].
  destruct (fs st2 !! output); [|by intros [= _ <-]].
  destruct (barely_smaller _ _); by intros [= _ <-].
Qed.

Lemma compress_video_ledger ff input rid st r st' :
  compress_video ff input rid st = (r, st') → ledger_untouched st st'.
Proof.
  unfold compress_video.
  destruct (dict_get rid (resume_data st)) as [rec|]; [|intros [= _ <-]; ledger_steps].
  set (st0 := compress_entry rid rec st).
  assert (ledger_untouched st st0) as H0
    by (subst st0; unfold compress_entry; ledger_steps).
  assert (run_compression ff input (compressed_path rid) st0 = (r, st') →
          ledger_untouched st st') as Hrun.
  { intros H. apply run_compression_ledger in H. by eapply ledger_untouched_trans. }
  destruct (fs st0 !! _); [|exact Hrun].
  destruct (_ <? _)%N; [by intros [= _ <-]|exact Hrun].
Qed.

(** ** The upload loop *)

Lemma same_store_refl a : same_store a a.
Proof. by repeat split. Qed.

Lemma same_store_trans a b c : same_store a b → same_store b c → same_store a c.
Proof.
  intros (?&?&?&?&?&?&?) (?&?&?&?&?&?&?). repeat split; congruence.
Qed.

Lemma same_store_emit e a : same_store a (emit e a).
Proof. by repeat split. Qed.

Lemma retry_handler_state c e max_retries l st :
  pass_state (retry_handler c e max_retries l st)
  = emit (EvSleep c (upload_delay (retry_count l + 1))) st.
Proof. unfold retry_handler. simpl. by destruct (_ <=? _). Qed.

Lemma retry_handler_loop c e max_retries l st :
  pass_loop (retry_handler c e max_retries l st)
  = {| response := response l; retry_count := retry_count l + 1;
       last_progress := last_progress l; stalled_count := stalled_count l |}.
Proof. unfold retry_handler. simpl. by destruct (_ <=? _). Qed.

(** One pass adds the call and at most one sleep to the trace, and touches
    nothing else. *)
Lemma upload_pass_trace max_retries r l st :
  let p := upload_pass max_retries r l st in
  same_store st (pass_state p) ∧
  (trace (pass_state p) = trace st ++ [EvYoutubeChunk] ∧
   retry_count (pass_loop p) = retry_count l
   ∨
   ∃ c, is_upload_class c = true ∧
        trace (pass_state p)
        = trace st ++ [EvYoutubeChunk; EvSleep c (upload_delay (retry_count l + 1))] ∧
        retry_count (pass_loop p) = retry_count l + 1).
Proof.
  assert (∀ c e l0 s, is_upload_class c = true →
            retry_count l0 = retry_count l →
            s = emit EvYoutubeChunk st →
            let p := retry_handler c e max_retries l0 s in
            same_store st (pass_state p) ∧
            (trace (pass_state p) = trace st ++ [EvYoutubeChunk] ∧
             retry_count (pass_loop p) = retry_count l
             ∨
             ∃ c, is_upload_class c = true ∧
                  trace (pass_state p)
                  = trace st ++ [EvYoutubeChunk; EvSleep c (upload_delay (retry_count l + 1))] ∧
                  retry_count (pass_loop p) = retry_count l + 1)) as Hretry.
  { intros c e l0 s Hc Hl0 -> p. subst p.
    rewrite retry_handler_state, retry_handler_loop, Hl0. split; [by repeat split|].
    right. exists c. split; [done|]. simpl. by rewrite <- app_assoc. }
  unfold upload_pass. destruct r as [[[pct|] resp]|[]].
  - cbn [response retry_count last_progress stalled_count].
    destruct (pct =? last_progress l).
    + destruct (stall_limit <? _); [by apply Hretry|].
      split; [by repeat split|by left].
    + split; [by repeat split|by left].
  - split; [by repeat split|by left].
  - by apply Hretry.
  - destruct (is_server_error code); [by apply Hretry|].
    split; [by repeat split|by left].
  - by apply Hretry.
Qed.

Lemma upload_loop_store max_retries youtube l st r l' st' :
  upload_loop max_retries youtube l st = (r, l', st') →
  same_store st st' ∧ ledger_untouched st st'.
Proof.
  revert l st. induction youtube as [|y youtube IH]; intros l st; simpl.
  - destruct (loop_guard _ _); intros [= _ _ <-];
      (split; [apply same_store_refl|apply ledger_untouched_refl]).
  - destruct (loop_guard _ _);
      [|intros [= _ _ <-]; (split; [apply same_store_refl|apply ledger_untouched_refl])].
    pose proof (upload_pass_trace max_retries y l st) as [Hs Ht].
    assert (ledger_untouched st (pass_state (upload_pass max_retries y l st))) as Hl.
    { destruct Hs as (?&?&?&?&?&?&?). split; [done|]. split; [done|].
      destruct Ht as [[Ht _]|[c [_ [Ht _]]]]; eexists; (split; [exact Ht|]);
        repeat constructor. }
    destruct (upload_pass max_retries y l st) as [l1 st1|e l1 st1]; simpl in *.
    + intros H. apply IH in H as [H1 H2].
      split; [by eapply same_store_trans|by eapply ledger_untouched_trans].
    + by intros [= _ _ <-].
Qed.

(** A script that ends while the loop still asks can be continued. *)
Lemma upload_loop_app max_retries pre more l st l' st' :
  upload_loop max_retries pre l st = (Pending, l', st') →
  upload_loop max_retries (pre ++ more) l st = upload_loop max_retries more l' st'.
Proof.
  revert l st. induction pre as [|y pre IH]; intros l st; simpl.
  - destruct (loop_guard max_retries l) eqn:G; [|discriminate].
    intros [= <- <-]. destruct more; simpl; by rewrite G.
  - destruct (loop_guard max_retries l); [|discriminate].
    destruct (upload_pass max_retries y l st); [apply IH|discriminate].
Qed.

Lemma upload_loop_pending_guard max_retries pre l st l' st' :
  upload_loop max_retries pre l st = (Pending, l', st') →
  loop_guard max_retries l' = true.
Proof.
  revert l st. induction pre as [|y pre IH]; intros l st; simpl.
  - destruct (loop_guard max_retries l) eqn:G; [|discriminate]. by intros [= <- _].
  - destruct (loop_guard max_retries l); [|discriminate].
    destruct (upload_pass max_retries y l st); [apply IH|discriminate].
Qed.

(** A response the loop ends with was returned by the service. *)
Lemma upload_loop_response max_retries youtube l st r l' st' resp :
  upload_loop max_retries youtube l st = (r, l', st') →
  response l = None →
  response l' = Some resp →
  ∃ progress, In (Returned (progress, Some resp)) youtube.
Proof.
  revert l st. induction youtube as [|y youtube IH]; intros l st; simpl.
  - destruct (loop_guard _ _); intros [= _ <- _]; congruence.
  - destruct (loop_guard _ _); [|intros [= _ <- _]; congruence].
    intros H Hnone Hsome.
    assert (response (pass_loop (upload_pass max_retries y l st)) = None ∨
            ∃ progress, y = Returned (progress, Some resp) ∨
              response (pass_loop (upload_pass max_retries y l st)) ≠ Some resp)
      as Hpass.
    { unfold upload_pass. destruct y as [[progress [resp'|]]|[]].
      - right. exists progress.
        destruct (decide (resp' = resp)) as [->|Hne]; [by left|right].
        destruct progress as [pct|]; simpl; [|congruence].
        destruct (pct =? _); simpl; [|congruence].
        destruct (stall_limit <? _); simpl; [|congruence].
        rewrite retry_handler_loop. simpl. congruence.
      - left. destruct progress as [pct|]; simpl; [|done].
        destruct (pct =? _); simpl; [|done].
        destruct (stall_limit <? _); simpl; [|done].
        by rewrite retry_handler_loop.
      - left. by rewrite retry_handler_loop.
      - left. destruct (is_server_error code); [by rewrite retry_handler_loop|done].
      - left. by rewrite retry_handler_loop. }
    destruct (upload_pass max_retries y l st) as [l1 st1|e l1 st1] eqn:Hp; simpl in Hpass.
    + destruct Hpass as [Hn|[progress [->|Hne]]].
      * destruct (IH _ _ H Hn Hsome) as [pr Hin]. exists pr. by right.
      * exists progress. by left.
      * destruct (response l1) as [resp1|] eqn:Hr1.
        -- assert (loop_guard max_retries l1 = false) as G
             by (unfold loop_guard; by rewrite Hr1).
           destruct youtube; simpl in H; rewrite G in H;
             injection H as _ <- _; congruence.
        -- destruct (IH _ _ H Hr1 Hsome) as [pr Hin]. exists pr. by right.
    + injection H as _ <- _.
      destruct Hpass as [Hn|[progress [->|Hne]]]; [congruence| |congruence].
      exists progress. by left.
Qed.

(** ** Ledger commit *)

Lemma finish_upload_ok rid l st url st' :
  finish_upload rid l st = (Ok url, st') →
  is_Some (dict_get rid (resume_data st)) →
  ∃ resp vid,
    response l = Some resp ∧ resp !! "id" = Some vid ∧
    url = "https://www.youtube.com/watch?v=" +:+ vid ∧
    used_recipes st' = {[rid]} ∪ used_recipes st ∧
    used_recipes_file st' = Some (used_recipes st') ∧
    resume_data st' = dict_del rid (resume_data st) ∧
    resume_data_file st' = Some (resume_data st') ∧
    fs st' = fs st ∧
    trace st' = trace st ++ [EvSaveUsed (used_recipes st'); EvSaveResume (resume_data st')].
Proof.
  unfold finish_upload. intros H [rec Hrec].
  destruct (response l) as [resp|]; [|discriminate].
  destruct (bool_decide _); [discriminate|].
  destruct (resp !! "id") as [vid|] eqn:Hid; [|discriminate].
  cbn [resume_data emit set_used_recipes_file set_used_recipes] in H.
  rewrite Hrec in H. injection H as <- <-.
  exists resp, vid. cbn. rewrite <- app_assoc. done.
Qed.

Lemma finish_upload_not_ok rid l st r st' :
  finish_upload rid l st = (r, st') →
  (∀ url, r ≠ Ok url) → st' = st.
Proof.
  unfold finish_upload. intros H Hr.
  destruct (response l) as [resp|]; [|by injection H as _ <-].
  destruct (bool_decide _); [by injection H as _ <-|].
  destruct (resp !! "id") as [vid|] eqn:Hid; [|by injection H as _ <-].
  injection H as <- _. by destruct (Hr _ eq_refl).
Qed.

Lemma upload_entry_ledger video_path recipe rec st :
  ledger_untouched st (upload_entry video_path recipe rec st).
Proof. unfold upload_entry. ledger_steps. Qed.

(** The uploader alone: the ledger is written once, after a response that
    carries an identifier, and only then. *)
Lemma upload_to_youtube_commit max_retries youtube today video_path recipe st :
  match upload_to_youtube max_retries youtube today video_path recipe st with
  | (Ok url, st') =>
      ∃ progress resp vid evs,
        In (Returned (progress, Some resp)) youtube ∧
        resp !! "id" = Some vid ∧
        url = "https://www.youtube.com/watch?v=" +:+ vid ∧
        used_recipes st' = {[str_id (id recipe)]} ∪ used_recipes st ∧
        used_recipes_file st' = Some (used_recipes st') ∧
        dict_get (str_id (id recipe)) (resume_data st') = None ∧
        resume_data_file st' = Some (resume_data st') ∧
        fs st' = fs st ∧
        trace st' = trace st ++ evs
                      ++ [EvSaveUsed (used_recipes st'); EvSaveResume (resume_data st')] ∧
        Forall (fun e => is_ledger_write e = false) evs
  | (_, st') => ledger_untouched st st'
  end.
Proof.
  unfold upload_to_youtube.
  destruct (dict_get _ (resume_data st)) as [rec|] eqn:Hrec;
    [|apply ledger_untouched_refl].
  pose proof (upload_entry_ledger video_path recipe rec st) as H0.
  set (st0 := upload_entry video_path recipe rec st) in *.
  destruct (fs st0 !! video_path) as [sz|]; [|exact H0].
  destruct (upload_loop _ _ _ _) as [[r1 l1] st1] eqn:Hloop.
  pose proof (upload_loop_store _ _ _ _ _ _ _ Hloop) as [Hs Hl].
  assert (ledger_untouched st st1) as H1.
  { eapply ledger_untouched_trans; [exact H0|].
    eapply ledger_untouched_trans; [|exact Hl]. by apply ledger_untouched_emit. }
  destruct r1 as [[]|e|]; [|exact H1..].
  destruct (finish_upload _ l1 st1) as [r st'] eqn:Hfin.
  assert (resume_data st1 = resume_data st0) as Hres by apply Hs.
  assert (dict_get (str_id (id recipe)) (resume_data st1) = Some (set_uploading video_path rec))
    as Hget.
  { rewrite Hres. subst st0. unfold upload_entry. cbn. apply dict_get_set_eq. }
  destruct r as [url|e|].
  - apply finish_upload_ok in Hfin as (resp & vid & Hresp & Hid & -> & Hu & Huf & Hrd & Hrf & Hfs & Htr);
      [|by rewrite Hget].
    destruct (upload_loop_response _ _ _ _ _ _ _ resp Hloop eq_refl Hresp) as [progress Hin].
    destruct H1 as (Hu1 & _ & evs & Hevs & Hall).
    exists progress, resp, vid, evs. repeat split; try done.
    + by rewrite Hu, Hu1.
    + rewrite Hrd. apply dict_get_del_eq.
    + rewrite Hfs. destruct Hs as (_&_&_&->&_). by subst st0.
    + by rewrite Htr, Hevs, <- app_assoc.
  - apply finish_upload_not_ok in Hfin as ->; [done|congruence].
  - apply finish_upload_not_ok in Hfin as ->; [done|congruence].
Qed.

Lemma remove_if_exists_frame path st :
  used_recipes (remove_if_exists path st) = used_recipes st ∧
  used_recipes_file (remove_if_exists path st) = used_recipes_file st ∧
  resume_data (remove_if_exists path st) = resume_data st ∧
  resume_data_file (remove_if_exists path st) = resume_data_file st ∧
  ∃ evs, trace (remove_if_exists path st) = trace st ++ evs ∧
         Forall (fun e => is_remove e = true) evs.
Proof.
  unfold remove_if_exists. destruct (fs st !! path).
  - repeat split. exists [EvRemove path]. split; [done|]. by repeat constructor.
  - repeat split. exists []. by rewrite app_nil_r.
Qed.

Lemma cleanup_frame rid st :
  used_recipes (cleanup rid st) = used_recipes st ∧
  used_recipes_file (cleanup rid st) = used_recipes_file st ∧
  resume_data (cleanup rid st) = resume_data st ∧
  resume_data_file (cleanup rid st) = resume_data_file st ∧
  ∃ evs, trace (cleanup rid st) = trace st ++ evs ∧
         Forall (fun e => is_remove e = true) evs.
Proof.
  unfold cleanup.
  destruct (remove_if_exists_frame (original_path rid) st)
    as (H1 & H2 & H3 & H4 & e1 & H5 & H6).
  destruct (remove_if_exists_frame (compressed_path rid)
              (remove_if_exists (original_path rid) st))
    as (K1 & K2 & K3 & K4 & e2 & K5 & K6).
  repeat split; try congruence.
  exists (e1 ++ e2). rewrite K5, H5, <- app_assoc. split; [done|].
  by apply Forall_app.
Qed.

Lemma is_remove_not_ledger evs :
  Forall (fun e => is_remove e = true) evs →
  Forall (fun e => is_ledger_write e = false) evs.
Proof. intros H. eapply Forall_impl; [exact H|]. by intros []. Qed.

Lemma ensure_recipes_frame st r st1 :
  ensure_recipes st = (r, st1) →
  used_recipes st1 = used_recipes st ∧ used_recipes_file st1 = used_recipes_file st ∧
  resume_data st1 = resume_data st ∧ resume_data_file st1 = resume_data_file st ∧
  fs st1 = fs st ∧ trace st1 = trace st.
Proof.
  unfold ensure_recipes, load_recipes.
  destruct (recipes st); [destruct (catalog_file st)|]; by intros [= _ <-].
Qed.

Lemma stage_artifact_ledger env recipe st r st' :
  stage_artifact env recipe st = (r, st') → ledger_untouched st st'.
Proof.
  unfold stage_artifact. destruct (resume_path _ _).
  - intros [= _ <-]. apply ledger_untouched_refl.
  - destruct (download_video _ _ _ _ _) as [rd sd] eqn:Hd.
    apply download_video_ledger in Hd.
    destruct rd as [p|e|]; try by intros [= _ <-].
    intros Hc. apply compress_video_ledger in Hc.
    by eapply ledger_untouched_trans.
Qed.

Lemma process_recipe_commit env recipe st :
  match process_recipe env recipe st with
  | (Ok (Some url), st') =>
      ∃ progress resp vid before after,
        In (Returned (progress, Some resp)) (env_youtube env) ∧
        resp !! "id" = Some vid ∧
        url = "https://www.youtube.com/watch?v=" +:+ vid ∧
        used_recipes st' = {[str_id (id recipe)]} ∪ used_recipes st ∧
        used_recipes_file st' = Some (used_recipes st') ∧
        dict_get (str_id (id recipe)) (resume_data st') = None ∧
        resume_data_file st' = Some (resume_data st') ∧
        trace st' = trace st ++ before
                      ++ [EvSaveUsed (used_recipes st'); EvSaveResume (resume_data st')]
                      ++ after ∧
        Forall (fun e => is_ledger_write e = false) before ∧
        Forall (fun e => is_remove e = true) after
  | (_, st') => ledger_untouched st st'
  end.
Proof.
  unfold process_recipe.
  destruct (stage_artifact env recipe st) as [rs s1] eqn:Hs.
  apply stage_artifact_ledger in Hs.
  destruct rs as [p|e|]; [|done..].
  pose proof (upload_to_youtube_commit upload_max_retries (env_youtube env)
                (clock_date (env_clock env)) p recipe s1) as Hup.
  destruct (upload_to_youtube _ _ _ _ _ _) as [ru s2].
  destruct ru as [url|e|]; [|by eapply ledger_untouched_trans..].
  destruct Hup as (progress & resp & vid & evs & Hin & Hid & -> & Hu & Huf & Hrd & Hrf & _ & Htr & Hall).
  destruct Hs as (Hu1 & _ & evs1 & Htr1 & Hall1).
  set (s3 := if String.eqb _ "" then s2 else cleanup (str_id (id recipe)) s2).
  assert (used_recipes s3 = used_recipes s2 ∧
          used_recipes_file s3 = used_recipes_file s2 ∧
          resume_data s3 = resume_data s2 ∧
          resume_data_file s3 = resume_data_file s2 ∧
          ∃ after, trace s3 = trace s2 ++ after ∧
                   Forall (fun e => is_remove e = true) after)
    as (C1 & C2 & C3 & C4 & after & C5 & C6).
  { subst s3. destruct (String.eqb _ ""); [|apply cleanup_frame].
    repeat split. exists []. by rewrite app_nil_r. }
  exists progress, resp, vid, (evs1 ++ evs), after.
  rewrite Hu1 in Hu. rewrite C1, C2, C3, C4, C5, Htr, Htr1.
  repeat split; try done.
  - by rewrite <- ?app_assoc.
  - by apply Forall_app.
Qed.

(** The converse for the uploader: once the loop asks for a chunk and the
    service answers with a response that carries an identifier, the upload
    returns the URL and the commit is made. *)
Lemma confirmed_upload_commits max_retries today video_path recipe st rec
    pre resp vid rest l1 s1 :
  dict_get (str_id (id recipe)) (resume_data st) = Some rec →
  is_Some (fs st !! video_path) →
  upload_loop max_retries pre loop_init (upload_start today video_path recipe rec st)
    = (Pending, l1, s1) →
  resp !! "id" = Some vid →
  ∃ st',
    upload_to_youtube max_retries (pre ++ Returned (None, Some resp) :: rest)
      today video_path recipe st
    = (Ok ("https://www.youtube.com/watch?v=" +:+ vid), st') ∧
    used_recipes st' = {[str_id (id recipe)]} ∪ used_recipes st ∧
    used_recipes_file st' = Some (used_recipes st') ∧
    dict_get (str_id (id recipe)) (resume_data st') = None ∧
    resume_data_file st' = Some (resume_data st') ∧
    trace st' = trace s1 ++ [EvYoutubeChunk; EvSaveUsed (used_recipes st');
                             EvSaveResume (resume_data st')].
Proof.
  intros Hrec [sz Hfs] Hpre Hid.
  pose proof (upload_loop_store _ _ _ _ _ _ _ Hpre) as [Hs _].
  destruct Hs as (_ & Hu & Hr & _ & _ & _ & _).
  assert (upload_loop max_retries (pre ++ Returned (None, Some resp) :: rest) loop_init
            (upload_start today video_path recipe rec st)
          = (Ok tt, with_response (Some resp) l1, emit EvYoutubeChunk s1)) as Hloop.
  { rewrite (upload_loop_app _ _ _ _ _ _ _ Hpre). cbn [upload_loop].
    rewrite (upload_loop_pending_guard _ _ _ _ _ _ Hpre).
    unfold upload_pass. fold (with_response (Some resp) l1).
    destruct rest; by cbn. }
  assert (resp ≠ ∅) as Hne.
  { intros ->. unfold Response in *. by rewrite lookup_empty in Hid. }
  assert (dict_get (str_id (id recipe)) (resume_data s1)
          = Some (set_uploading video_path rec)) as Hget.
  { rewrite Hr. apply dict_get_set_eq. }
  eexists. split.
  { unfold upload_to_youtube. rewrite Hrec.
    replace (fs (upload_entry video_path recipe rec st) !! video_path) with (Some sz)
      by (by rewrite <- Hfs).
    fold (upload_start today video_path recipe rec st). rewrite Hloop.
    unfold finish_upload. cbn [response with_response].
    rewrite bool_decide_eq_false_2 by done. rewrite Hid.
    cbn [resume_data emit set_used_recipes_file set_used_recipes]. rewrite Hget.
    reflexivity. }
  cbn. rewrite Hu. repeat split.
  - apply dict_get_del_eq.
  - by rewrite <- !app_assoc.
Qed.

(** C1. In every run of [process_single_recipe] that returns a URL, the
    service returned a response carrying an identifier; the ledger is the
    old ledger plus the identifier of the processed item, its file holds
    exactly that, the resume mapping has no record of the item and its file
    holds that mapping; the ledger is written once, all events before that
    write leave it alone, the write of the resume mapping follows at once
    and only removals of local files come after. In every other run the
    ledger and its file are unchanged. Conversely, when the uploader asks
    for a chunk and the answer is a response with an identifier, the upload
    returns, the ledger and its file hold the identifier and the resume
    mapping and its file do not. *)
Theorem ledger_commit env recipe_id st :
  match process_single_recipe env recipe_id st with
  | (Ok (Some url), st') =>
      ∃ st1 recipe progress resp vid before after,
        ensure_recipes st = (Ok tt, st1) ∧
        select_recipe env recipe_id st1 = Ok (Some recipe) ∧
        In (Returned (progress, Some resp)) (env_youtube env) ∧
        resp !! "id" = Some vid ∧
        url = "https://www.youtube.com/watch?v=" +:+ vid ∧
        used_recipes st' = {[str_id (id recipe)]} ∪ used_recipes st ∧
        used_recipes_file st' = Some (used_recipes st') ∧
        dict_get (str_id (id recipe)) (resume_data st') = None ∧
        resume_data_file st' = Some (resume_data st') ∧
        trace st' = trace st ++ before
                      ++ [EvSaveUsed (used_recipes st'); EvSaveResume (resume_data st')]
                      ++ after ∧
        Forall (fun e => is_ledger_write e = false) before ∧
        Forall (fun e => is_remove e = true) after
  | (_, st') => ledger_untouched st st'
  end ∧
  ∀ max_retries today video_path recipe rec pre resp vid rest l1 s1,
    dict_get (str_id (id recipe)) (resume_data st) = Some rec →
    is_Some (fs st !! video_path) →
    upload_loop max_retries pre loop_init (upload_start today video_path recipe rec st)
      = (Pending, l1, s1) →
    resp !! "id" = Some vid →
    ∃ st',
      upload_to_youtube max_retries (pre ++ Returned (None, Some resp) :: rest)
        today video_path recipe st
      = (Ok ("https://www.youtube.com/watch?v=" +:+ vid), st') ∧
      used_recipes st' = {[str_id (id recipe)]} ∪ used_recipes st ∧
      used_recipes_file st' = Some (used_recipes st') ∧
      dict_get (str_id (id recipe)) (resume_data st') = None ∧
      resume_data_file st' = Some (resume_data st') ∧
      trace st' = trace s1 ++ [EvYoutubeChunk; EvSaveUsed (used_recipes st');
                               EvSaveResume (resume_data st')].
Proof.
  split; [|intros; by eapply confirmed_upload_commits].
  unfold process_single_recipe.
  destruct (ensure_recipes st) as [r0 st1] eqn:Hens.
  pose proof (ensure_recipes_frame _ _ _ Hens) as (E1 & E2 & E3 & E4 & E5 & E6).
  assert (ledger_untouched st st1) as H1.
  { repeat split; [done..|]. exists []. by rewrite app_nil_r. }
  destruct r0 as [[]|e|]; [|done..].
  destruct (select_recipe env recipe_id st1) as [[recipe|]|e|] eqn:Hsel; [|done..].
  pose proof (process_recipe_commit env recipe st1) as Hp.
  destruct (process_recipe env recipe st1) as [[[url|]|e|] st'];
    [|by eapply ledger_untouched_trans..].
  destruct Hp as (progress & resp & vid & before & after & Hp).
  exists st1, recipe, progress, resp, vid, before, after.
  rewrite <- E1, <- E6. by repeat split; try apply Hp.
Qed.

(** ** Client errors *)

(** C2. Let the loop of the uploader, after the replies [pre], ask for the
    next chunk, and let the service answer with an HTTP error whose status
    is none of 500, 502, 503, 504. Then the loop ends at once with that
    error: its counters are those it had before the call and the call is
    the last event of the trace, so nothing was counted and nothing slept;
    [upload_to_youtube] raises the error; the ledger and its file are
    unchanged; and the resume record of the item is there with stage
    "uploading" and the path of the artifact. *)
Theorem client_error_no_retry max_retries today video_path recipe st rec
    pre code rest l1 s1 :
  dict_get (str_id (id recipe)) (resume_data st) = Some rec →
  is_Some (fs st !! video_path) →
  is_server_error code = false →
  upload_loop max_retries pre loop_init (upload_start today video_path recipe rec st)
    = (Pending, l1, s1) →
  let youtube := pre ++ Failed (FHttp code) :: rest in
  let st' := emit EvYoutubeChunk s1 in
  upload_loop max_retries youtube loop_init (upload_start today video_path recipe rec st)
    = (Raise (HttpError code), l1, st') ∧
  upload_to_youtube max_retries youtube today video_path recipe st
    = (Raise (HttpError code), st') ∧
  trace st' = trace s1 ++ [EvYoutubeChunk] ∧
  used_recipes st' = used_recipes st ∧
  used_recipes_file st' = used_recipes_file st ∧
  dict_get (str_id (id recipe)) (resume_data st')
    = Some {| status := "uploading"; start_time := start_time rec;
              rr_dish_name := rr_dish_name rec; video_path := Some video_path |}.
Proof.
  intros Hrec [sz Hfs] Hcode Hpre youtube st'.
  assert (upload_loop max_retries youtube loop_init
            (upload_start today video_path recipe rec st)
          = (Raise (HttpError code), l1, st')) as Hloop.
  { subst youtube. rewrite (upload_loop_app _ _ _ _ _ _ _ Hpre). simpl.
    rewrite (upload_loop_pending_guard _ _ _ _ _ _ Hpre).
    unfold upload_pass. by rewrite Hcode. }
  pose proof (upload_loop_store _ _ _ _ _ _ _ Hpre) as [Hs _].
  destruct Hs as (_ & Hu & Hr & _ & _ & Huf & _).
  split; [done|]. split.
  { unfold upload_to_youtube. rewrite Hrec.
    replace (fs (upload_entry video_path recipe rec st) !! video_path) with (Some sz)
      by (by rewrite <- Hfs).
    fold (upload_start today video_path recipe rec st). by rewrite Hloop. }
  split; [done|].
  split; [change (used_recipes st') with (used_recipes s1); by rewrite Hu|].
  split; [change (used_recipes_file st') with (used_recipes_file s1); by rewrite Huf|].
  change (resume_data st') with (resume_data s1). rewrite Hr.
  apply dict_get_set_eq.
Qed.

(** ** Stall detection *)

Lemma polled_emit n st : polled n (emit EvYoutubeChunk st) = polled (S n) st.
Proof. unfold polled. by rewrite Nat.iter_swap. Qed.

Lemma polled_trace n st : trace (polled n st) = trace st ++ replicate n EvYoutubeChunk.
Proof.
  induction n as [|n IH]; simpl.
  - by rewrite app_nil_r.
  - rewrite IH, <- app_assoc. f_equal.
    clear. induction n as [|n IH]; [done|]. simpl. by rewrite IH.
Qed.

Lemma with_stalled_id l : with_stalled (stalled_count l) l = l.
Proof. by destruct l. Qed.

(** While the counter stays within the limit the loop only polls. *)
Lemma upload_loop_unchanged max_retries n l more st :
  response l = None →
  retry_count l < max_retries →
  stalled_count l + Z.of_nat n ≤ stall_limit →
  upload_loop max_retries (replicate n (unchanged l) ++ more) l st
  = upload_loop max_retries more
      (with_stalled (stalled_count l + Z.of_nat n) l) (polled n st).
Proof.
  revert l st. induction n as [|n IH]; intros l st Hresp Hrc Hst.
  - simpl. by rewrite Z.add_0_r, with_stalled_id.
  - cbn [replicate app upload_loop]. unfold loop_guard. rewrite Hresp.
    apply Z.ltb_lt in Hrc as Hrc'. rewrite Hrc'.
    unfold unchanged at 1, upload_pass.
    cbn [response retry_count last_progress stalled_count].
    rewrite Z.eqb_refl.
    replace (stall_limit <? stalled_count l + 1) with false
      by (symmetry; apply Z.ltb_ge; lia).
    change (unchanged l) with
      (unchanged {| response := None; retry_count := retry_count l;
                    last_progress := last_progress l;
                    stalled_count := stalled_count l + 1 |}).
    rewrite IH; cbn [response retry_count last_progress stalled_count]; [|done|done|lia].
    rewrite polled_emit. unfold with_stalled.
    cbn [response retry_count last_progress stalled_count].
    rewrite Hresp.
    by replace (stalled_count l + 1 + Z.of_nat n)
      with (stalled_count l + Z.of_nat (S n)) by lia.
Qed.

(** C9 (counterexample). From the start of the loop, five completions in a
    row that report the recorded percentage: the loop still asks for the
    next chunk, no retry is counted and the trace holds five calls and no
    sleep. *)
Lemma five_stalled_chunks_no_retry :
  let st := {| recipes := []; used_recipes := ∅; resume_data := []; fs := ∅;
               catalog_file := None; used_recipes_file := None;
               resume_data_file := None; trace := [] |} in
  ∃ st',
    upload_loop upload_max_retries (replicate 5 (unchanged loop_init)) loop_init st
    = (Pending,
       {| response := None; retry_count := 0; last_progress := 0; stalled_count := 5 |},
       st') ∧
    trace st' = replicate 5 EvYoutubeChunk.
Proof. eexists. split; reflexivity. Qed.

(** C9 (amended). A completion that reports the recorded percentage adds
    one to the stall counter; while the counter is at most five the loop
    goes on polling, and once it exceeds five the pass ends as a timeout
    does, in the timeout handler. A completion that reports another
    percentage records it and sets the counter to zero. Hence, from a
    counter at zero, five such completions in a row leave the loop polling
    with no retry counted, and the sixth counts a retry and sleeps (or
    raises the timeout when the retries are used up). *)
Theorem stall_detection max_retries l st :
  (∀ resp,
     stalled_count l + 1 ≤ stall_limit →
     upload_pass max_retries (Returned (Some (last_progress l), resp)) l st
     = Continue (with_stalled (stalled_count l + 1) (with_response resp l))
         (emit EvYoutubeChunk st)) ∧
  (∀ resp,
     stall_limit < stalled_count l + 1 →
     upload_pass max_retries (Returned (Some (last_progress l), resp)) l st
     = upload_pass max_retries (Failed FTimeout)
         (with_stalled (stalled_count l + 1) (with_response resp l)) st) ∧
  (∀ resp pct,
     pct ≠ last_progress l →
     upload_pass max_retries (Returned (Some pct, resp)) l st
     = Continue {| response := resp; retry_count := retry_count l;
                   last_progress := pct; stalled_count := 0 |}
         (emit EvYoutubeChunk st)) ∧
  (response l = None → retry_count l < max_retries → stalled_count l = 0 →
     upload_loop max_retries (replicate 5 (unchanged l)) l st
     = (Pending, with_stalled 5 l, polled 5 st) ∧
     upload_loop max_retries (replicate 6 (unchanged l)) l st
     = let l6 :=
         {| response := None; retry_count := retry_count l + 1;
            last_progress := last_progress l; stalled_count := 6 |} in
       let st6 :=
         emit (EvSleep UploadTimeoutRetry (upload_delay (retry_count l + 1)))
              (polled 6 st) in
       if max_retries <=? retry_count l + 1
       then (Raise SocketTimeout, l6, st6) else (Pending, l6, st6)).
Proof.
  split; [|split; [|split]].
  - intros resp H. unfold upload_pass.
    cbn [response retry_count last_progress stalled_count].
    rewrite Z.eqb_refl.
    by replace (stall_limit <? stalled_count l + 1) with false
      by (symmetry; apply Z.ltb_ge; lia).
  - intros resp H. unfold upload_pass.
    cbn [response retry_count last_progress stalled_count].
    rewrite Z.eqb_refl. apply Z.ltb_lt in H. by rewrite H.
  - intros resp pct H. unfold upload_pass.
    cbn [response retry_count last_progress stalled_count].
    apply Z.eqb_neq in H. by rewrite H.
  - intros Hresp Hrc Hst. apply Z.ltb_lt in Hrc as Hrc'. split.
    + rewrite <- (app_nil_r (replicate 5 _)).
      rewrite upload_loop_unchanged; [|done|done|unfold stall_limit; lia].
      rewrite Hst. simpl. unfold loop_guard. simpl. by rewrite Hresp, Hrc'.
    + change (replicate 6 (unchanged l))
        with (replicate 5 (unchanged l) ++ [unchanged l]).
      rewrite upload_loop_unchanged; [|done|done|unfold stall_limit; lia].
      rewrite Hst. change (0 + Z.of_nat 5) with 5.
      cbn [upload_loop]. unfold loop_guard, with_stalled.
      cbn [response retry_count last_progress stalled_count]. rewrite Hresp, Hrc'.
      unfold unchanged, upload_pass.
      cbn [response retry_count last_progress stalled_count].
      rewrite Z.eqb_refl. change (stall_limit <? 5 + 1) with true. cbv iota.
      unfold retry_handler. cbn [response retry_count last_progress stalled_count].
      change (emit EvYoutubeChunk (polled 5 st)) with (polled 6 st).
      change (5 + 1) with 6.
      destruct (max_retries <=? retry_count l + 1) eqn:E; [done|].
      cbn [upload_loop]. unfold loop_guard. cbn [response retry_count].
      apply Z.leb_gt in E. apply Z.ltb_lt in E. by rewrite E.
Qed.

(** ** Resuming an upload *)

Lemma ledger_untouched_trace a b :
  ledger_untouched a b → ∃ evs, trace b = trace a ++ evs.
Proof. intros (_ & _ & evs & H & _). by exists evs. Qed.

(** With a resume record and the artifact in place, the first two events of
    the uploader are the write of the resume mapping and the insert request
    for the artifact. *)
Lemma upload_to_youtube_trace max_retries youtube today video_path recipe st rec :
  dict_get (str_id (id recipe)) (resume_data st) = Some rec →
  is_Some (fs st !! video_path) →
  ∃ evs,
    trace (upload_to_youtube max_retries youtube today video_path recipe st).2
    = trace st
        ++ [EvSaveResume (dict_set (str_id (id recipe))
                            (set_uploading video_path rec) (resume_data st));
            EvYoutubeInsert (request_body today recipe) video_path]
        ++ evs.
Proof.
  intros Hrec [sz Hfs]. unfold upload_to_youtube. rewrite Hrec.
  replace (fs (upload_entry video_path recipe rec st) !! video_path) with (Some sz)
    by (by rewrite <- Hfs).
  destruct (upload_loop _ _ _ _) as [[r1 l1] st1] eqn:Hloop.
  apply upload_loop_store in Hloop as [_ Hl].
  apply ledger_untouched_trace in Hl as [evs Hevs].
  assert (trace st1
          = trace st
              ++ [EvSaveResume (dict_set (str_id (id recipe))
                                  (set_uploading video_path rec) (resume_data st));
                  EvYoutubeInsert (request_body today recipe) video_path]
              ++ evs) as Ht.
  { rewrite Hevs. cbn. by rewrite <- !app_assoc. }
  clear Hevs. rename Ht into Hevs.
  destruct r1 as [[]|e|]; [|by exists evs..].
  destruct (finish_upload _ l1 st1) as [r st'] eqn:Hfin. cbn [snd].
  destruct r as [url|e|].
  - unfold finish_upload in Hfin.
    destruct (response l1) as [resp|]; [|discriminate].
    destruct (bool_decide _); [discriminate|].
    destruct (resp !! "id"); [|discriminate].
    injection Hfin as _ <-.
    match goal with
    | |- context [match ?x with Some _ => _ | None => _ end] => destruct x
    end; eexists; cbn; rewrite Hevs, <- ?app_assoc; simpl; reflexivity.
  - apply finish_upload_not_ok in Hfin as ->; [|congruence].
    exists evs. by rewrite Hevs.
  - apply finish_upload_not_ok in Hfin as ->; [|congruence].
    exists evs. by rewrite Hevs.
Qed.

Lemma resume_path_uploading rid st rec p :
  dict_get rid (resume_data st) = Some rec →
  status rec = "uploading" →
  video_path rec = Some p →
  p ≠ "" →
  is_Some (fs st !! p) →
  resume_path rid st = Some p.
Proof.
  intros Hrec Hst Hp Hne Hfs. unfold resume_path. rewrite Hrec, Hst, Hp. simpl.
  destruct (String.eqb_spec p ""); [done|]. simpl.
  by rewrite bool_decide_eq_true_2.
Qed.

(** C6. When the selected item has a resume record in stage "uploading"
    whose recorded path names a file on disk, staging returns that path and
    changes nothing (neither the downloader nor the compressor runs), the
    run is the uploader called with that path, and the first events of the
    run are the write of the resume mapping by the uploader and its insert
    request for that file. *)
Theorem resume_skips_to_upload env recipe_id st st1 recipe rec p :
  ensure_recipes st = (Ok tt, st1) →
  select_recipe env recipe_id st1 = Ok (Some recipe) →
  dict_get (str_id (id recipe)) (resume_data st) = Some rec →
  status rec = "uploading" →
  video_path rec = Some p →
  p ≠ "" →
  is_Some (fs st !! p) →
  stage_artifact env recipe st1 = (Ok p, st1) ∧
  process_single_recipe env recipe_id st
  = match upload_to_youtube upload_max_retries (env_youtube env)
            (clock_date (env_clock env)) p recipe st1 with
    | (Ok url, st2) => (Ok (Some url), cleanup (str_id (id recipe)) st2)
    | (Raise _, st2) => (Ok None, st2)
    | (Pending, st2) => (Pending, st2)
    end ∧
  ∃ evs,
    trace (process_single_recipe env recipe_id st).2
    = trace st
        ++ [EvSaveResume (dict_set (str_id (id recipe))
                            (set_uploading p rec) (resume_data st));
            EvYoutubeInsert (request_body (clock_date (env_clock env)) recipe) p]
        ++ evs.
Proof.
  intros Hens Hsel Hrec Hst Hp Hne Hfs.
  pose proof (ensure_recipes_frame _ _ _ Hens) as (_ & _ & E3 & _ & E5 & E6).
  assert (resume_path (str_id (id recipe)) st1 = Some p) as Hres.
  { apply (resume_path_uploading _ _ rec); by rewrite ?E3, ?E5. }
  assert (stage_artifact env recipe st1 = (Ok p, st1)) as Hstage.
  { unfold stage_artifact. by rewrite Hres. }
  assert (process_single_recipe env recipe_id st
          = match upload_to_youtube upload_max_retries (env_youtube env)
                    (clock_date (env_clock env)) p recipe st1 with
            | (Ok url, st2) => (Ok (Some url), cleanup (str_id (id recipe)) st2)
            | (Raise _, st2) => (Ok None, st2)
            | (Pending, st2) => (Pending, st2)
            end) as Hrun.
  { unfold process_single_recipe. rewrite Hens, Hsel.
    unfold process_recipe. rewrite Hstage.
    pose proof (upload_to_youtube_commit upload_max_retries (env_youtube env)
                  (clock_date (env_clock env)) p recipe st1) as Hup.
    destruct (upload_to_youtube _ _ _ _ _ _) as [[url|e|] st2]; [|done..].
    by destruct Hup as (_ & _ & vid & _ & _ & _ & -> & _). }
  split; [done|]. split; [done|].
  rewrite Hrun.
  destruct (upload_to_youtube_trace upload_max_retries (env_youtube env)
              (clock_date (env_clock env)) p recipe st1 rec) as [evs Hevs];
    [by rewrite E3|by rewrite E5|].
  rewrite E3, E6 in Hevs.
  destruct (upload_to_youtube _ _ _ _ _ _) as [[url|e|] st2]; simpl in *;
    [|by exists evs..].
  destruct (cleanup_frame (str_id (id recipe)) st2) as (_ & _ & _ & _ & after & Ht & _).
  exists (evs ++ after). rewrite Ht, Hevs. by rewrite <- !app_assoc.
Qed.

(** ** Duration of the source and target bit rate *)

Lemma string_app_cons (x : ascii) (a b : string) :
  String x a +:+ b = String x (a +:+ b).
Proof. reflexivity. Qed.

Lemma string_app_nil (b : string) : "" +:+ b = b.
Proof. reflexivity. Qed.

Lemma string_app_assoc (a b c : string) : (a +:+ b) +:+ c = a +:+ (b +:+ c).
Proof.
  induction a as [|x a IH]; [done|].
  rewrite !string_app_cons. f_equal. exact IH.
Qed.

Lemma string_app_length (a b : string) :
  String.length (a +:+ b) = (String.length a + String.length b)%nat.
Proof.
  induction a as [|x a IH]; [done|].
  rewrite string_app_cons. simpl. by rewrite IH.
Qed.

Lemma string_app_inv (a b a' b' : string) :
  a +:+ b = a' +:+ b' → String.length a = String.length a' → a = a' ∧ b = b'.
Proof.
  revert a'. induction a as [|x a IH]; intros [|x' a']; try done.
  rewrite !string_app_cons. intros [= -> H] [= Hl].
  destruct (IH _ H Hl) as [-> ->]. done.
Qed.

Lemma strip_prefix_app (p r : string) : strip_prefix p (p +:+ r) = Some r.
Proof.
  induction p as [|x p IH]; [done|].
  rewrite string_app_cons. simpl. by rewrite Ascii.eqb_refl.
Qed.

Lemma strip_prefix_Some (p s r : string) : strip_prefix p s = Some r → s = p +:+ r.
Proof.
  revert s. induction p as [|x p IH]; intros s; simpl.
  - by intros [= ->].
  - destruct s as [|y s]; [done|].
    destruct (Ascii.eqb_spec x y) as [->|]; [|done].
    intros H. by rewrite string_app_cons, (IH _ H).
Qed.

Lemma two_digits_Some (s r : string) (v : Z) :
  two_digits s = Some (v, r) →
  ∃ a b, s = String a (String b r) ∧ PyStr.is_digit a = true ∧
         PyStr.is_digit b = true ∧ v = 10 * PyStr.digit_val a + PyStr.digit_val b.
Proof.
  unfold two_digits. destruct s as [|a [|b s]]; try done.
  destruct (PyStr.is_digit a) eqn:Ha; [|done].
  destruct (PyStr.is_digit b) eqn:Hb; [|done].
  intros [= <- <-]. by exists a, b.
Qed.

Lemma two_digits_cons (a b : ascii) (r : string) :
  PyStr.is_digit a = true → PyStr.is_digit b = true →
  two_digits (String a (String b r))
  = Some (10 * PyStr.digit_val a + PyStr.digit_val b, r).
Proof. intros Ha Hb. unfold two_digits. by rewrite Ha, Hb. Qed.

Lemma match_duration_text a b c d e f post :
  hms_digits a b c d e f = true →
  match_duration (hms_text a b c d e f +:+ post)
  = Some (10 * PyStr.digit_val a + PyStr.digit_val b,
          10 * PyStr.digit_val c + PyStr.digit_val d,
          10 * PyStr.digit_val e + PyStr.digit_val f).
Proof.
  unfold hms_digits. rewrite !andb_true_iff.
  intros [[[[[Ha Hb] Hc] Hd] He] Hf].
  unfold match_duration, hms_text. rewrite string_app_assoc, strip_prefix_app.
  rewrite !string_app_cons.
  assert (∀ r, strip_prefix ":" (String ":" r) = Some r) as Hcolon by done.
  cbn [mbind option_bind]. rewrite (two_digits_cons a b) by done.
  cbn [mbind option_bind]. rewrite Hcolon.
  cbn [mbind option_bind]. rewrite (two_digits_cons c d) by done.
  cbn [mbind option_bind]. rewrite Hcolon.
  cbn [mbind option_bind]. rewrite (two_digits_cons e f) by done. done.
Qed.

Lemma match_duration_Some s h m sec :
  match_duration s = Some (h, m, sec) →
  ∃ a b c d e f post,
    s = hms_text a b c d e f +:+ post ∧ hms_digits a b c d e f = true ∧
    h * 3600 + m * 60 + sec = hms_seconds a b c d e f.
Proof.
  unfold match_duration. intros H.
  destruct (strip_prefix "Duration: " s) as [r1|] eqn:H1; [|done].
  apply strip_prefix_Some in H1. cbn [mbind option_bind] in H.
  destruct (two_digits r1) as [[vh r2]|] eqn:H2; [|done].
  apply two_digits_Some in H2 as (a & b & -> & Ha & Hb & ->).
  cbn [mbind option_bind] in H.
  destruct (strip_prefix ":" r2) as [r3|] eqn:H3; [|done].
  apply strip_prefix_Some in H3 as ->. cbn [mbind option_bind] in H.
  destruct (two_digits r3) as [[vm r4]|] eqn:H4; [|done].
  apply two_digits_Some in H4 as (c & d & -> & Hc & Hd & ->).
  cbn [mbind option_bind] in H.
  destruct (strip_prefix ":" r4) as [r5|] eqn:H5; [|done].
  apply strip_prefix_Some in H5 as ->. cbn [mbind option_bind] in H.
  destruct (two_digits r5) as [[vs r6]|] eqn:H6; [|done].
  apply two_digits_Some in H6 as (e & f & -> & He & Hf & ->).
  cbn [mbind option_bind] in H. injection H as <- <- <-.
  exists a, b, c, d, e, f, r6. split; [|split].
  - rewrite H1. unfold hms_text. by rewrite string_app_assoc.
  - unfold hms_digits. by rewrite Ha, Hb, Hc, Hd, He, Hf.
  - done.
Qed.

(** [re.search] finds nothing: no suffix of the text starts with a match. *)
Lemma search_duration_None s :
  search_duration s = None →
  ∀ pre rest, s = pre +:+ rest → match_duration rest = None.
Proof.
  induction s as [|x s IH]; simpl.
  - destruct (match_duration "") eqn:E; [done|].
    intros _ [|y pre] rest; [rewrite string_app_nil; by intros <-|done].
  - destruct (match_duration (String x s)) eqn:E; [done|].
    intros H [|y pre] rest; [rewrite string_app_nil; by intros <-|].
    rewrite string_app_cons. intros [= <- ->]. by eapply IH.
Qed.

(** [re.search] finds a match: it starts after some prefix, and no suffix
    that starts further left starts with a match. *)
Lemma search_duration_Some s r :
  search_duration s = Some r →
  ∃ pre rest,
    s = pre +:+ rest ∧ match_duration rest = Some r ∧
    ∀ pre' rest', s = pre' +:+ rest' →
      (String.length pre' < String.length pre)%nat → match_duration rest' = None.
Proof.
  induction s as [|x s IH]; simpl.
  - done.
  - destruct (match_duration (String x s)) eqn:E.
    + intros [= ->]. exists "", (String x s).
      split; [done|]. split; [done|]. simpl. lia.
    + intros H. destruct (IH H) as (pre & rest & -> & Hm & Hleft).
      exists (String x pre), rest. split; [done|]. split; [done|].
      intros [|y pre'] rest'.
      * rewrite string_app_nil. by intros <-.
      * rewrite string_app_cons. intros [= <- Heq] Hlen. simpl in Hlen.
        apply (Hleft pre'); [done|lia].
Qed.

Lemma duration_seconds_free s : pattern_free s → duration_seconds s = 120.
Proof.
  intros Hfree. unfold duration_seconds.
  destruct (search_duration s) as [[[h m] sec]|] eqn:E; [|done].
  apply search_duration_Some in E as (pre & rest & -> & Hm & _).
  apply match_duration_Some in Hm as (a & b & c & d & e & f & post & -> & Hd & _).
  destruct (Hfree pre a b c d e f). split; [done|]. by exists post.
Qed.

Lemma duration_seconds_leftmost s pre a b c d e f :
  leftmost_at s pre a b c d e f → duration_seconds s = hms_seconds a b c d e f.
Proof.
  intros [[Hd [post Hs]] Hleft]. unfold duration_seconds.
  pose proof (match_duration_text a b c d e f post Hd) as Hhere.
  destruct (search_duration s) as [[[h m] sec]|] eqn:E.
  - apply search_duration_Some in E as (pre0 & rest0 & Hs0 & Hm & Hleft0).
    pose proof Hm as Hm'.
    apply match_duration_Some in Hm' as (a' & b' & c' & d' & e' & f' & post' & -> & Hd' & Hv).
    assert (String.length pre ≤ String.length pre0)%nat as Hle.
    { apply (Hleft pre0 a' b' c' d' e' f'). split; [done|]. by exists post'. }
    destruct (decide (String.length pre < String.length pre0)%nat) as [Hlt|Hge].
    + rewrite (Hleft0 pre (hms_text a b c d e f +:+ post)) in Hhere; done.
    + assert (pre0 = pre ∧
              hms_text a' b' c' d' e' f' +:+ post' = hms_text a b c d e f +:+ post)
        as [-> Heq].
      { apply string_app_inv; [congruence|lia]. }
      rewrite Heq, Hhere in Hm. by injection Hm as <- <- <-.
  - rewrite (search_duration_None s E pre _ Hs) in Hhere. done.
Qed.

(** ** Facts on the rounding *)

Section FloatFacts.
Local Open Scope Q_scope.

Lemma two_pow_pos (k : Z) : 0 < 2 ^ k.
Proof. by apply Qpower_0_lt. Qed.

Lemma two_pow_plus (a b : Z) : 2 ^ (a + b) == 2 ^ a * 2 ^ b.
Proof. by apply Qpower_plus. Qed.

Lemma two_pow_Z (k : Z) : (0 <= k)%Z → 2 ^ k == inject_Z (2 ^ k).
Proof. intros H. by rewrite Zpower_Qpower. Qed.

Lemma two_pow_cancel (e : Z) : 2 ^ (- e) * 2 ^ e == 1.
Proof. rewrite <- two_pow_plus. by replace (- e + e)%Z with 0%Z by lia. Qed.

Lemma ilog2_spec (x : Q) : 0 < x → 2 ^ ilog2 x <= x ∧ x < 2 ^ (ilog2 x + 1).
Proof.
  intros Hx. unfold ilog2.
  destruct x as [n d]. unfold Qlt in Hx. simpl in Hx. rewrite Z.mul_1_r in Hx.
  simpl Qnum. simpl Qden.
  set (a := Z.log2 n). set (b := Z.log2 (Z.pos d)).
  pose proof (Z.log2_spec n Hx) as [Ha1 Ha2]. fold a in Ha1, Ha2.
  pose proof (Z.log2_spec (Z.pos d) eq_refl) as [Hb1 Hb2]. fold b in Hb1, Hb2.
  pose proof (Z.log2_nonneg n) as Ha0. fold a in Ha0.
  pose proof (Z.log2_nonneg (Z.pos d)) as Hb0. fold b in Hb0.
  assert (∀ j : Z, (0 <= j)%Z → 2 ^ (j - b) == inject_Z (2 ^ j) / inject_Z (2 ^ b)) as Hpow.
  { intros j Hj. rewrite Qpower_minus by done. by rewrite !two_pow_Z. }
  assert (0 < inject_Z (2 ^ b)) as Hbpos.
  { rewrite <- two_pow_Z by done. apply two_pow_pos. }
  assert (n # d < 2 ^ (a - b + 1)) as Hup.
  { replace (a - b + 1)%Z with (a + 1 - b)%Z by lia. rewrite Hpow by lia.
    apply Qlt_shift_div_l; [done|]. unfold Qlt, Qmult, inject_Z. simpl.
    rewrite !Z.mul_1_r. rewrite Z.pow_succ_r in Ha2 by done.
    replace (2 ^ (a + 1))%Z with (2 * 2 ^ a)%Z by (rewrite Z.pow_add_r; lia). nia. }
  assert (2 ^ (a - b - 1) < n # d) as Hlow.
  { replace (a - b - 1)%Z with (a - (b + 1))%Z by lia.
    rewrite Qpower_minus by done. rewrite !two_pow_Z by lia.
    apply Qlt_shift_div_r.
    - rewrite <- two_pow_Z by lia. apply two_pow_pos.
    - unfold Qlt, Qmult, inject_Z. simpl. rewrite !Z.mul_1_r.
      rewrite Z.pow_succ_r in Hb2 by done.
      replace (2 ^ (b + 1))%Z with (2 * 2 ^ b)%Z by (rewrite Z.pow_add_r; lia). nia. }
  destruct (Qle_bool (2 ^ (a - b)) (n # d)) eqn:E.
  - apply Qle_bool_iff in E. by split.
  - split; [by apply Qlt_le_weak|].
    replace (a - b - 1 + 1)%Z with (a - b)%Z by lia.
    apply Qnot_le_lt. intros H. apply Qle_bool_iff in H. congruence.
Qed.

Lemma ilog2_unique (x : Q) (j : Z) :
  2 ^ j <= x → x < 2 ^ (j + 1) → ilog2 x = j.
Proof.
  intros H1 H2.
  assert (0 < x) as Hx by (eapply Qlt_le_trans; [apply (two_pow_pos j)|done]).
  destruct (ilog2_spec x Hx) as [H3 H4].
  assert (j < ilog2 x + 1)%Z.
  { apply (Qpower_lt_compat_l_inv 2); [|done]. eapply Qle_lt_trans; done. }
  assert (ilog2 x < j + 1)%Z.
  { apply (Qpower_lt_compat_l_inv 2); [|done]. eapply Qle_lt_trans; done. }
  lia.
Qed.

Lemma ilog2_comp (x y : Q) : x == y → 0 < x → ilog2 x = ilog2 y.
Proof.
  intros Heq Hx. symmetry. destruct (ilog2_spec x Hx) as [H1 H2].
  apply ilog2_unique; by rewrite <- Heq.
Qed.

Lemma rne_comp (x y : Q) : x == y → rne x = rne y.
Proof.
  intros Heq. unfold rne. rewrite (Qfloor_comp _ _ Heq).
  assert ((x - inject_Z (Qfloor y) ?= 1 # 2) = (y - inject_Z (Qfloor y) ?= 1 # 2)) as ->;
    [|done].
  by rewrite Heq.
Qed.

Lemma rne_bounds (y : Q) :
  inject_Z (rne y) - (1 # 2) <= y ∧ y <= inject_Z (rne y) + (1 # 2).
Proof.
  unfold rne. pose proof (Qfloor_le y) as H1. pose proof (Qlt_floor y) as H2.
  rewrite inject_Z_plus in H2. change (inject_Z 1) with 1 in H2.
  destruct (y - inject_Z (Qfloor y) ?= 1 # 2) eqn:E.
  - apply Qeq_alt in E.
    destruct (Z.even _); rewrite ?inject_Z_plus; change (inject_Z 1) with 1;
      split; lra.
  - apply Qlt_alt in E. split; lra.
  - apply Qgt_alt in E. rewrite inject_Z_plus. change (inject_Z 1) with 1. split; lra.
Qed.

Lemma rne_int (y : Q) (k : Z) : y == inject_Z k → rne y = k.
Proof.
  intros H. rewrite (rne_comp _ _ H). unfold rne. rewrite Qfloor_Z.
  assert ((inject_Z k - inject_Z k ?= 1 # 2) = Lt) as ->; [|done].
  apply (proj1 (Qlt_alt _ _)). lra.
Qed.

Lemma rne_ge (y : Q) (k : Z) : inject_Z k <= y → (k <= rne y)%Z.
Proof.
  intros H. assert (k <= Qfloor y)%Z as Hf.
  { rewrite <- (Qfloor_Z k). by apply Qfloor_resp_le. }
  unfold rne. destruct (_ ?= _); [destruct (Z.even _)|..]; lia.
Qed.

Lemma rne_lt (y : Q) (k : Z) : y < inject_Z k - (1 # 2) → (rne y < k)%Z.
Proof.
  intros H. destruct (rne_bounds y) as [H1 _].
  rewrite Zlt_Qlt. lra.
Qed.

Lemma Qfloor_unique (q : Q) (f : Z) :
  inject_Z f <= q → q < inject_Z (f + 1) → Qfloor q = f.
Proof.
  intros H1 H2. apply Z.le_antisymm.
  - apply Z.lt_succ_r. unfold Z.succ. rewrite Zlt_Qlt.
    eapply Qle_lt_trans; [apply Qfloor_le|done].
  - rewrite <- (Qfloor_Z f). by apply Qfloor_resp_le.
Qed.

(** The scaled value of a positive [x] lies in the binade of 53 bits. *)
Lemma scaled_range (x : Q) :
  0 < x →
  2 ^ 52 <= x * 2 ^ (- (ilog2 x - 52)) ∧ x * 2 ^ (- (ilog2 x - 52)) < 2 ^ 53.
Proof.
  intros Hx. destruct (ilog2_spec x Hx) as [H1 H2].
  set (e := (ilog2 x - 52)%Z).
  assert (2 ^ ilog2 x == 2 ^ 52 * 2 ^ e) as E1.
  { rewrite <- two_pow_plus. by replace (52 + e)%Z with (ilog2 x) by (unfold e; lia). }
  assert (2 ^ (ilog2 x + 1) == 2 ^ 53 * 2 ^ e) as E2.
  { rewrite <- two_pow_plus. by replace (53 + e)%Z with (ilog2 x + 1)%Z by (unfold e; lia). }
  rewrite E1 in H1. rewrite E2 in H2.
  pose proof (two_pow_pos e) as Hp. pose proof (two_pow_pos (- e)) as Hn.
  pose proof (two_pow_cancel e) as Hc.
  split.
  - apply (Qmult_le_r _ _ (2 ^ e)); [done|].
    rewrite <- Qmult_assoc, Hc, Qmult_1_r. done.
  - apply (Qmult_lt_r _ _ (2 ^ e)); [done|].
    rewrite <- Qmult_assoc, Hc, Qmult_1_r. done.
Qed.

Lemma round53_eq (x : Q) :
  round53 x == inject_Z (rne (x * 2 ^ (- (ilog2 x - 52)))) * 2 ^ (ilog2 x - 52).
Proof. unfold round53. apply Qred_correct. Qed.

Lemma fl_pos_eq (x : Q) : 0 < x → fl x = round53 x.
Proof. intros H. unfold fl. by rewrite (proj1 (Qgt_alt x 0) H). Qed.

Lemma round53_comp (x y : Q) : x == y → 0 < x → round53 x = round53 y.
Proof.
  intros Heq Hx. unfold round53. rewrite <- (ilog2_comp x y Heq Hx).
  apply Qred_complete.
  rewrite (rne_comp (x * 2 ^ (- (ilog2 x - 52))) (y * 2 ^ (- (ilog2 x - 52))));
    [done|apply Qmult_comp; [exact Heq|reflexivity]].
Qed.

Lemma fl_comp (x y : Q) : x == y → fl x = fl y.
Proof.
  intros Heq. unfold fl. rewrite <- (Qcompare_comp x y Heq 0 0 (Qeq_refl 0)).
  destruct (x ?= 0) eqn:E; [done| |].
  - apply Qlt_alt in E. f_equal. f_equal. apply round53_comp; [by rewrite Heq|lra].
  - apply Qgt_alt in E. by apply round53_comp.
Qed.

(** The relative error of a rounding is at most [2^-53]. *)
Lemma fl_error (x : Q) :
  0 < x →
  x * (1 - (1 # 9007199254740992)) <= fl x ∧ fl x <= x * (1 + (1 # 9007199254740992)).
Proof.
  intros Hx. rewrite (fl_pos_eq x Hx), round53_eq.
  destruct (scaled_range x Hx) as [H1 H2].
  set (e := (ilog2 x - 52)%Z) in *. set (y := x * 2 ^ (- e)) in *.
  destruct (rne_bounds y) as [H3 H4].
  pose proof (two_pow_pos e) as Hp.
  assert (x == y * 2 ^ e) as Hxy.
  { unfold y. rewrite <- Qmult_assoc, two_pow_cancel. ring. }
  assert (2 ^ 52 == 4503599627370496) as E52 by reflexivity.
  rewrite E52 in H1.
  set (m := inject_Z (rne y)) in *. set (p := 2 ^ e) in *.
  rewrite Hxy. split.
  - apply Qle_trans with ((y - (1 # 2)) * p).
    + assert (y * p * (1 - (1 # 9007199254740992)) == (y * (1 - (1 # 9007199254740992))) * p)
        as -> by ring.
      apply Qmult_le_compat_r; lra.
    + apply Qmult_le_compat_r; lra.
  - apply Qle_trans with ((y + (1 # 2)) * p).
    + apply Qmult_le_compat_r; lra.
    + assert (y * p * (1 + (1 # 9007199254740992)) == (y * (1 + (1 # 9007199254740992))) * p)
        as -> by ring.
      apply Qmult_le_compat_r; lra.
Qed.

Lemma fl_pos (x : Q) : 0 < x → 0 < fl x.
Proof. intros Hx. destruct (fl_error x Hx) as [H _]. lra. Qed.

(** A value of at most 53 bits is not rounded. *)
Lemma fl_exact (n k : Z) :
  (0 < n < 2 ^ 53)%Z → fl (inject_Z n * 2 ^ k) == inject_Z n * 2 ^ k.
Proof.
  intros [Hn1 Hn2].
  assert (0 < inject_Z n) as Hn by (unfold Qlt, inject_Z; simpl; lia).
  assert (0 < inject_Z n * 2 ^ k) as Hx.
  { apply Qmult_lt_0_compat; [done|apply two_pow_pos]. }
  rewrite (fl_pos_eq _ Hx), round53_eq.
  destruct (scaled_range _ Hx) as [H1 _].
  set (e := (ilog2 (inject_Z n * 2 ^ k) - 52)%Z) in *.
  assert (inject_Z n * 2 ^ k * 2 ^ (- e) == inject_Z n * 2 ^ (k - e)) as Hy.
  { rewrite <- Qmult_assoc, <- two_pow_plus. by replace (k + - e)%Z with (k - e)%Z by lia. }
  rewrite Hy in H1.
  assert (0 <= k - e)%Z as Hke.
  { destruct (Z_lt_le_dec (k - e) 0) as [Hneg|]; [|done]. exfalso.
    assert (2 ^ (k - e) <= 2 ^ (-1)) as Hle by (apply Qpower_le_compat_l; [lia|done]).
    assert (2 ^ (-1) == 1 # 2) as E1 by reflexivity. rewrite E1 in Hle.
    assert (2 ^ 52 == 4503599627370496) as E52 by reflexivity. rewrite E52 in H1.
    assert (inject_Z n <= 9007199254740991) as Hn3.
    { change (2 ^ 53)%Z with 9007199254740992%Z in Hn2.
      unfold Qle, inject_Z. simpl. lia. }
    pose proof (two_pow_pos (k - e)) as Hp.
    assert (inject_Z n * 2 ^ (k - e) <= 9007199254740991 * (1 # 2)) as Hb.
    { apply Qle_trans with (9007199254740991 * 2 ^ (k - e)).
      - apply Qmult_le_compat_r; [done|lra].
      - apply Qmult_le_l; [reflexivity|done]. }
    lra. }
  rewrite (rne_int _ (n * 2 ^ (k - e))).
  - rewrite inject_Z_mult, <- two_pow_Z by done.
    rewrite <- Qmult_assoc, <- two_pow_plus. by replace (k - e + e)%Z with k by lia.
  - rewrite Hy, inject_Z_mult. by rewrite two_pow_Z.
Qed.

(** Rounding a quotient with a denominator below [2^20] and a value below
    [2^34] does not change its integer part. *)
Lemma fl_floor (n : Z) (d : positive) :
  (0 < n)%Z → (Z.pos d < 2 ^ 20)%Z → (n < 2 ^ 34 * Z.pos d)%Z →
  Qfloor (fl (n # d)) = (n / Z.pos d)%Z.
Proof.
  intros Hn Hd Hq.
  assert (0 < n # d) as Hx by (unfold Qlt; simpl; lia).
  assert (Qfloor (n # d) = (n / Z.pos d)%Z) as Hfloor by reflexivity.
  set (f := (n / Z.pos d)%Z) in *.
  assert (inject_Z f <= n # d) as Hf1 by (rewrite <- Hfloor; apply Qfloor_le).
  assert ((n # d) <= inject_Z (f + 1) - (1 # d)) as Hf2.
  { pose proof (Z.mul_succ_div_gt n (Z.pos d) eq_refl) as Hs. fold f in Hs.
    rewrite inject_Z_plus. unfold Qle, Qminus, Qplus, Qopp, inject_Z. simpl. nia. }
  rewrite (fl_pos_eq _ Hx), round53_eq.
  destruct (scaled_range _ Hx) as [H1 H2]. destruct (ilog2_spec _ Hx) as [H3 H4].
  assert (ilog2 (n # d) < 34)%Z as Hlog.
  { apply (Qpower_lt_compat_l_inv 2); [|done]. eapply Qle_lt_trans; [exact H3|].
    rewrite two_pow_Z by lia. unfold Qlt, inject_Z. simpl. lia. }
  set (e := (ilog2 (n # d) - 52)%Z) in *.
  set (s := (2 ^ (- e))%Z).
  assert (2 ^ (- e) == inject_Z s) as Hs by (apply two_pow_Z; lia).
  assert (2 ^ 19 <= s)%Z as Hs19.
  { unfold s. apply Z.pow_le_mono_r; lia. }
  assert (0 < inject_Z s) as Hspos.
  { unfold Qlt, inject_Z. simpl. lia. }
  set (y := (n # d) * 2 ^ (- e)) in *.
  assert (inject_Z (f * s) <= y) as Hy1.
  { unfold y. rewrite Hs, inject_Z_mult. apply Qmult_le_compat_r; [done|lra]. }
  assert (y < inject_Z ((f + 1) * s) - (1 # 2)) as Hy2.
  { unfold y. rewrite Hs, inject_Z_mult.
    apply Qle_lt_trans with ((inject_Z (f + 1) - (1 # d)) * inject_Z s).
    - apply Qmult_le_compat_r; [done|lra].
    - assert ((1 # 2) < (1 # d) * inject_Z s) as Hhalf.
      { unfold Qlt, Qmult, inject_Z. simpl. change (2 ^ 20)%Z with 1048576%Z in Hd.
        change (2 ^ 19)%Z with 524288%Z in Hs19. lia. }
      assert ((inject_Z (f + 1) - (1 # d)) * inject_Z s
              == inject_Z (f + 1) * inject_Z s - (1 # d) * inject_Z s) as -> by ring.
      lra. }
  pose proof (rne_ge y _ Hy1) as Hm1. pose proof (rne_lt y _ Hy2) as Hm2.
  set (m := rne y) in *.
  assert (2 ^ e == 1 / inject_Z s) as He.
  { rewrite <- Hs, Qpower_opp. field. apply Qpower_not_0. done. }
  assert (inject_Z m * 2 ^ e == inject_Z m / inject_Z s) as Hval.
  { rewrite He. field. lra. }
  rewrite (Qfloor_comp _ _ Hval).
  apply Qfloor_unique.
  - apply Qle_shift_div_l; [done|]. rewrite <- inject_Z_mult, <- Zle_Qle. done.
  - apply Qlt_shift_div_r; [done|]. rewrite <- inject_Z_mult, <- Zlt_Qlt. done.
Qed.

End FloatFacts.

(** ** Sizes and rates in floats *)

Section Numbers.
Local Open Scope Q_scope.

Lemma py_int_floor (q : Q) : (0 <= q)%Q → py_int q = Qfloor q.
Proof.
  destruct q as [n d]. unfold py_int, Qfloor, Qle. simpl. intros H.
  apply Z.quot_div_nonneg; lia.
Qed.

Lemma fl_exact_of (x : Q) (n k : Z) :
  x == inject_Z n * 2 ^ k → (0 < n < 2 ^ 53)%Z → fl x == inject_Z n * 2 ^ k.
Proof. intros Hx Hn. rewrite (fl_comp _ _ Hx). by apply fl_exact. Qed.

Lemma size_mb_exact (bytes : N) :
  (0 < bytes)%N → (Z.of_N bytes < 2 ^ 53)%Z →
  size_mb bytes == inject_Z (Z.of_N bytes) * 2 ^ (-20).
Proof.
  intros H1 H2. unfold size_mb. apply fl_exact_of; [|lia].
  assert (2 ^ (-20) == 1 # 1048576) as -> by reflexivity.
  unfold Qeq, Qmult, inject_Z. simpl. lia.
Qed.

Lemma size_mb_bounds (bytes : N) :
  (0 < bytes)%N →
  (Z.of_N bytes # 1048576) * (1 - (1 # 9007199254740992)) <= size_mb bytes ∧
  size_mb bytes <= (Z.of_N bytes # 1048576) * (1 + (1 # 9007199254740992)).
Proof. intros H. apply fl_error. unfold Qlt. simpl. lia. Qed.

Lemma bytes_as_Q (bytes : N) :
  Z.of_N bytes # 1048576 == inject_Z (Z.of_N bytes) * (1 # 1048576).
Proof. unfold Qeq, Qmult, inject_Z. simpl. lia. Qed.

(** The test of line 314 is exact. *)
Lemma small_iff (bytes : N) :
  Qlt_bool (size_mb bytes) small_file_mb = false ↔ (10 * MiB <= bytes)%N.
Proof.
  unfold Qlt_bool, small_file_mb. rewrite negb_false_iff, Qle_bool_iff.
  change (inject_Z 10) with 10. unfold MiB.
  destruct (N.eq_dec bytes 0%N) as [->|Hne].
  { split; [|lia]. intros H. vm_compute in H. by destruct H. }
  assert (0 < bytes)%N as Hpos by lia.
  destruct (size_mb_bounds bytes Hpos) as [Hlo Hhi].
  rewrite bytes_as_Q in Hlo, Hhi.
  set (b := inject_Z (Z.of_N bytes)) in *.
  destruct (Z_lt_le_dec (Z.of_N bytes) (2 ^ 53)) as [Hs|Hl].
  - pose proof (size_mb_exact bytes Hpos Hs) as He. fold b in He.
    assert (2 ^ (-20) == 1 # 1048576) as E by reflexivity. rewrite E in He.
    rewrite He. split.
    + intros H. assert (10485760 <= b) as Hb by lra.
      unfold b, Qle, inject_Z in Hb. simpl in Hb. lia.
    + intros H. assert (10485760 <= b) as Hb.
      { unfold b, Qle, inject_Z. simpl. lia. }
      lra.
  - assert (9007199254740992 <= b) as Hb.
    { unfold b, Qle, inject_Z. simpl. change (2 ^ 53)%Z with 9007199254740992%Z in Hl. lia. }
    split; [|intros _; lra].
    intros _. change (2 ^ 53)%Z with 9007199254740992%Z in Hl. lia.
Qed.

(** The bit rate of line 336 in exact arithmetic, for a rate below
    [2^34] bits per second. *)
Lemma target_bitrate_closed (bytes : N) (d : Z) :
  (10 * MiB <= bytes)%N → (0 < d < 2 ^ 20)%Z →
  (4 * Z.of_N bytes < 2 ^ 34 * d)%Z →
  target_bitrate (size_mb bytes) d = (4 * Z.of_N bytes / d)%Z.
Proof.
  intros Hb [Hd1 Hd2] Hrate. unfold MiB in Hb.
  set (n := Z.of_N bytes) in *.
  assert (10485760 <= n < 2 ^ 52)%Z as Hn.
  { change (2 ^ 34)%Z with 17179869184%Z in Hrate. change (2 ^ 20)%Z with 1048576%Z in Hd2.
    change (2 ^ 52)%Z with 4503599627370496%Z. unfold n in *. lia. }
  assert (0 < n < 2 ^ 53)%Z as Hn53.
  { change (2 ^ 52)%Z with 4503599627370496%Z in Hn.
    change (2 ^ 53)%Z with 9007199254740992%Z. lia. }
  pose proof (size_mb_exact bytes ltac:(lia) ltac:(apply Hn53)) as E0. fold n in E0.
  unfold target_bitrate, target_size_mb.
  assert (fl (size_mb bytes * (1 # 2)) == inject_Z n * 2 ^ (-21)) as E1.
  { apply fl_exact_of; [|done]. rewrite E0.
    assert (2 ^ (-21) == 2 ^ (-20) * (1 # 2)) as -> by reflexivity. ring. }
  assert (py_max (inject_Z 5) (fl (size_mb bytes * (1 # 2))) == inject_Z n * 2 ^ (-21)) as E2.
  { unfold py_max, Qlt_bool. destruct (Qle_bool _ _) eqn:E; simpl; [|done].
    apply Qle_bool_iff in E. rewrite E1 in E. rewrite <- E1.
    assert (inject_Z 5 <= inject_Z n * 2 ^ (-21)) as Hge.
    { assert (2 ^ (-21) == 1 # 2097152) as -> by reflexivity.
      unfold Qle, Qmult, inject_Z. simpl. lia. }
    rewrite E1. apply Qle_antisym; done. }
  set (t := py_max _ _) in *.
  assert (fl (t * inject_Z 8) == inject_Z n * 2 ^ (-18)) as E3.
  { apply fl_exact_of; [|done]. rewrite E2.
    assert (2 ^ (-18) == 2 ^ (-21) * inject_Z 8) as -> by reflexivity. ring. }
  assert (fl (fl (t * inject_Z 8) * inject_Z 1024) == inject_Z n * 2 ^ (-8)) as E4.
  { apply fl_exact_of; [|done]. rewrite E3.
    assert (2 ^ (-8) == 2 ^ (-18) * inject_Z 1024) as -> by reflexivity. ring. }
  assert (fl (fl (fl (t * inject_Z 8) * inject_Z 1024) * inject_Z 1024)
          == inject_Z n * 2 ^ 2) as E5.
  { apply fl_exact_of; [|done]. rewrite E4.
    assert (2 ^ 2 == 2 ^ (-8) * inject_Z 1024) as -> by reflexivity. ring. }
  destruct d as [|p|p]; [lia| |lia].
  assert (fl (fl (fl (t * inject_Z 8) * inject_Z 1024) * inject_Z 1024) / inject_Z (Z.pos p)
          == (4 * n) # p) as E6.
  { rewrite E5. assert (2 ^ 2 == 4) as -> by reflexivity.
    unfold Qeq, Qdiv, Qmult, Qinv, inject_Z. simpl. lia. }
  rewrite (fl_comp _ _ E6).
  rewrite py_int_floor.
  - apply fl_floor; lia.
  - apply Qlt_le_weak, fl_pos. unfold Qlt. simpl. lia.
Qed.

Lemma spec_target_bitrate_eq (mb : Q) (d : Z) :
  target_bitrate mb d = spec_target_bitrate mb d.
Proof.
  unfold target_bitrate, spec_target_bitrate, target_size_mb.
  by rewrite (fl_comp (mb * (1 # 2)) ((1 # 2) * mb) (Qmult_comm _ _)).
Qed.

Lemma fl_09 : fl (9 # 10) = 8106479329266893 # 9007199254740992.
Proof. vm_compute. reflexivity. Qed.

(** An output of more than nine tenths of an input below [2^48] bytes
    passes the test of line 366. *)
Lemma barely_smaller_true (in_bytes out_bytes : N) :
  (0 < in_bytes)%N → (Z.of_N in_bytes < 2 ^ 48)%Z →
  (9 * in_bytes < 10 * out_bytes)%N →
  barely_smaller (size_mb in_bytes) (size_mb out_bytes) = true.
Proof.
  intros Hin Hsmall Hlt. unfold barely_smaller, Qlt_bool.
  apply negb_true_iff. destruct (Qle_bool _ _) eqn:E; [|done]. exfalso.
  apply Qle_bool_iff in E. rewrite fl_09 in E.
  destruct (size_mb_bounds in_bytes Hin) as [Ha1 Ha2].
  destruct (size_mb_bounds out_bytes ltac:(lia)) as [Hb1 Hb2].
  rewrite bytes_as_Q in Ha1, Ha2, Hb1, Hb2.
  assert (0 < size_mb in_bytes * (8106479329266893 # 9007199254740992)) as Hp.
  { assert (0 < inject_Z (Z.of_N in_bytes)) by (unfold Qlt, inject_Z; simpl; lia). lra. }
  destruct (fl_error _ Hp) as [_ Hc].
  assert (inject_Z (Z.of_N in_bytes) < 281474976710656) as H1.
  { unfold Qlt, inject_Z. simpl. change (2 ^ 48)%Z with 281474976710656%Z in Hsmall. lia. }
  assert (9 * inject_Z (Z.of_N in_bytes) + 1 <= 10 * inject_Z (Z.of_N out_bytes)) as H2.
  { unfold Qle, Qplus, Qmult, inject_Z. simpl. lia. }
  assert (0 < inject_Z (Z.of_N in_bytes)) as H3 by (unfold Qlt, inject_Z; simpl; lia).
  set (a := inject_Z (Z.of_N in_bytes)) in *. set (b := inject_Z (Z.of_N out_bytes)) in *.
  set (A := size_mb in_bytes) in *. set (B := size_mb out_bytes) in *.
  set (P := fl (A * (8106479329266893 # 9007199254740992))) in *.
  lra.
Qed.

(** An output that fails the test of line 366 is smaller than the
    input. *)
Lemma barely_smaller_false (in_bytes out_bytes : N) :
  (0 < in_bytes)%N →
  barely_smaller (size_mb in_bytes) (size_mb out_bytes) = false →
  (out_bytes < in_bytes)%N.
Proof.
  intros Hin. unfold barely_smaller, Qlt_bool. rewrite negb_false_iff, Qle_bool_iff.
  rewrite fl_09. intros E.
  destruct (N.eq_dec out_bytes 0%N) as [->|Hout]; [lia|].
  destruct (size_mb_bounds in_bytes Hin) as [Ha1 Ha2].
  destruct (size_mb_bounds out_bytes ltac:(lia)) as [Hb1 Hb2].
  rewrite bytes_as_Q in Ha1, Ha2, Hb1, Hb2.
  assert (0 < inject_Z (Z.of_N in_bytes)) as H3 by (unfold Qlt, inject_Z; simpl; lia).
  assert (0 < size_mb in_bytes * (8106479329266893 # 9007199254740992)) as Hp by lra.
  destruct (fl_error _ Hp) as [_ Hc].
  assert (inject_Z (Z.of_N out_bytes) < inject_Z (Z.of_N in_bytes)) as Hlt.
  { set (a := inject_Z (Z.of_N in_bytes)) in *. set (b := inject_Z (Z.of_N out_bytes)) in *.
    set (A := size_mb in_bytes) in *. set (B := size_mb out_bytes) in *.
    set (P := fl (A * (8106479329266893 # 9007199254740992))) in *.
    lra. }
  rewrite <- Zlt_Qlt in Hlt. lia.
Qed.

End Numbers.

(** The model at sizes where rounding shows, and the processor's
    arithmetic at the same operations. *)
Example size_mb_20 : size_mb 20971520 = 20%Q.
Proof. vm_compute. reflexivity. Qed.

Example rounding_upwards :
  target_bitrate (size_mb 8435094068304335) 7 = 4820053753316763 ∧
  4 * 8435094068304335 / 7 = 4820053753316762.
Proof. vm_compute. done. Qed.

Example passes_by_rounding :
  barely_smaller (size_mb 2251799813685251) (size_mb 2026619832316726) = false ∧
  9 * 2251799813685251 < 10 * 2026619832316726.
Proof. vm_compute. done. Qed.

Example fl_agrees_literal :
  Q_of_float (PrimFloat.div (float_of_Z 9) (float_of_Z 10)) = fl (9 # 10).
Proof. vm_compute. reflexivity. Qed.

Example fl_agrees_size :
  Q_of_float (PrimFloat.div (float_of_Z 8435094068304335) (float_of_Z 1048576))
  = size_mb 8435094068304335.
Proof. vm_compute. reflexivity. Qed.

Example fl_agrees_bitrate :
  let mb := PrimFloat.div (float_of_Z 8435094068304335) (float_of_Z 1048576) in
  let half := PrimFloat.mul mb (PrimFloat.div (float_of_Z 1) (float_of_Z 2)) in
  let bits := PrimFloat.mul (PrimFloat.mul (PrimFloat.mul half (float_of_Z 8))
                               (float_of_Z 1024)) (float_of_Z 1024) in
  py_int (Q_of_float (PrimFloat.div bits (float_of_Z 7)))
  = target_bitrate (size_mb 8435094068304335) 7.
Proof. vm_compute. reflexivity. Qed.

Example fl_agrees_threshold :
  let nine_tenths := PrimFloat.div (float_of_Z 9) (float_of_Z 10) in
  let mb_in := PrimFloat.div (float_of_Z 2251799813685251) (float_of_Z 1048576) in
  let mb_out := PrimFloat.div (float_of_Z 2026619832316726) (float_of_Z 1048576) in
  PrimFloat.ltb (PrimFloat.mul mb_in nine_tenths) mb_out
  = barely_smaller (size_mb 2251799813685251) (size_mb 2026619832316726).
Proof. vm_compute. reflexivity. Qed.

Lemma is_digit_val (c : ascii) :
  PyStr.is_digit c = true → 0 ≤ PyStr.digit_val c ≤ 9.
Proof.
  unfold PyStr.is_digit, PyStr.digit_val. rewrite andb_true_iff.
  intros [H1 H2]. apply Nat.leb_le in H1. apply Nat.leb_le in H2. lia.
Qed.

Lemma duration_seconds_nonneg (s : string) : 0 ≤ duration_seconds s.
Proof.
  unfold duration_seconds.
  destruct (search_duration s) as [[[h m] sec]|] eqn:E; [|lia].
  apply search_duration_Some in E as (pre & rest & _ & Hm & _).
  apply match_duration_Some in Hm as (a & b & c & d & e & f & post & _ & Hd & ->).
  unfold hms_digits in Hd. rewrite !andb_true_iff in Hd.
  destruct Hd as [[[[[Ha Hb] Hc] Hd] He] Hf].
  apply is_digit_val in Ha, Hb, Hc, Hd, He, Hf. unfold hms_seconds. lia.
Qed.

Lemma duration_seconds_upper (s : string) : duration_seconds s < 2 ^ 20.
Proof.
  unfold duration_seconds.
  destruct (search_duration s) as [[[h m] sec]|] eqn:E; [|done].
  apply search_duration_Some in E as (pre & rest & _ & Hm & _).
  apply match_duration_Some in Hm as (a & b & c & d & e & f & post & _ & Hd & ->).
  unfold hms_digits in Hd. rewrite !andb_true_iff in Hd.
  destruct Hd as [[[[[Ha Hb] Hc] Hd] He] Hf].
  apply is_digit_val in Ha, Hb, Hc, Hd, He, Hf. unfold hms_seconds.
  change (2 ^ 20) with 1048576. lia.
Qed.

Lemma not_small (bytes : N) :
  (10 * MiB ≤ bytes)%N → Qlt_bool (size_mb bytes) small_file_mb = false.
Proof. apply small_iff. Qed.

(** The calls of a run that gets as far as the encoder. *)
Lemma compress_video_reaches_encoder ff input rid st rec bytes :
  dict_get rid (resume_data st) = Some rec →
  (∀ sz, fs st !! compressed_path rid = Some sz → (sz ≤ MiB)%N) →
  ff_version ff = VersionOk →
  fs st !! input = Some bytes →
  (10 * MiB ≤ bytes)%N →
  duration_seconds (ff_stderr ff) ≠ 0 →
  ∃ saved maxrate bufsize,
    trace (compress_video ff input rid st).2
    = trace st ++ [EvSaveResume saved; EvFfmpegVersion; EvFfmpegProbe input;
                   EvFfmpegEncode input
                     (target_bitrate (size_mb bytes) (duration_seconds (ff_stderr ff)))
                     maxrate bufsize (compressed_path rid)].
Proof.
  intros Hrec Hcache Hff Hin Hbig Hd.
  unfold compress_video. rewrite Hrec.
  set (st0 := compress_entry rid rec st).
  assert (trace st0 = trace st ++ [EvSaveResume (resume_data st0)]) as Ht0 by done.
  assert (∃ maxrate bufsize,
            trace (run_compression ff input (compressed_path rid) st0).2
            = trace st0 ++ [EvFfmpegVersion; EvFfmpegProbe input;
                            EvFfmpegEncode input
                              (target_bitrate (size_mb bytes)
                                 (duration_seconds (ff_stderr ff)))
                              maxrate bufsize
                              (compressed_path rid)]) as (maxrate & bufsize & Hrun).
  { unfold run_compression. rewrite Hff. cbv zeta.
    change (fs (emit EvFfmpegVersion st0) !! input) with (fs st !! input).
    rewrite Hin, (not_small bytes Hbig).
    apply Z.eqb_neq in Hd. rewrite Hd.
    eexists _, _.
    destruct (negb _).
    - destruct (ff_output ff); cbn; by rewrite <- !app_assoc.
    - match goal with
      | |- context [match ?x with Some _ => _ | None => _ end] => destruct x
      end.
      + destruct (barely_smaller _ _); destruct (ff_output ff); cbn;
          by rewrite <- !app_assoc.
      + destruct (ff_output ff); cbn; by rewrite <- !app_assoc. }
  exists (resume_data st0), maxrate, bufsize.
  change (fs st0 !! compressed_path rid) with (fs st !! compressed_path rid).
  destruct (fs st !! compressed_path rid) as [sz|] eqn:Hc.
  - specialize (Hcache sz eq_refl).
    replace (MiB <? sz)%N with false by (symmetry; apply N.ltb_ge; lia).
    rewrite Hrun, Ht0. by rewrite <- app_assoc.
  - rewrite Hrun, Ht0. by rewrite <- app_assoc.
Qed.

(** The diagnostic output counts through the duration read in it only. *)
Lemma compress_video_duration ff input rid st s :
  duration_seconds s = duration_seconds (ff_stderr ff) →
  compress_video (with_stderr s ff) input rid st = compress_video ff input rid st.
Proof.
  intros H. unfold compress_video, run_compression, with_stderr. simpl. by rewrite H.
Qed.

(** C8. When [compress_video] gets as far as the encoder (a resume record
    for the item, no compressed artifact to reuse, the tool answers its
    probe, an input of at least 10 MiB, a duration that is not zero), the
    bit rate it hands to the encoder is the value of the expression the
    specification words, in Python's float arithmetic, whatever the size.
    Where that rate is below [2 ^ 34] bits per second no rounding shows
    and the rate is four times the size in bytes over the duration,
    rounded down; above, a rounding can move it (see [rounding_upwards]).
    The duration is 120 when the pattern matches nowhere in the diagnostic
    output, and the hours, minutes and seconds of the leftmost match
    otherwise. *)
Theorem target_bitrate_formula ff input rid st rec bytes :
  dict_get rid (resume_data st) = Some rec →
  (∀ sz, fs st !! compressed_path rid = Some sz → (sz ≤ MiB)%N) →
  ff_version ff = VersionOk →
  fs st !! input = Some bytes →
  (10 * MiB ≤ bytes)%N →
  duration_seconds (ff_stderr ff) ≠ 0 →
  let duration := duration_seconds (ff_stderr ff) in
  let rate := spec_target_bitrate (size_mb bytes) duration in
  (∃ saved maxrate bufsize,
     trace (compress_video ff input rid st).2
     = trace st ++ [EvSaveResume saved; EvFfmpegVersion; EvFfmpegProbe input;
                    EvFfmpegEncode input rate maxrate bufsize (compressed_path rid)]) ∧
  (4 * Z.of_N bytes < 2 ^ 34 * duration → rate = (4 * Z.of_N bytes) / duration) ∧
  (pattern_free (ff_stderr ff) → duration = 120) ∧
  (∀ pre a b c d e f,
     leftmost_at (ff_stderr ff) pre a b c d e f → duration = hms_seconds a b c d e f).
Proof.
  intros Hrec Hcache Hff Hin Hbig Hd duration rate.
  assert (0 < duration) as Hpos.
  { pose proof (duration_seconds_nonneg (ff_stderr ff)). subst duration. lia. }
  split; [|split; [|split]].
  - subst rate duration. rewrite <- spec_target_bitrate_eq.
    by eapply compress_video_reaches_encoder.
  - intros Hrate. subst rate. rewrite <- spec_target_bitrate_eq.
    apply target_bitrate_closed; [done| |done].
    split; [done|apply duration_seconds_upper].
  - apply duration_seconds_free.
  - intros pre a b c d e f. apply duration_seconds_leftmost.
Qed.

(** ** Compression falls back to the input *)

Lemma compressed_ne_original (a b : string) : compressed_path a ≠ original_path b.
Proof. unfold compressed_path, original_path, temp_dir. discriminate. Qed.

(** What [run_compression] returns and what it leaves on disk, when the
    file at the output path is no reusable artifact. *)
Lemma run_compression_spec ff input output st :
  (∀ sz, fs st !! output = Some sz → (sz ≤ MiB)%N) →
  ∃ p st',
    run_compression ff input output st = (Ok p, st') ∧
    (p = input ∨ p = output) ∧
    (ff_version ff ≠ VersionOk → p = input) ∧
    (ff_returncode ff ≠ 0 → p = input) ∧
    (duration_seconds (ff_stderr ff) = 0 → p = input) ∧
    (fs st !! input = None → p = input) ∧
    (fs st' !! output = None → p = input) ∧
    (∀ in_bytes out_bytes,
       fs st !! input = Some in_bytes → fs st' !! output = Some out_bytes →
       barely_smaller (size_mb in_bytes) (size_mb out_bytes) = true ∨
       Z.of_N in_bytes < 2 ^ 48 ∧ (9 * in_bytes < 10 * out_bytes)%N →
       p = input) ∧
    (∀ in_bytes,
       fs st !! input = Some in_bytes →
       ∃ out_bytes, fs st' !! p = Some out_bytes ∧ (out_bytes ≤ in_bytes)%N).
Proof.
  intros Hout. unfold run_compression.
  assert (∀ s, fs s = fs st →
            ∃ p st',
              (Ok input, s) = (Ok p, st') ∧
              (p = input ∨ p = output) ∧
              (ff_version ff ≠ VersionOk → p = input) ∧
              (ff_returncode ff ≠ 0 → p = input) ∧
              (duration_seconds (ff_stderr ff) = 0 → p = input) ∧
              (fs st !! input = None → p = input) ∧
              (fs st' !! output = None → p = input) ∧
              (∀ in_bytes out_bytes,
                 fs st !! input = Some in_bytes → fs st' !! output = Some out_bytes →
                 barely_smaller (size_mb in_bytes) (size_mb out_bytes) = true ∨
                 Z.of_N in_bytes < 2 ^ 48 ∧ (9 * in_bytes < 10 * out_bytes)%N →
                 p = input) ∧
              (∀ in_bytes,
                 fs st !! input = Some in_bytes →
                 ∃ out_bytes, fs st' !! p = Some out_bytes ∧ (out_bytes ≤ in_bytes)%N))
    as Hsame.
  { intros s Hs. exists input, s. rewrite Hs.
    do 8 (split; [by auto|]). intros in_bytes Hin. by exists in_bytes. }
  destruct (ff_version ff) eqn:Hv; [|by apply Hsame..].
  cbv zeta. change (fs (emit EvFfmpegVersion st) !! input) with (fs st !! input).
  destruct (fs st !! input) as [in_bytes|] eqn:Hin; [|by apply Hsame].
  destruct (Qlt_bool (size_mb in_bytes) small_file_mb) eqn:Hsmall; [by apply Hsame|].
  destruct (duration_seconds (ff_stderr ff) =? 0) eqn:Hd; [by apply Hsame|].
  apply Z.eqb_neq in Hd.
  assert (10 * MiB ≤ in_bytes)%N as Hbig by (by apply small_iff).
  assert (0 < in_bytes)%N as Hpos by (unfold MiB in Hbig; lia).
  assert (input ≠ output) as Hne.
  { intros ->. specialize (Hout _ Hin). unfold MiB in *. lia. }
  set (s1 := emit (EvFfmpegEncode _ _ _ _ _) _).
  assert (fs s1 = fs st) as Hs1 by done.
  set (s2 := match ff_output ff with Some _ => _ | None => _ end).
  assert (fs s2 !! input = Some in_bytes) as Hin2.
  { subst s2. destruct (ff_output ff); cbn [fs set_fs]; rewrite Hs1; [|done].
    by rewrite lookup_insert_ne. }
  assert (∃ p, (p = input ∨ p = output) ∧
               (if negb (ff_returncode ff =? 0) then (Ok input, s2)
                else match fs s2 !! output with
                     | Some output_bytes =>
                         if barely_smaller (size_mb in_bytes) (size_mb output_bytes)
                         then (Ok input, s2) else (Ok output, s2)
                     | None => (Ok input, s2)
                     end) = (Ok p, s2) ∧
               (ff_returncode ff ≠ 0 → p = input) ∧
               (fs s2 !! output = None → p = input) ∧
               (∀ out_bytes, fs s2 !! output = Some out_bytes →
                  barely_smaller (size_mb in_bytes) (size_mb out_bytes) = true ∨
                  Z.of_N in_bytes < 2 ^ 48 ∧ (9 * in_bytes < 10 * out_bytes)%N →
                  p = input) ∧
               (∃ out_bytes, fs s2 !! p = Some out_bytes ∧ (out_bytes ≤ in_bytes)%N))
    as (p & Hp & -> & Hrc & Hmiss & Hsz & Hex).
  { assert ((input = input ∨ input = output) ∧
            (Ok input, s2) = (Ok input, s2) ∧
            (ff_returncode ff ≠ 0 → input = input) ∧
            (fs s2 !! output = None → input = input) ∧
            (∀ out_bytes, fs s2 !! output = Some out_bytes →
               barely_smaller (size_mb in_bytes) (size_mb out_bytes) = true ∨
               Z.of_N in_bytes < 2 ^ 48 ∧ (9 * in_bytes < 10 * out_bytes)%N →
               input = input) ∧
            (∃ out_bytes, fs s2 !! input = Some out_bytes ∧ (out_bytes ≤ in_bytes)%N))
      as Hinput.
    { do 5 (split; [by auto|]). by exists in_bytes. }
    destruct (ff_returncode ff =? 0) eqn:Hrc; simpl.
    - destruct (fs s2 !! output) as [out_bytes|] eqn:Ho.
      + destruct (barely_smaller (size_mb in_bytes) (size_mb out_bytes)) eqn:Hq.
        * by exists input.
        * exists output. split; [by right|]. split; [done|].
          split; [apply Z.eqb_eq in Hrc; done|]. split; [done|]. split.
          -- intros ob [= <-] [Hlt|[Hsz Hlt]]; [congruence|].
             by rewrite (barely_smaller_true in_bytes out_bytes) in Hq.
          -- exists out_bytes. split; [done|].
             pose proof (barely_smaller_false in_bytes out_bytes Hpos Hq). lia.
      + by exists input.
    - by exists input. }
  exists p, s2. split; [done|]. split; [done|]. split; [done|]. split; [done|].
  split; [done|]. split; [done|]. split; [done|]. split.
  - intros ib ob [= <-]. apply Hsz.
  - by intros ib [= <-].
Qed.

(** C3 (counterexample). Three runs on an item whose original is 20 MiB.
    (1) The tool is present and leaves an output of 30 MiB: the output is
    rejected and the input path returned, but the output stays on disk.
    (2) In the next run the tool is missing: the path returned is that of
    the 30 MiB file, not of the input, and it is larger than the input.
    (3) From the first state again, the diagnostic output holds no duration
    and the tool leaves an output of 5 MiB: that is no failure, the
    compressed path is returned.
    (4) Without a resume record for the item the call raises [KeyError]
    at line 293, before the [try] block. *)
Lemma compress_video_not_always_original :
  let rec := {| status := "downloading"; start_time := ""; rr_dish_name := "Soup";
                video_path := None |} in
  let st := {| recipes := []; used_recipes := ∅; resume_data := [("7", rec)];
               fs := {[ original_path "7" := 20971520%N ]};
               catalog_file := None; used_recipes_file := None;
               resume_data_file := None; trace := [] |} in
  let larger := {| ff_version := VersionOk; ff_stderr := "Duration: 00:01:30";
                   ff_returncode := 0; ff_output := Some 31457280%N |} in
  let missing := {| ff_version := VersionMissing; ff_stderr := "";
                    ff_returncode := 1; ff_output := None |} in
  let no_duration := {| ff_version := VersionOk; ff_stderr := "Duration: N/A";
                        ff_returncode := 0; ff_output := Some 5242880%N |} in
  ∃ st1 st2 st3,
    compress_video larger (original_path "7") "7" st = (Ok (original_path "7"), st1) ∧
    compress_video missing (original_path "7") "7" st1 = (Ok (compressed_path "7"), st2) ∧
    compressed_path "7" ≠ original_path "7" ∧
    fs st2 !! original_path "7" = Some 20971520%N ∧
    fs st2 !! compressed_path "7" = Some 31457280%N ∧
    compress_video no_duration (original_path "7") "7" st = (Ok (compressed_path "7"), st3) ∧
    compress_video missing (original_path "7") "7" (set_resume_data [] st)
      = (Raise KeyError, set_resume_data [] st).
Proof.
  intros rec st larger missing no_duration.
  eexists _, _, _. split; [vm_compute; reflexivity|].
  split; [vm_compute; reflexivity|].
  split; [apply compressed_ne_original|].
  split; [vm_compute; reflexivity|].
  split; [vm_compute; reflexivity|].
  split; [vm_compute; reflexivity|reflexivity].
Qed.

(** C3 (amended). For an item with a resume record, [compress_video]
    returns a path. When a compressed artifact larger than 1 MiB is already
    there, that artifact is returned as it is. Otherwise the input path is
    returned unchanged when the tool is absent or fails its probe, when it
    exits non-zero, when there is no output file, when the output passes
    the test of line 366 (the output in MB exceeds the input in MB times
    0.9, in floats), which below [2 ^ 48] bytes of input is when ten times
    the output exceeds nine times the input, when the duration is zero, and
    when the input cannot be read; and the returned file is no larger than
    the input. A diagnostic output without the pattern is no failure: the
    duration is 120, the run is the run of an output that reads 00:02:00,
    and for an input of at least 10 MiB and a tool that answers its probe
    the encoder is called at the rate of 120 seconds. Whenever the input
    exists, so does the returned file. *)
Theorem compress_video_fallback ff input rid st rec :
  dict_get rid (resume_data st) = Some rec →
  ∃ p st',
    compress_video ff input rid st = (Ok p, st') ∧
    (∀ sz, fs st !! compressed_path rid = Some sz → (MiB < sz)%N →
       p = compressed_path rid ∧ fs st' = fs st) ∧
    ((∀ sz, fs st !! compressed_path rid = Some sz → (sz ≤ MiB)%N) →
       (ff_version ff ≠ VersionOk → p = input) ∧
       (ff_returncode ff ≠ 0 → p = input) ∧
       (fs st' !! compressed_path rid = None → p = input) ∧
       (∀ in_bytes out_bytes,
          fs st !! input = Some in_bytes →
          fs st' !! compressed_path rid = Some out_bytes →
          barely_smaller (size_mb in_bytes) (size_mb out_bytes) = true → p = input) ∧
       (∀ in_bytes out_bytes,
          fs st !! input = Some in_bytes →
          fs st' !! compressed_path rid = Some out_bytes →
          Z.of_N in_bytes < 2 ^ 48 →
          (9 * in_bytes < 10 * out_bytes)%N → p = input) ∧
       (duration_seconds (ff_stderr ff) = 0 → p = input) ∧
       (fs st !! input = None → p = input) ∧
       (∀ in_bytes,
          fs st !! input = Some in_bytes →
          ∃ out_bytes, fs st' !! p = Some out_bytes ∧ (out_bytes ≤ in_bytes)%N) ∧
       (pattern_free (ff_stderr ff) →
          duration_seconds (ff_stderr ff) = 120 ∧
          compress_video (with_stderr "Duration: 00:02:00" ff) input rid st
          = (Ok p, st') ∧
          ∀ in_bytes,
            ff_version ff = VersionOk →
            fs st !! input = Some in_bytes → (10 * MiB ≤ in_bytes)%N →
            ∃ saved maxrate bufsize,
              trace st'
              = trace st ++ [EvSaveResume saved; EvFfmpegVersion; EvFfmpegProbe input;
                             EvFfmpegEncode input (target_bitrate (size_mb in_bytes) 120)
                               maxrate bufsize (compressed_path rid)])) ∧
    (is_Some (fs st !! input) → is_Some (fs st' !! p)).
Proof.
  intros Hrec.
  assert (∀ p st',
            compress_video ff input rid st = (Ok p, st') →
            (∀ sz, fs st !! compressed_path rid = Some sz → (sz ≤ MiB)%N) →
            pattern_free (ff_stderr ff) →
            duration_seconds (ff_stderr ff) = 120 ∧
            compress_video (with_stderr "Duration: 00:02:00" ff) input rid st
            = (Ok p, st') ∧
            ∀ in_bytes,
              ff_version ff = VersionOk →
              fs st !! input = Some in_bytes → (10 * MiB ≤ in_bytes)%N →
              ∃ saved maxrate bufsize,
                trace st'
                = trace st ++ [EvSaveResume saved; EvFfmpegVersion; EvFfmpegProbe input;
                               EvFfmpegEncode input (target_bitrate (size_mb in_bytes) 120)
                                 maxrate bufsize (compressed_path rid)]) as Hfree.
  { intros p st' Hrun Hcache Hpat.
    pose proof (duration_seconds_free _ Hpat) as Hd.
    split; [done|]. split.
    - rewrite <- Hrun. apply compress_video_duration. by rewrite Hd.
    - intros in_bytes Hv Hin Hbig.
      destruct (compress_video_reaches_encoder ff input rid st rec in_bytes)
        as (saved & maxrate & bufsize & Ht); try done.
      { rewrite Hd. done. }
      rewrite Hrun, Hd in Ht. by exists saved, maxrate, bufsize. }
  revert Hfree. unfold compress_video. rewrite Hrec.
  set (st0 := compress_entry rid rec st). intros Hfree.
  assert (fs st0 = fs st) as Hfs0 by done.
  destruct (fs st0 !! compressed_path rid) as [sz|] eqn:Hc; rewrite Hfs0 in Hc.
  - destruct (MiB <? sz)%N eqn:Hsz.
    + exists (compressed_path rid), st0. split; [done|]. split; [by intros|].
      split.
      * intros Hsmall. specialize (Hsmall _ Hc). apply N.ltb_lt in Hsz. lia.
      * intros _. rewrite Hfs0, Hc. by eexists.
    + apply N.ltb_ge in Hsz.
      destruct (run_compression_spec ff input (compressed_path rid) st0)
        as (p & st' & Hrun & Hp & H1 & H2 & H3 & H4 & H5 & H6 & H7).
      { rewrite Hfs0, Hc. by intros ? [= <-]. }
      rewrite Hfs0 in *.
      exists p, st'. split; [done|].
      split; [intros sz0 Hsz0 ?; rewrite Hc in Hsz0; injection Hsz0 as <-; lia|].
      split.
      * intros Hcache. do 3 (split; [done|]).
        split; [intros ib ob Hi Ho Hb; by apply (H6 ib ob Hi Ho); left|].
        split; [intros ib ob Hi Ho Hs Hb; by apply (H6 ib ob Hi Ho); right|].
        do 3 (split; [done|]). by apply Hfree.
      * intros [ib Hib]. destruct (H7 _ Hib) as (ob & Hob & _). by eexists.
  - destruct (run_compression_spec ff input (compressed_path rid) st0)
      as (p & st' & Hrun & Hp & H1 & H2 & H3 & H4 & H5 & H6 & H7).
    { rewrite Hfs0, Hc. done. }
    rewrite Hfs0 in *.
    exists p, st'. split; [done|].
    split; [by intros ? Hx; rewrite Hc in Hx|]. split.
    + intros Hcache. do 3 (split; [done|]).
      split; [intros ib ob Hi Ho Hb; by apply (H6 ib ob Hi Ho); left|].
      split; [intros ib ob Hi Ho Hs Hb; by apply (H6 ib ob Hi Ho); right|].
      do 3 (split; [done|]). by apply Hfree.
    + intros [ib Hib]. destruct (H7 _ Hib) as (ob & Hob & _). by eexists.
Qed.

(** ** Backoff *)

Lemma backoff_app rc rc' rc'' e1 e2 :
  backoff rc rc' e1 → backoff rc' rc'' e2 → backoff rc rc'' (e1 ++ e2).
Proof.
  induction 1; intros H2; simpl; [done|..].
  - apply backoff_skip; auto.
  - apply backoff_chunk; auto.
  - apply backoff_retry; auto.
Qed.

Lemma backoff_le rc rc' evs : backoff rc rc' evs → rc ≤ rc'.
Proof. induction 1; lia. Qed.

Lemma retry_delay_mono c k k' : 0 ≤ k → k ≤ k' → retry_delay c k ≤ retry_delay c k'.
Proof.
  intros H0 Hle. unfold retry_delay.
  assert (2 ^ k ≤ 2 ^ k') by (apply Z.pow_le_mono_r; lia).
  destruct c; lia.
Qed.

Lemma retry_delay_cap c k : retry_delay c k ≤ retry_cap c.
Proof. unfold retry_delay. destruct c; simpl; lia. Qed.

(** The attempt counts behind the delays of a class. *)
Lemma backoff_attempts rc rc' evs c :
  backoff rc rc' evs →
  ∃ ks,
    class_delays c evs = map (retry_delay c) ks ∧
    Forall (fun k => rc + first_attempt c ≤ k ≤ rc') ks ∧
    StronglySorted Z.le ks ∧
    (c ≠ ChunkTimeoutRetry → StronglySorted Z.lt ks).
Proof.
  induction 1 as [rc|rc rc' e evs He _ IH|rc rc' evs H IH|rc rc' c' evs Hc H IH].
  - exists []. repeat split; constructor.
  - destruct IH as (ks & Hk & Hb & Hs). exists ks. split; [|done].
    destruct e; try done.
  - destruct IH as (ks & Hk & Hb & Hs & Hlt). apply backoff_le in H.
    cbn [class_delays]. destruct (decide (ChunkTimeoutRetry = c)) as [<-|Hne].
    + exists (rc :: ks). split; [cbn [map]; by rewrite Hk|]. simpl in *. split.
      * constructor; [lia|done].
      * split; [|done]. constructor; [done|].
        eapply Forall_impl; [exact Hb|]. simpl. lia.
    + by exists ks.
  - destruct IH as (ks & Hk & Hb & Hs & Hlt). apply backoff_le in H.
    cbn [class_delays]. destruct (decide (c' = c)) as [<-|Hne].
    + exists (rc + 1 :: ks). split; [cbn [map]; by rewrite Hk|]. split.
      * constructor; [destruct c'; simpl; try done; lia|].
        eapply Forall_impl; [exact Hb|]. simpl. lia.
      * split.
        -- constructor; [done|]. eapply Forall_impl; [exact Hb|].
           simpl. destruct c'; simpl; lia.
        -- intros _. constructor; [by apply Hlt|].
           eapply Forall_impl; [exact Hb|]. simpl. destruct c'; simpl; try done; lia.
    + exists ks. split; [done|]. split; [|done].
      eapply Forall_impl; [exact Hb|]. simpl. lia.
Qed.

Lemma map_sorted (f : Z → Z) (ks : list Z) :
  (∀ k k', In k ks → k ≤ k' → f k ≤ f k') →
  StronglySorted Z.le ks → StronglySorted Z.le (map f ks).
Proof.
  intros Hf. induction 1 as [|k ks Hs IH Hall]; simpl; constructor.
  - apply IH. intros a b Ha. apply Hf. by right.
  - apply Forall_map. eapply Forall_impl; [exact Hall|]. simpl.
    intros b Hb. apply Hf; [by left|done].
Qed.

(** The delays of every class are non-decreasing and stay under the cap. *)
Lemma backoff_sorted rc rc' evs c :
  0 ≤ rc →
  backoff rc rc' evs →
  StronglySorted Z.le (class_delays c evs) ∧
  Forall (fun d => d ≤ retry_cap c) (class_delays c evs).
Proof.
  intros H0 H. destruct (backoff_attempts rc rc' evs c H) as (ks & -> & Hb & Hs & _).
  split.
  - apply map_sorted; [|done]. intros k k' Hin Hle.
    apply retry_delay_mono; [|done].
    rewrite Forall_forall in Hb. specialize (Hb k).
    assert (k ∈ ks) as Hk by (by apply list_elem_of_In).
    specialize (Hb Hk). destruct c; simpl in Hb; lia.
  - apply Forall_map. apply Forall_forall. intros k _. apply retry_delay_cap.
Qed.

Lemma download_chunks_backoff rc chunks buf st r st' :
  download_chunks rc chunks buf st = (r, st') →
  ∃ evs, trace st' = trace st ++ evs ∧ backoff rc rc evs.
Proof.
  revert buf st. induction chunks as [|c chunks IH]; intros buf st; simpl.
  - intros [= _ <-]. exists []. split; [by rewrite app_nil_r|constructor].
  - assert (∀ b s, trace s = trace st ++ [EvDriveChunk] →
              download_chunks rc chunks b s = (r, st') →
              ∃ evs, trace st' = trace st ++ evs ∧ backoff rc rc evs) as Hnext.
    { intros b s Hs H. apply IH in H as (evs & Ht & Hb).
      exists (EvDriveChunk :: evs). split; [by rewrite Ht, Hs, <- app_assoc|].
      by apply backoff_skip. }
    destruct c as [[n []]|[]].
    + intros [= _ <-]. exists [EvDriveChunk]. split; [done|].
      apply backoff_skip; [done|constructor].
    + by apply Hnext.
    + intros H. apply IH in H as (evs & Ht & Hb).
      exists (EvDriveChunk :: EvSleep ChunkTimeoutRetry (chunk_timeout_delay rc) :: evs).
      split; [rewrite Ht; cbn; by rewrite <- !app_assoc|].
      apply backoff_skip; [done|]. by apply backoff_chunk.
    + intros [= _ <-]. exists [EvDriveChunk]. split; [done|].
      apply backoff_skip; [done|constructor].
    + intros [= _ <-]. exists [EvDriveChunk]. split; [done|].
      apply backoff_skip; [done|constructor].
Qed.

Lemma download_attempts_backoff max_retries drive fid path rc st r st' :
  download_attempts max_retries drive fid path rc st = (r, st') →
  ∃ rc' evs, trace st' = trace st ++ evs ∧ backoff rc rc' evs.
Proof.
  revert rc st. induction drive as [|a drive IH]; intros rc st; simpl.
  - destruct (rc <? max_retries); intros [= _ <-];
      exists rc, []; (split; [by rewrite app_nil_r|constructor]).
  - destruct (rc <? max_retries);
      [|intros [= _ <-]; exists rc, []; (split; [by rewrite app_nil_r|constructor])].
    assert (∀ c e s evs,
              c ≠ ChunkTimeoutRetry →
              trace s = trace st ++ evs → backoff rc rc evs →
              (if rc + 1 <? max_retries
               then download_attempts max_retries drive fid path (rc + 1)
                      (emit (EvSleep c (retry_delay c (rc + 1))) s)
               else (Raise e, s)) = (r, st') →
              ∃ rc' evs, trace st' = trace st ++ evs ∧ backoff rc rc' evs) as Hretry.
    { intros c e s evs Hc Hs Hb. destruct (rc + 1 <? max_retries).
      - intros H. apply IH in H as (rc' & evs' & Ht & Hb').
        exists rc', (evs ++ EvSleep c (retry_delay c (rc + 1)) :: evs').
        split; [rewrite Ht; cbn; by rewrite Hs, <- !app_assoc|].
        eapply backoff_app; [exact Hb|]. by apply backoff_retry.
      - intros [= _ <-]. by exists rc, evs. }
    assert (backoff rc rc [EvDriveRequest fid]) as Hreq
      by (apply backoff_skip; [done|constructor]).
    destruct (da_request a) as [[]|f].
    + destruct (download_chunks _ _ _ _) as [res s] eqn:Hch.
      apply download_chunks_backoff in Hch as (evs & Ht & Hb).
      assert (trace s = trace st ++ EvDriveRequest fid :: evs) as Hs.
      { rewrite Ht. cbn. by rewrite <- app_assoc. }
      assert (backoff rc rc (EvDriveRequest fid :: evs)) as Hb'
        by (by apply backoff_skip).
      destruct res as [size|e|].
      * intros [= _ <-]. exists rc, (EvDriveRequest fid :: evs ++ [EvWriteFile path size]).
        split; [cbn; rewrite Hs; by rewrite <- !app_assoc|].
        apply backoff_skip; [done|]. eapply backoff_app; [exact Hb|].
        apply backoff_skip; [done|constructor].
      * destruct e;
          first [ by apply (Hretry DownloadTimeoutRetry _ s (EvDriveRequest fid :: evs))
                | by apply (Hretry DownloadErrorRetry _ s (EvDriveRequest fid :: evs)) ].
      * intros [= _ <-]. by exists rc, (EvDriveRequest fid :: evs).
    + destruct f; simpl;
        first [ by apply (Hretry DownloadTimeoutRetry _ _ [EvDriveRequest fid])
              | by apply (Hretry DownloadErrorRetry _ _ [EvDriveRequest fid]) ].
Qed.

Lemma backoff_snoc rc rc' evs e :
  backoff rc rc' evs → is_sleep e = false → backoff rc rc' (evs ++ [e]).
Proof.
  intros H He. eapply backoff_app; [exact H|]. apply backoff_skip; [done|constructor].
Qed.

Lemma download_video_backoff max_retries drive now recipe st r st' :
  download_video max_retries drive now recipe st = (r, st') →
  ∃ rc' evs, trace st' = trace st ++ evs ∧ backoff 0 rc' evs.
Proof.
  unfold download_video.
  set (st0 := save_resume_data _).
  assert (trace st0 = trace st ++ [EvSaveResume (resume_data st0)]) as Ht0 by done.
  assert (backoff 0 0 [EvSaveResume (resume_data st0)]) as Hb0
    by (apply backoff_skip; [done|constructor]).
  assert (match extract_file_id (public_url recipe) with
          | Some file_id =>
              if String.eqb file_id "" then (Raise ValueError, st0)
              else download_attempts max_retries drive file_id
                     (original_path (str_id (id recipe))) 0 st0
          | None => (Raise ValueError, st0)
          end = (r, st') →
          ∃ rc' evs, trace st' = trace st ++ evs ∧ backoff 0 rc' evs) as Hfetch.
  { destruct (extract_file_id _) as [fid|]; [|intros [= _ <-]; by eexists _, _].
    destruct (String.eqb fid ""); [intros [= _ <-]; by eexists _, _|].
    intros H. apply download_attempts_backoff in H as (rc' & evs & Ht & Hb).
    exists rc', (EvSaveResume (resume_data st0) :: evs).
    split; [by rewrite Ht, Ht0, <- app_assoc|]. by apply backoff_skip. }
  destruct (fs st0 !! _) as [sz|]; [|exact Hfetch].
  destruct (_ <? _)%N; [intros [= _ <-]; by eexists _, _|exact Hfetch].
Qed.

Lemma upload_class_delay c k :
  is_upload_class c = true →
  c ≠ ChunkTimeoutRetry ∧ upload_delay k = retry_delay c k.
Proof. by destruct c. Qed.

Lemma upload_loop_backoff max_retries youtube l st r l' st' :
  upload_loop max_retries youtube l st = (r, l', st') →
  ∃ evs, trace st' = trace st ++ evs ∧ backoff (retry_count l) (retry_count l') evs.
Proof.
  revert l st. induction youtube as [|y youtube IH]; intros l st; simpl.
  - destruct (loop_guard _ _); intros [= _ <- <-];
      exists []; (split; [by rewrite app_nil_r|constructor]).
  - destruct (loop_guard _ _);
      [|intros [= _ <- <-]; exists []; (split; [by rewrite app_nil_r|constructor])].
    pose proof (upload_pass_trace max_retries y l st) as [_ Ht].
    assert (∃ evs, trace (pass_state (upload_pass max_retries y l st)) = trace st ++ evs ∧
                   backoff (retry_count l)
                     (retry_count (pass_loop (upload_pass max_retries y l st))) evs)
      as (evs & Hevs & Hb).
    { destruct Ht as [[Ht ->]|(c & Hc & Ht & ->)].
      - exists [EvYoutubeChunk]. split; [done|]. apply backoff_skip; [done|constructor].
      - eexists. split; [exact Ht|]. apply backoff_skip; [done|].
        destruct (upload_class_delay c (retry_count l + 1) Hc) as [Hne ->].
        apply backoff_retry; [done|constructor]. }
    destruct (upload_pass max_retries y l st) as [l1 st1|e l1 st1]; simpl in *.
    + intros H. apply IH in H as (evs' & Ht' & Hb').
      exists (evs ++ evs'). split; [by rewrite Ht', Hevs, <- app_assoc|].
      by eapply backoff_app.
    + intros [= _ <- <-]. by exists evs.
Qed.

Lemma upload_to_youtube_backoff max_retries youtube today video_path recipe st r st' :
  upload_to_youtube max_retries youtube today video_path recipe st = (r, st') →
  ∃ rc' evs, trace st' = trace st ++ evs ∧ backoff 0 rc' evs.
Proof.
  unfold upload_to_youtube.
  destruct (dict_get _ _) as [rec|];
    [|intros [= _ <-]; exists 0, []; (split; [by rewrite app_nil_r|constructor])].
  set (st0 := upload_entry video_path recipe rec st).
  assert (trace st0 = trace st ++ [EvSaveResume (resume_data st0)]) as Ht0 by done.
  assert (backoff 0 0 [EvSaveResume (resume_data st0)]) as Hb0
    by (apply backoff_skip; [done|constructor]).
  destruct (fs st0 !! video_path); [|intros [= _ <-]; by eexists _, _].
  destruct (upload_loop _ _ _ _) as [[r1 l1] st1] eqn:Hloop.
  apply upload_loop_backoff in Hloop as (evs & Ht & Hb).
  assert (∃ evs1, trace st1 = trace st ++ evs1 ∧ backoff 0 (retry_count l1) evs1)
    as (evs1 & Ht1 & Hb1).
  { eexists. split.
    - rewrite Ht. cbn [trace emit]. rewrite Ht0, <- !app_assoc. reflexivity.
    - simpl. apply backoff_skip; [done|]. by apply backoff_skip. }
  destruct r1 as [[]|e|]; [|intros [= _ <-]; by eexists _, _..].
  unfold finish_upload.
  destruct (response l1) as [resp|]; [|intros [= _ <-]; by eexists _, _].
  destruct (bool_decide _); [intros [= _ <-]; by eexists _, _|].
  destruct (resp !! "id"); [|intros [= _ <-]; by eexists _, _].
  intros [= _ <-].
  match goal with
  | |- context [match ?x with Some _ => _ | None => _ end] => destruct x
  end.
  - eexists _, (evs1 ++ [_; _]). split.
    + cbn. rewrite Ht1, <- !app_assoc. reflexivity.
    + eapply backoff_app; [exact Hb1|].
      apply backoff_skip; [done|]. apply backoff_skip; [done|constructor].
  - eexists _, (evs1 ++ [_]). split.
    + cbn. rewrite Ht1, <- !app_assoc. reflexivity.
    + by apply backoff_snoc.
Qed.

(** The sleeps of the counting handlers are numbered from the counter. *)
Lemma backoff_counted rc rc' evs :
  backoff rc rc' evs →
  counted_sleeps evs = numbered_delays (rc + 1) (map fst (counted_sleeps evs)).
Proof.
  induction 1 as [rc|rc rc' e evs He _ IH|rc rc' evs H IH|rc rc' c evs Hc H IH].
  - done.
  - destruct e; try done.
  - done.
  - cbn [counted_sleeps]. destruct (decide (c = ChunkTimeoutRetry)); [done|].
    cbn [map fst numbered_delays]. by rewrite <- IH.
Qed.

(** C7. The code at the failing input: a download, with the default of
    five attempts, of a file of 200000 bytes that comes in one chunk after
    [next_chunk] has timed out twice. The handler of lines 250-253, which
    the code comments as exponential backoff, sleeps
    [min(2 ** retry_count, 30)] and does not advance [retry_count]: the
    two sleeps last one second each and the attempt is still the first,
    where the claim has [min(2 ^ attempt, 60)] at the attempt counts 1 and
    2, that is 2 and 4 seconds, and one second at no count. *)
Theorem chunk_timeout_delay_is_flat :
  let recipe := {| id := IdInt 7; dish_name := "Soup";
                   public_url := "https://drive.google.com/file/d/ABC/view";
                   ingredients := []; instructions := []; prep_time := "";
                   cook_time := ""; yield := ""; dish_type := "";
                   taste_category := "" |} in
  let st := {| recipes := []; used_recipes := ∅; resume_data := []; fs := ∅;
               catalog_file := None; used_recipes_file := None;
               resume_data_file := None; trace := [] |} in
  let drive := [{| da_request := Returned tt;
                   da_chunks := [Failed FTimeout; Failed FTimeout;
                                 Returned (200000%N, true)] |}] in
  let run := download_video download_max_retries drive "" recipe st in
  run.1 = Ok (original_path "7") ∧
  fs run.2 !! original_path "7" = Some 200000%N ∧
  class_delays ChunkTimeoutRetry (trace run.2) = [1; 1] ∧
  count is_request run.2 = 1 ∧
  count is_drive_chunk run.2 = 3 ∧
  map (fun attempt => Z.min (2 ^ attempt) 60) [1; 2] = [2; 4] ∧
  ∀ attempt, 1 ≤ attempt → Z.min (2 ^ attempt) 60 ≠ 1.
Proof.
  do 5 (split; [vm_compute; reflexivity|]).
  split; [reflexivity|].
  intros attempt H.
  assert (2 ^ 1 ≤ 2 ^ attempt) by (apply Z.pow_le_mono_r; lia). lia.
Qed.

(** X29. In every run of the downloader and of the uploader, the sleeps of
    the handlers that count the attempt are numbered from one: the i-th of
    them lasts the delay of its handler at the count i, which is
    [min(2^i, 60)] for the downloader's attempt timeouts, ten seconds for
    its other errors and [min(2^i, 120)] for the uploader's timeouts,
    stalls, server errors and other errors. The delays of a class never
    decrease and never exceed its cap, and the uploader's cap is larger
    than the downloader's. *)
Theorem retry_delays_exact :
  (∀ max_retries drive now recipe st,
     let st' := (download_video max_retries drive now recipe st).2 in
     ∃ evs,
       trace st' = trace st ++ evs ∧
       counted_sleeps evs = numbered_delays 1 (map fst (counted_sleeps evs)) ∧
       ∀ c, StronglySorted Z.le (class_delays c evs) ∧
            Forall (fun d => d ≤ retry_cap c) (class_delays c evs)) ∧
  (∀ max_retries youtube today video_path recipe st,
     let st' := (upload_to_youtube max_retries youtube today video_path recipe st).2 in
     ∃ evs,
       trace st' = trace st ++ evs ∧
       counted_sleeps evs = numbered_delays 1 (map fst (counted_sleeps evs)) ∧
       ∀ c, StronglySorted Z.le (class_delays c evs) ∧
            Forall (fun d => d ≤ retry_cap c) (class_delays c evs)) ∧
  (∀ attempt,
     retry_delay DownloadTimeoutRetry attempt = Z.min (2 ^ attempt) 60 ∧
     retry_delay DownloadErrorRetry attempt = 10 ∧
     retry_delay UploadTimeoutRetry attempt = Z.min (2 ^ attempt) 120 ∧
     retry_delay UploadServerRetry attempt = Z.min (2 ^ attempt) 120 ∧
     retry_delay UploadErrorRetry attempt = Z.min (2 ^ attempt) 120) ∧
  retry_cap DownloadTimeoutRetry < retry_cap UploadTimeoutRetry.
Proof.
  assert (∀ rc' evs, backoff 0 rc' evs →
            counted_sleeps evs = numbered_delays 1 (map fst (counted_sleeps evs)) ∧
            ∀ c, StronglySorted Z.le (class_delays c evs) ∧
                 Forall (fun d => d ≤ retry_cap c) (class_delays c evs)) as Hlog.
  { intros rc' evs Hb. split; [by apply (backoff_counted 0 rc')|].
    intros c. by apply (backoff_sorted 0 rc'). }
  split; [|split; [|split; [|done]]].
  - intros max_retries drive now recipe st st'. subst st'.
    destruct (download_video _ _ _ _ _) as [r st'] eqn:H.
    apply download_video_backoff in H as (rc' & evs & Ht & Hb).
    destruct (Hlog rc' evs Hb) as [H1 H2]. by exists evs.
  - intros max_retries youtube today video_path recipe st st'. subst st'.
    destruct (upload_to_youtube _ _ _ _ _ _) as [r st'] eqn:H.
    apply upload_to_youtube_backoff in H as (rc' & evs & Ht & Hb).
    destruct (Hlog rc' evs Hb) as [H1 H2]. by exists evs.
  - done.
Qed.

(** The numbering: three retries of the uploader from the first count on,
    three of the downloader from the fifth. *)
Example retry_delays_numbered :
  numbered_delays 1 [UploadTimeoutRetry; UploadServerRetry; UploadErrorRetry]
  = [(UploadTimeoutRetry, 2); (UploadServerRetry, 4); (UploadErrorRetry, 8)] ∧
  numbered_delays 5 [DownloadTimeoutRetry; DownloadErrorRetry; DownloadTimeoutRetry]
  = [(DownloadTimeoutRetry, 32); (DownloadErrorRetry, 10); (DownloadTimeoutRetry, 60)].
Proof. split; reflexivity. Qed.

(** ** The theorems at the sample runs *)

Lemma process_single_recipe_already_uploaded_witness :
  ∃ st',
    process_single_recipe Sample.env (Some "7") Sample.published = (Ok None, st') ∧
    used_recipes st' = used_recipes Sample.published ∧
    resume_data st' = resume_data Sample.published ∧
    fs st' = fs Sample.published ∧
    used_recipes_file st' = used_recipes_file Sample.published ∧
    resume_data_file st' = resume_data_file Sample.published ∧
    trace st' = trace Sample.published.
Proof.
  apply (process_single_recipe_already_uploaded Sample.env "7" Sample.published).
  - discriminate.
  - change ("7" ∈ ({[ "7" ]} : gset string)). by apply elem_of_singleton_2.
Defined.

Lemma download_video_idempotent_witness :
  (∃ st' evs,
     download_video download_max_retries [] "later" Sample.recipe Sample.downloaded
       = (Ok (original_path "7"), st') ∧
     trace st' = trace Sample.downloaded ++ evs ∧ existsb is_fetch evs = false) ∧
  (∃ st2 evs,
     download_video download_max_retries [] "later" Sample.recipe
       (download_video download_max_retries (env_drive Sample.env) "now"
          Sample.recipe Sample.fresh).2
       = (Ok (original_path "7"), st2) ∧
     trace st2
       = trace (download_video download_max_retries (env_drive Sample.env) "now"
                  Sample.recipe Sample.fresh).2 ++ evs ∧
     existsb is_fetch evs = false ∧
     fs st2 = fs (download_video download_max_retries (env_drive Sample.env) "now"
                    Sample.recipe Sample.fresh).2).
Proof.
  split.
  - apply (proj1 (download_video_idempotent download_max_retries "later"
                    Sample.recipe Sample.downloaded) [] 20971520%N).
    + vm_compute. reflexivity.
    + vm_compute. reflexivity.
  - apply (proj2 (download_video_idempotent download_max_retries "now"
                    Sample.recipe Sample.fresh)
             (env_drive Sample.env) (original_path "7") _ 20971520%N [] "later").
    + vm_compute. reflexivity.
    + vm_compute. reflexivity.
    + vm_compute. reflexivity.
Defined.

Lemma client_error_no_retry_witness :
  let l1 := Sample.loop_before_error.1.2 in
  let s1 := Sample.loop_before_error.2 in
  let youtube := Sample.before_error ++ [Failed (FHttp 403)] in
  let st' := emit EvYoutubeChunk s1 in
  upload_loop upload_max_retries youtube loop_init
    (upload_start "2024-01-01" (compressed_path "7") Sample.recipe Sample.uploading
       Sample.interrupted)
    = (Raise (HttpError 403), l1, st') ∧
  upload_to_youtube upload_max_retries youtube "2024-01-01" (compressed_path "7")
    Sample.recipe Sample.interrupted
    = (Raise (HttpError 403), st') ∧
  trace st' = trace s1 ++ [EvYoutubeChunk] ∧
  used_recipes st' = used_recipes Sample.interrupted ∧
  used_recipes_file st' = used_recipes_file Sample.interrupted ∧
  dict_get (str_id (id Sample.recipe)) (resume_data st')
    = Some {| status := "uploading"; start_time := start_time Sample.uploading;
              rr_dish_name := rr_dish_name Sample.uploading;
              video_path := Some (compressed_path "7") |}.
Proof.
  apply (client_error_no_retry upload_max_retries "2024-01-01" (compressed_path "7")
           Sample.recipe Sample.interrupted Sample.uploading Sample.before_error
           403 []).
  - vm_compute. reflexivity.
  - exists 9000000%N. vm_compute. reflexivity.
  - reflexivity.
  - vm_compute. reflexivity.
Defined.

Lemma resume_skips_to_upload_witness :
  stage_artifact Sample.env Sample.recipe Sample.interrupted
    = (Ok (compressed_path "7"), Sample.interrupted) ∧
  process_single_recipe Sample.env None Sample.interrupted
  = match upload_to_youtube upload_max_retries (env_youtube Sample.env)
            (clock_date (env_clock Sample.env)) (compressed_path "7")
            Sample.recipe Sample.interrupted with
    | (Ok url, st2) => (Ok (Some url), cleanup (str_id (id Sample.recipe)) st2)
    | (Raise _, st2) => (Ok None, st2)
    | (Pending, st2) => (Pending, st2)
    end ∧
  ∃ evs,
    trace (process_single_recipe Sample.env None Sample.interrupted).2
    = trace Sample.interrupted
        ++ [EvSaveResume (dict_set (str_id (id Sample.recipe))
                            (set_uploading (compressed_path "7") Sample.uploading)
                            (resume_data Sample.interrupted));
            EvYoutubeInsert
              (request_body (clock_date (env_clock Sample.env)) Sample.recipe)
              (compressed_path "7")]
        ++ evs.
Proof.
  apply (resume_skips_to_upload Sample.env None Sample.interrupted Sample.interrupted
           Sample.recipe Sample.uploading (compressed_path "7")).
  - reflexivity.
  - vm_compute. reflexivity.
  - vm_compute. reflexivity.
  - reflexivity.
  - reflexivity.
  - discriminate.
  - exists 9000000%N. vm_compute. reflexivity.
Defined.

Lemma target_bitrate_formula_witness :
  let duration := duration_seconds (ff_stderr Sample.ffmpeg) in
  let rate := spec_target_bitrate (size_mb 20971520) duration in
  (∃ saved maxrate bufsize,
     trace (compress_video Sample.ffmpeg (original_path "7") "7" Sample.downloaded).2
     = trace Sample.downloaded
         ++ [EvSaveResume saved; EvFfmpegVersion; EvFfmpegProbe (original_path "7");
             EvFfmpegEncode (original_path "7") rate maxrate bufsize
               (compressed_path "7")]) ∧
  (4 * Z.of_N 20971520 < 2 ^ 34 * duration →
   rate = (4 * Z.of_N 20971520) / duration) ∧
  (pattern_free (ff_stderr Sample.ffmpeg) → duration = 120) ∧
  (∀ pre a b c d e f,
     leftmost_at (ff_stderr Sample.ffmpeg) pre a b c d e f →
     duration = hms_seconds a b c d e f).
Proof.
  apply (target_bitrate_formula Sample.ffmpeg (original_path "7") "7"
           Sample.downloaded Sample.downloading 20971520%N).
  - vm_compute. reflexivity.
  - intros sz H. vm_compute in H. discriminate.
  - reflexivity.
  - vm_compute. reflexivity.
  - vm_compute. discriminate.
  - vm_compute. discriminate.
Defined.

Lemma compress_video_fallback_witness :
  ∃ p st',
    compress_video Sample.ffmpeg (original_path "7") "7" Sample.downloaded = (Ok p, st') ∧
    (∀ sz, fs Sample.downloaded !! compressed_path "7" = Some sz → (MiB < sz)%N →
       p = compressed_path "7" ∧ fs st' = fs Sample.downloaded) ∧
    ((∀ sz, fs Sample.downloaded !! compressed_path "7" = Some sz → (sz ≤ MiB)%N) →
       (ff_version Sample.ffmpeg ≠ VersionOk → p = original_path "7") ∧
       (ff_returncode Sample.ffmpeg ≠ 0 → p = original_path "7") ∧
       (fs st' !! compressed_path "7" = None → p = original_path "7") ∧
       (∀ in_bytes out_bytes,
          fs Sample.downloaded !! original_path "7" = Some in_bytes →
          fs st' !! compressed_path "7" = Some out_bytes →
          barely_smaller (size_mb in_bytes) (size_mb out_bytes) = true →
          p = original_path "7") ∧
       (∀ in_bytes out_bytes,
          fs Sample.downloaded !! original_path "7" = Some in_bytes →
          fs st' !! compressed_path "7" = Some out_bytes →
          Z.of_N in_bytes < 2 ^ 48 →
          (9 * in_bytes < 10 * out_bytes)%N → p = original_path "7") ∧
       (duration_seconds (ff_stderr Sample.ffmpeg) = 0 → p = original_path "7") ∧
       (fs Sample.downloaded !! original_path "7" = None → p = original_path "7") ∧
       (∀ in_bytes,
          fs Sample.downloaded !! original_path "7" = Some in_bytes →
          ∃ out_bytes, fs st' !! p = Some out_bytes ∧ (out_bytes ≤ in_bytes)%N) ∧
       (pattern_free (ff_stderr Sample.ffmpeg) →
          duration_seconds (ff_stderr Sample.ffmpeg) = 120 ∧
          compress_video (with_stderr "Duration: 00:02:00" Sample.ffmpeg)
            (original_path "7") "7" Sample.downloaded
          = (Ok p, st') ∧
          ∀ in_bytes,
            ff_version Sample.ffmpeg = VersionOk →
            fs Sample.downloaded !! original_path "7" = Some in_bytes →
            (10 * MiB ≤ in_bytes)%N →
            ∃ saved maxrate bufsize,
              trace st'
              = trace Sample.downloaded
                  ++ [EvSaveResume saved; EvFfmpegVersion;
                      EvFfmpegProbe (original_path "7");
                      EvFfmpegEncode (original_path "7")
                        (target_bitrate (size_mb in_bytes) 120)
                        maxrate bufsize (compressed_path "7")])) ∧
    (is_Some (fs Sample.downloaded !! original_path "7") → is_Some (fs st' !! p)).
Proof.
  apply (compress_video_fallback Sample.ffmpeg (original_path "7") "7"
           Sample.downloaded Sample.downloading).
  vm_compute. reflexivity.
Defined.

(** A whole run from a fresh start: download, compression, upload with one
    retry, commit and cleanup. *)
Example fresh_run_publishes :
  let run := process_single_recipe Sample.env None Sample.fresh in
  run.1 = Ok (Some "https://www.youtube.com/watch?v=xyz") ∧
  used_recipes run.2 = {[ "7" ]} ∧
  used_recipes_file run.2 = Some {[ "7" ]} ∧
  resume_data run.2 = [] ∧
  resume_data_file run.2 = Some [] ∧
  fs run.2 = ∅.
Proof. vm_compute. repeat split. Qed.

Lemma ledger_commit_witness :
  (process_single_recipe Sample.env None Sample.fresh).1
    = Ok (Some "https://www.youtube.com/watch?v=xyz") ∧
  match process_single_recipe Sample.env None Sample.fresh with
  | (Ok (Some url), st') =>
      ∃ st1 recipe progress resp vid before after,
        ensure_recipes Sample.fresh = (Ok tt, st1) ∧
        select_recipe Sample.env None st1 = Ok (Some recipe) ∧
        In (Returned (progress, Some resp)) (env_youtube Sample.env) ∧
        resp !! "id" = Some vid ∧
        url = "https://www.youtube.com/watch?v=" +:+ vid ∧
        used_recipes st' = {[str_id (id recipe)]} ∪ used_recipes Sample.fresh ∧
        used_recipes_file st' = Some (used_recipes st') ∧
        dict_get (str_id (id recipe)) (resume_data st') = None ∧
        resume_data_file st' = Some (resume_data st') ∧
        trace st' = trace Sample.fresh ++ before
                      ++ [EvSaveUsed (used_recipes st'); EvSaveResume (resume_data st')]
                      ++ after ∧
        Forall (fun e => is_ledger_write e = false) before ∧
        Forall (fun e => is_remove e = true) after
  | (_, st') => ledger_untouched Sample.fresh st'
  end.
Proof.
  split; [vm_compute; reflexivity|].
  pose proof (ledger_commit Sample.env None Sample.fresh) as [H _].
  exact H.
Defined.

(** * Further properties *)

(** ** Catalog text *)

Lemma remove_char_filter (c : ascii) (s : string) :
  remove_char c s = string_filter (fun x => negb (Ascii.eqb x c)) s.
Proof.
  induction s as [|x s IH]; simpl; [done|].
  destruct (Ascii.eqb x c); simpl; by rewrite IH.
Qed.

Lemma string_filter_filter (f g : ascii → bool) (s : string) :
  string_filter g (string_filter f s) = string_filter (fun x => f x && g x) s.
Proof.
  induction s as [|x s IH]; simpl; [done|].
  destruct (f x); simpl; [destruct (g x); simpl|]; by rewrite IH.
Qed.

Lemma string_filter_ext (f g : ascii → bool) (s : string) :
  (∀ x, f x = g x) → string_filter f s = string_filter g s.
Proof.
  intros H. induction s as [|x s IH]; simpl; [done|]. by rewrite H, IH.
Qed.

Lemma string_filter_app (f : ascii → bool) (a b : string) :
  string_filter f (a +:+ b) = string_filter f a +:+ string_filter f b.
Proof.
  induction a as [|x a IH]; [done|].
  rewrite string_app_cons. simpl. destruct (f x); [|done].
  by rewrite string_app_cons, IH.
Qed.

Lemma string_filter_forall (f : ascii → bool) (s : string) :
  string_forall f (string_filter f s) = true.
Proof.
  induction s as [|x s IH]; simpl; [done|].
  destruct (f x) eqn:E; simpl; by rewrite ?E, ?IH.
Qed.

Lemma string_filter_id (f : ascii → bool) (s : string) :
  string_forall f s = true → string_filter f s = s.
Proof.
  induction s as [|x s IH]; simpl; [done|].
  intros [Hx Hs]%andb_true_iff. by rewrite Hx, IH.
Qed.

(** The codes of the loop, one after the other, as one test. *)
Lemma sanitize_fold (codes : list nat) (s : string) :
  fold_left
    (fun content i =>
       if bool_decide (i ∈ [9; 10; 13]%nat) then content
       else remove_char (ascii_of_nat i) content) codes s
  = string_filter
      (fun x => forallb (fun i => bool_decide (i ∈ [9; 10; 13]%nat)
                                  || negb (Ascii.eqb x (ascii_of_nat i))) codes) s.
Proof.
  revert s. induction codes as [|i codes IH]; intros s; simpl.
  - induction s as [|x s IHs]; simpl; [done|by rewrite <- IHs].
  - rewrite IH. destruct (bool_decide _); simpl.
    + done.
    + rewrite remove_char_filter, string_filter_filter. done.
Qed.

Lemma sanitize_filter (s : string) : sanitize s = string_filter is_allowed s.
Proof.
  unfold sanitize. rewrite sanitize_fold. apply string_filter_ext.
  intros [[] [] [] [] [] [] [] []]; vm_compute; reflexivity.
Qed.

(** X1. [sanitize] keeps exactly the characters with a code of 32 or more
    and the tab, line feed and carriage return, in their order: nothing
    else is left in its result, a text without other control characters
    comes back as it is, cleaning twice is cleaning once, and the text of
    two pieces is cleaned piece by piece. *)
Theorem sanitize_spec (s t : string) :
  sanitize s = string_filter is_allowed s ∧
  string_forall is_allowed (sanitize s) = true ∧
  (string_forall is_allowed s = true → sanitize s = s) ∧
  sanitize (sanitize s) = sanitize s ∧
  sanitize (s +:+ t) = sanitize s +:+ sanitize t.
Proof.
  rewrite !sanitize_filter. split; [done|].
  split; [apply string_filter_forall|].
  split; [apply string_filter_id|].
  split; [apply string_filter_id, string_filter_forall|apply string_filter_app].
Qed.

(** ** Tags *)

(** X2. Trimming a tag list twice is trimming it once, a list within the
    ceiling (or of at most five tags) is left as it is, and trimming never
    adds to the cumulative length. *)
Theorem trim_tags_idempotent (l : list string) :
  trim_tags (trim_tags l) = trim_tags l ∧
  ((total_tags_length l ≤ tags_ceiling)%nat ∨ (length l ≤ min_tags)%nat →
   trim_tags l = l) ∧
  (total_tags_length (trim_tags l) ≤ total_tags_length l)%nat.
Proof.
  split; [|split].
  - rewrite (trim_tags_step (trim_tags l)). by rewrite trim_tags_guard.
  - intros H. rewrite trim_tags_step.
    assert (must_trim l = false) as ->; [|done].
    unfold must_trim. apply andb_false_iff.
    destruct H; [left|right]; apply Nat.ltb_ge; done.
  - destruct (trim_tags_take l) as (k & _ & ->).
    rewrite <- (take_drop k l) at 2. rewrite total_tags_length_app. lia.
Qed.

Lemma in_tags_elem_of (t : string) (l : list string) :
  in_tags t l = true ↔ t ∈ l.
Proof.
  unfold in_tags. rewrite existsb_exists. split.
  - intros (x & Hx & Heq). apply String.eqb_eq in Heq as ->. by apply list_elem_of_In.
  - intros H. exists t. split; [by apply list_elem_of_In|apply String.eqb_refl].
Qed.

Lemma add_ingredient_tags_spec (ings tgs : list string) :
  ∃ added,
    add_ingredient_tags ings tgs = tgs ++ added ∧
    NoDup added ∧
    ∀ t, t ∈ added →
      (t ∉ tgs) ∧ t ≠ "" ∧ ∃ i, i ∈ ings ∧ main_ingredient i = Some t.
Proof.
  revert tgs. induction ings as [|i ings IH]; intros tgs; simpl.
  - exists []. rewrite app_nil_r. split; [done|]. split; [constructor|].
    intros t Ht. by apply elem_of_nil in Ht.
  - assert (∃ added,
              add_ingredient_tags ings tgs = tgs ++ added ∧ NoDup added ∧
              ∀ t, t ∈ added →
                (t ∉ tgs) ∧ t ≠ "" ∧ ∃ i0, i0 ∈ i :: ings ∧ main_ingredient i0 = Some t)
      as Hskip.
    { destruct (IH tgs) as (added & Heq & Hnd & Hall).
      exists added. split; [done|]. split; [done|].
      intros t Ht. destruct (Hall t Ht) as (H1 & H2 & i0 & H3 & H4).
      split; [done|]. split; [done|]. exists i0. split; [by right|done]. }
    destruct (main_ingredient i) as [m|] eqn:Hm; [|exact Hskip].
    destruct (String.eqb_spec m ""); simpl; [exact Hskip|].
    destruct (in_tags m tgs) eqn:Hin; simpl; [exact Hskip|].
    assert (m ∉ tgs) as Hm'.
    { intros H. apply in_tags_elem_of in H. congruence. }
    destruct (IH (tgs ++ [m])) as (added & Heq & Hnd & Hall).
    exists (m :: added). split; [by rewrite Heq, <- app_assoc|]. split.
    + constructor; [|done]. intros H. destruct (Hall m H) as [Hn _].
      apply Hn. apply elem_of_app. right. by left.
    + intros t [->|Ht]%elem_of_cons.
      * split; [done|]. split; [done|]. exists i. split; [by left|done].
      * destruct (Hall t Ht) as (H1 & H2 & i0 & H3 & H4).
        split; [intros H; apply H1, elem_of_app; by left|].
        split; [done|]. exists i0. split; [by right|done].
Qed.

(** X3. The tag list of the upload request starts with the nine fixed tags;
    every tag after them is the non-empty last word before the first comma
    of an ingredient, is none of the nine and occurs once. *)
Theorem initial_tags_spec (r : Recipe) :
  ∃ added,
    initial_tags r = base_tags r ++ added ∧
    NoDup added ∧
    ∀ t, t ∈ added →
      (t ∉ base_tags r) ∧ t ≠ "" ∧
      ∃ i, i ∈ ingredients r ∧ main_ingredient i = Some t.
Proof. apply add_ingredient_tags_spec. Qed.

(** ** Selection *)

Lemma insert_by_key_perm (x : Z * Recipe) (l : list (Z * Recipe)) :
  insert_by_key x l ≡ₚ x :: l.
Proof.
  induction l as [|y l IH]; simpl; [done|].
  destruct (x.1 <=? y.1); [done|]. rewrite IH. apply Permutation_swap.
Qed.

Lemma sort_by_key_perm (l : list (Z * Recipe)) : sort_by_key l ≡ₚ l.
Proof.
  induction l as [|x l IH]; simpl; [done|].
  by rewrite insert_by_key_perm, IH.
Qed.

Lemma insert_by_key_sorted (x : Z * Recipe) (l : list (Z * Recipe)) :
  StronglySorted (fun a b => a.1 ≤ b.1) l →
  StronglySorted (fun a b => a.1 ≤ b.1) (insert_by_key x l).
Proof.
  induction l as [|y l IH]; simpl; intros Hs.
  - repeat constructor.
  - inversion Hs as [|? ? Hl Hy]; subst.
    destruct (x.1 <=? y.1) eqn:E.
    + apply Z.leb_le in E. constructor; [done|].
      constructor; [done|]. eapply Forall_impl; [exact Hy|]. simpl. lia.
    + apply Z.leb_gt in E. constructor; [by apply IH|].
      rewrite insert_by_key_perm. constructor; [lia|done].
Qed.

Lemma sort_by_key_sorted (l : list (Z * Recipe)) :
  StronglySorted (fun a b => a.1 ≤ b.1) (sort_by_key l).
Proof.
  induction l as [|x l IH]; simpl; [constructor|by apply insert_by_key_sorted].
Qed.

Lemma keyed_Some (l : list Recipe) (ks : list (Z * Recipe)) :
  keyed l = Some ks →
  map snd ks = l ∧ Forall (fun kr => int_id (id kr.2) = Some kr.1) ks.
Proof.
  revert ks. induction l as [|r l IH]; simpl; intros ks.
  - intros [= <-]. by split.
  - destruct (int_id (id r)) as [k|] eqn:Hk; simpl; [|done].
    destruct (keyed l) as [rest|]; simpl; [|done].
    intros [= <-]. destruct (IH rest eq_refl) as [Hm Hall].
    split; [simpl; by rewrite Hm|]. by constructor.
Qed.


(** The sorted list of [get_next_recipe] and [get_status_report]: the
    available recipes in another order, by growing integer identifier. *)
Lemma sorted_available (l : list Recipe) (ks : list (Z * Recipe)) :
  keyed l = Some ks →
  map snd (sort_by_key ks) ≡ₚ l ∧
  StronglySorted (fun a b => int_key a ≤ int_key b) (map snd (sort_by_key ks)) ∧
  Forall (fun r => is_Some (int_id (id r))) l.
Proof.
  intros [Hmap Hall]%keyed_Some.
  assert (Forall (fun kr => int_id (id kr.2) = Some kr.1) (sort_by_key ks)) as Hall'.
  { by rewrite sort_by_key_perm. }
  split; [|split].
  - rewrite <- Hmap. apply Permutation_map, sort_by_key_perm.
  - pose proof (sort_by_key_sorted ks) as Hs.
    induction Hs as [|kr l' Hs IH Hle]; simpl; [constructor|].
    inversion Hall' as [|? ? Hkr Hl']; subst.
    constructor; [by apply IH|].
    apply Forall_fmap. apply Forall_forall. intros kr' Hin. simpl.
    rewrite Forall_forall in Hle, Hl'. unfold int_key.
    rewrite Hkr, (Hl' _ Hin). simpl. by apply Hle.
  - rewrite <- Hmap. apply Forall_fmap. eapply Forall_impl; [exact Hall|].
    simpl. intros kr ->. done.
Qed.

Lemma filter_none {A} (P : A → Prop) `{∀ x, Decision (P x)} (l : list A) :
  Forall (fun x => ¬ P x) l → filter P l = [].
Proof.
  induction 1 as [|x l Hx _ IH]; [done|]. by rewrite filter_cons_False.
Qed.

(** In a list sorted by key, fewer than [j] elements are below the one at
    index [j]. *)
Lemma sorted_lower_count (l : list Recipe) (j : nat) (r : Recipe) :
  StronglySorted (fun a b => int_key a ≤ int_key b) l →
  l !! j = Some r →
  (length (filter (fun r' => (int_key r' < int_key r)%Z) l) ≤ j)%nat.
Proof.
  intros Hs. revert j. induction Hs as [|x l Hs IH Hle]; intros j; [done|].
  destruct j as [|j]; simpl.
  - intros [= ->]. rewrite filter_cons_False by lia.
    rewrite filter_none; [done|].
    eapply Forall_impl; [exact Hle|]. simpl. lia.
  - intros Hj. specialize (IH j Hj).
    destruct (decide (int_key x < int_key r)).
    + rewrite filter_cons_True by done. simpl. lia.
    + rewrite filter_cons_False by done. lia.
Qed.

Lemma sorted_head_least (l : list Recipe) (r : Recipe) :
  StronglySorted (fun a b => int_key a ≤ int_key b) l →
  head l = Some r →
  ∀ r', r' ∈ l → int_key r ≤ int_key r'.
Proof.
  intros Hs Hh r' Hr'. destruct l as [|x l]; [done|].
  injection Hh as ->. inversion Hs as [|? ? _ Hle]; subst.
  apply elem_of_cons in Hr' as [->|Hr']; [lia|].
  rewrite Forall_forall in Hle. by apply Hle.
Qed.

Lemma find_elem_of {A} (f : A → bool) (l : list A) (x : A) :
  find f l = Some x → x ∈ l ∧ f x = true.
Proof.
  intros [H1 H2]%find_some. split; [by apply list_elem_of_In|done].
Qed.

Lemma find_is_Some {A} (f : A → bool) (l : list A) (x : A) :
  x ∈ l → f x = true → is_Some (find f l).
Proof.
  intros Hin Hf. destruct (find f l) eqn:E; [done|].
  apply list_elem_of_In in Hin. by rewrite (find_none _ _ E _ Hin) in Hf.
Qed.

(** What [get_next_recipe] returns after the resume step found nothing. *)
Lemma get_next_recipe_sorted rnd st r :
  get_next_recipe rnd st = Ok (Some r) →
  r ∈ available_recipes st ∧
  ((∃ rid, resume_recipe_id st = Some rid ∧ str_id (id r) = rid) ∨
   ∃ sorted j,
     sorted ≡ₚ available_recipes st ∧
     StronglySorted (fun a b => int_key a ≤ int_key b) sorted ∧
     Forall (fun r => is_Some (int_id (id r))) (available_recipes st) ∧
     sorted !! j = Some r ∧ (j < 10)%nat ∧
     (rnd = None ∨ (length (available_recipes st) ≤ 10)%nat → j = 0%nat)).
Proof.
  unfold get_next_recipe. fold (available_recipes st). fold (resume_recipe_id st).
  destruct (available_recipes st) as [|a l] eqn:Hav; [done|]. rewrite <- Hav.
  set (resumed := match resume_recipe_id st with Some _ => _ | None => _ end).
  destruct resumed as [r0|] eqn:Hres.
  - intros [= ->]. subst resumed.
    destruct (resume_recipe_id st) as [rid|]; [|done].
    destruct (String.eqb rid ""); [done|].
    apply find_elem_of in Hres as [Hin Heq]. apply String.eqb_eq in Heq.
    split; [done|]. left. by exists rid.
  - clear Hres resumed.
    destruct (keyed (available_recipes st)) as [ks|] eqn:Hk; [|done].
    destruct (sorted_available _ _ Hk) as (Hperm & Hs & Hint).
    set (sorted := map snd (sort_by_key ks)) in *.
    assert (length sorted = length (available_recipes st)) as Hlen by by rewrite Hperm.
    assert (∀ j, sorted !! j = Some r → r ∈ available_recipes st) as Hin.
    { intros j Hj. rewrite <- Hperm. by eapply list_elem_of_lookup_2. }
    assert (head sorted = Some r →
            r ∈ available_recipes st ∧
            ((∃ rid, resume_recipe_id st = Some rid ∧ str_id (id r) = rid) ∨
             ∃ sorted j,
               sorted ≡ₚ available_recipes st ∧
               StronglySorted (fun a b => int_key a ≤ int_key b) sorted ∧
               Forall (fun r => is_Some (int_id (id r))) (available_recipes st) ∧
               sorted !! j = Some r ∧ (j < 10)%nat ∧
               (rnd = None ∨ (length (available_recipes st) ≤ 10)%nat → j = 0%nat)))
      as Hhead.
    { intros Hh. rewrite head_lookup in Hh. split; [by eapply Hin|].
      right. exists sorted, 0%nat. do 4 (split; [done|]). split; [lia|done]. }
    destruct (10 <? length sorted)%nat eqn:Hten.
    + destruct rnd as [i|].
      * intros [= Hi]. apply Nat.ltb_lt in Hten.
        assert (i mod 10 < 10)%nat as Hlt by (apply Nat.mod_upper_bound; lia).
        rewrite lookup_take_lt in Hi by done.
        split; [by eapply Hin|]. right. exists sorted, (i mod 10)%nat.
        do 5 (split; [done|]). intros [?|?]; [done|lia].
      * intros [= Hh]. by apply Hhead.
    + intros [= Hh]. by apply Hhead.
Qed.

(** X4. A recipe [get_next_recipe] returns is an entry of the catalog whose
    identifier is not in the ledger, whatever the resume records and the
    random draw. *)
Theorem get_next_recipe_available rnd st r :
  get_next_recipe rnd st = Ok (Some r) →
  r ∈ recipes st ∧ str_id (id r) ∉ used_recipes st.
Proof.
  intros [Hin _]%get_next_recipe_sorted.
  unfold available_recipes in Hin. by apply list_elem_of_filter in Hin as [? ?].
Qed.

Lemma get_next_recipe_not_none rnd st :
  available_recipes st ≠ [] → get_next_recipe rnd st ≠ Ok None.
Proof.
  unfold get_next_recipe. fold (available_recipes st). fold (resume_recipe_id st).
  destruct (available_recipes st) as [|a l] eqn:Hav; [done|]. intros _.
  match goal with |- context [match ?x with Some r => Ok (Some r) | None => _ end] =>
    destruct x; [done|] end.
  destruct (keyed (a :: l)) as [ks|] eqn:Hk; [|done].
  destruct (sorted_available _ _ Hk) as (Hperm & _ & _).
  set (sorted := map snd (sort_by_key ks)) in *.
  assert (length sorted = S (length l)) as Hlen by by rewrite Hperm.
  assert (head sorted ≠ None) as Hhead.
  { destruct sorted; [done|]. done. }
  destruct (10 <? length sorted)%nat eqn:Hten.
  - destruct rnd as [i|]; [|congruence].
    apply Nat.ltb_lt in Hten.
    assert (i mod 10 < 10)%nat as Hlt by (apply Nat.mod_upper_bound; lia).
    rewrite lookup_take_lt by done.
    destruct (lookup_lt_is_Some_2 sorted (i mod 10)%nat) as [x ->]; [lia|done].
  - congruence.
Qed.

(** X5. [get_next_recipe] returns [None] exactly when the identifier of
    every catalog entry is in the ledger. *)
Theorem get_next_recipe_exhausted rnd st :
  get_next_recipe rnd st = Ok None ↔
  ∀ r, r ∈ recipes st → str_id (id r) ∈ used_recipes st.
Proof.
  split.
  - intros Hn r Hr. destruct (decide (str_id (id r) ∈ used_recipes st)); [done|].
    exfalso. apply (get_next_recipe_not_none rnd st); [|done].
    intros Hnil. assert (r ∈ available_recipes st) as Hin.
    { unfold available_recipes. by apply list_elem_of_filter. }
    rewrite Hnil in Hin. by apply elem_of_nil in Hin.
  - intros Hall. unfold get_next_recipe.
    assert (filter (fun r => str_id (id r) ∉ used_recipes st) (recipes st) = []) as ->;
      [|done].
    apply filter_none, Forall_forall. intros r Hr Hn. by apply Hn, Hall.
Qed.

(** X6. When the first resume record in progress names a catalog entry that
    is not in the ledger, [get_next_recipe] returns an entry with that
    identifier, whatever the random draw and the identifiers of the other
    entries. *)
Theorem get_next_recipe_resumes rnd st rid rec r0 :
  find (fun kv => in_progress kv.2) (resume_data st) = Some (rid, rec) →
  rid ≠ "" →
  r0 ∈ recipes st → str_id (id r0) = rid → rid ∉ used_recipes st →
  ∃ r, get_next_recipe rnd st = Ok (Some r) ∧ str_id (id r) = rid ∧
       r ∈ recipes st.
Proof.
  intros Hfind Hne Hin Hid Hnot.
  assert (r0 ∈ available_recipes st) as Hav.
  { unfold available_recipes. apply list_elem_of_filter. by rewrite Hid. }
  unfold get_next_recipe. fold (available_recipes st).
  destruct (available_recipes st) as [|a l] eqn:Ha; [by apply elem_of_nil in Hav|].
  rewrite <- Ha. rewrite Hfind. simpl.
  apply String.eqb_neq in Hne. rewrite Hne.
  destruct (find_is_Some (fun r => String.eqb (str_id (id r)) rid)
              (available_recipes st) r0) as [r Hr].
  { by rewrite Ha. }
  { by apply String.eqb_eq. }
  rewrite Hr. apply find_elem_of in Hr as [Hr1 Hr2].
  exists r. split; [done|]. split; [by apply String.eqb_eq|].
  unfold available_recipes in Hr1. by apply list_elem_of_filter in Hr1 as [_ ?].
Qed.

(** X7. When no available recipe is named by the first resume record in
    progress, a recipe [get_next_recipe] returns has an integer identifier
    like every available recipe, fewer than ten available recipes have a
    lower one, and none has when the random draw is off or at most ten
    recipes are available. *)
Theorem get_next_recipe_lowest rnd st r :
  (∀ r', r' ∈ available_recipes st → resume_recipe_id st ≠ Some (str_id (id r'))) →
  get_next_recipe rnd st = Ok (Some r) →
  (∀ r', r' ∈ available_recipes st → is_Some (int_id (id r'))) ∧
  (length (filter (fun r' => (int_key r' < int_key r)%Z) (available_recipes st)) < 10)%nat ∧
  (rnd = None ∨ (length (available_recipes st) ≤ 10)%nat →
   ∀ r', r' ∈ available_recipes st → int_key r ≤ int_key r').
Proof.
  intros Hres [Hin [(rid & Hrid & Heq)|Hsorted]]%get_next_recipe_sorted.
  { exfalso. apply (Hres r Hin). by rewrite Heq. }
  destruct Hsorted as (sorted & j & Hperm & Hs & Hint & Hj & Hlt & Hzero).
  split; [by apply Forall_forall|]. split.
  - rewrite <- Hperm. pose proof (sorted_lower_count sorted j r Hs Hj). lia.
  - intros Hcase r' Hr'. rewrite (Hzero Hcase) in Hj.
    apply (sorted_head_least sorted r Hs); [by rewrite head_lookup|by rewrite Hperm].
Qed.

(** What [int] takes as an identifier: the blanks of C around a numeral,
    not the separators 28 to 31 that [str.split] takes as blanks, and no
    more than 4300 digits. *)
Example to_int_blanks :
  PyStr.to_int (" 12" +:+ PyStr.nl) = Some 12 ∧
  PyStr.to_int (String (ascii_of_nat 28) "5") = None ∧
  PyStr.to_int ("5" +:+ String (ascii_of_nat 31) "") = None ∧
  PyStr.split_ws (String (ascii_of_nat 28) "5") = ["5"].
Proof. vm_compute. done. Qed.

Example to_int_max_digits :
  is_Some (PyStr.to_int (Nat.iter 4300 (String "1") "")) ∧
  PyStr.to_int (Nat.iter 4301 (String "1") "") = None.
Proof. split; [vm_compute; by eexists|vm_compute; reflexivity]. Qed.


(** ** File identifier of a shared link *)

Lemma string_app_nil_r (a : string) : a +:+ "" = a.
Proof. induction a as [|x a IH]; [done|]. by rewrite string_app_cons, IH. Qed.

Lemma string_app_snoc (a : string) (c : ascii) (b : string) :
  (a +:+ String c "") +:+ b = a +:+ String c b.
Proof. by rewrite string_app_assoc, string_app_cons, string_app_nil. Qed.

Lemma prefix_cons (a b : ascii) (s1 s2 : string) :
  String.prefix (String a s1) (String b s2)
  = if Ascii.eqb a b then String.prefix s1 s2 else false.
Proof.
  simpl. destruct (ascii_dec a b) as [->|Hne].
  - by rewrite Ascii.eqb_refl.
  - apply Ascii.eqb_neq in Hne. by rewrite Hne.
Qed.

Lemma prefix_nil_l (s : string) : String.prefix "" s = true.
Proof. by destruct s. Qed.

Lemma prefix_app (p r : string) : String.prefix p (p +:+ r) = true.
Proof.
  induction p as [|x p IH]; [apply prefix_nil_l|].
  by rewrite string_app_cons, prefix_cons, Ascii.eqb_refl.
Qed.

Lemma prefix_app_short (sep a b : string) :
  String.prefix sep (a +:+ b) = true →
  (String.length sep ≤ String.length a)%nat →
  String.prefix sep a = true.
Proof.
  revert a. induction sep as [|x sep IH]; intros a; [intros; apply prefix_nil_l|].
  destruct a as [|y a]; simpl String.length; [lia|].
  rewrite string_app_cons, !prefix_cons.
  destruct (Ascii.eqb x y); [|done]. intros H Hl. apply IH; [done|lia].
Qed.

Lemma split_aux_nonempty (sep s : string) (skip : nat) (cur : string) :
  PyStr.split_aux sep s skip cur ≠ [].
Proof.
  revert skip cur. induction s as [|c s IH]; intros skip cur;
    cbn [PyStr.split_aux]; [done|].
  destruct skip; [|apply IH]. destruct (String.prefix sep (String c s)); [done|apply IH].
Qed.

Lemma split_aux_skip (sep t s cur : string) :
  PyStr.split_aux sep (t +:+ s) (String.length t) cur = PyStr.split_aux sep s 0 cur.
Proof.
  induction t as [|c t IH]; [done|]. rewrite string_app_cons. simpl. exact IH.
Qed.

(** The first piece of a split is the text before the leftmost separator. *)
Lemma split_aux_leftmost (c0 : ascii) (sep' pre rest cur : string) :
  (∀ a b, pre = a +:+ b → b ≠ "" →
          String.prefix (String c0 sep') (b +:+ String c0 sep' +:+ rest) = false) →
  PyStr.split_aux (String c0 sep') (pre +:+ String c0 sep' +:+ rest) 0 cur
  = (cur +:+ pre) :: PyStr.split_aux (String c0 sep') rest 0 "".
Proof.
  revert cur. induction pre as [|c p IH]; intros cur Hfree.
  - rewrite string_app_nil, string_app_nil_r, string_app_cons.
    cbn [PyStr.split_aux]. rewrite <- string_app_cons, prefix_app.
    f_equal. replace (String.length (String c0 sep') - 1)%nat with (String.length sep')
      by (simpl; lia).
    apply split_aux_skip.
  - rewrite string_app_cons. cbn [PyStr.split_aux].
    rewrite <- string_app_cons, (Hfree "" (String c p)) by done.
    rewrite IH.
    + by rewrite string_app_snoc.
    + intros a b -> Hb. apply (Hfree (String c a) b); [|done].
      by rewrite string_app_cons.
Qed.

Lemma contains_app (sep pre rest : string) :
  PyStr.contains sep (pre +:+ sep +:+ rest) = true.
Proof.
  induction pre as [|c p IH].
  - rewrite string_app_nil.
    assert (∀ s, String.prefix sep s = true → PyStr.contains sep s = true) as H.
    { intros [|x s] Hs; simpl in *; by rewrite Hs. }
    apply H, prefix_app.
  - rewrite string_app_cons. cbn [PyStr.contains]. rewrite IH. apply orb_true_r.
Qed.

Lemma contains_false_suffix (sep a b : string) :
  PyStr.contains sep (a +:+ b) = false → String.prefix sep b = false.
Proof.
  induction a as [|c a IH].
  - rewrite string_app_nil. destruct b; cbn [PyStr.contains]; by intros [? _]%orb_false_iff.
  - rewrite string_app_cons. cbn [PyStr.contains]. intros [_ H]%orb_false_iff. by apply IH.
Qed.

(** A piece that has no slash is read through by a separator that starts
    with one. *)
Lemma split_aux_slash_free (sep' fid x cur : string) :
  slash_free fid = true →
  PyStr.split_aux (String "/" sep') (fid +:+ x) 0 cur
  = PyStr.split_aux (String "/" sep') x 0 (cur +:+ fid).
Proof.
  revert cur. induction fid as [|c fid IH]; intros cur.
  - by rewrite string_app_nil, string_app_nil_r.
  - intros Hf. unfold slash_free in Hf. cbn [string_forall] in Hf.
    apply andb_true_iff in Hf as [Hc Hfid].
    rewrite string_app_cons. cbn [PyStr.split_aux]. rewrite prefix_cons.
    rewrite Ascii.eqb_sym. apply negb_true_iff in Hc. rewrite Hc.
    rewrite IH by done. by rewrite string_app_snoc.
Qed.

Lemma split_aux_head (sep s cur : string) :
  ∃ y, head (PyStr.split_aux sep s 0 cur) = Some (cur +:+ y) ∧
       String.prefix y s = true.
Proof.
  revert cur. induction s as [|c s IH]; intros cur.
  - exists "". by rewrite string_app_nil_r.
  - cbn [PyStr.split_aux]. destruct (String.prefix sep (String c s)).
    + exists "". by rewrite string_app_nil_r.
    + destruct (IH (cur +:+ String c "")) as (y & Hy & Hp).
      exists (String c y). rewrite Hy, string_app_snoc.
      split; [done|]. by rewrite prefix_cons, Ascii.eqb_refl.
Qed.

Lemma split_slash_head (s cur : string) :
  ∃ y, head (PyStr.split_aux "/" s 0 cur) = Some (cur +:+ y) ∧ slash_free y = true.
Proof.
  revert cur. induction s as [|c s IH]; intros cur.
  - exists "". by rewrite string_app_nil_r.
  - cbn [PyStr.split_aux]. rewrite prefix_cons, prefix_nil_l.
    destruct (Ascii.eqb "/" c) eqn:Hc.
    + exists "". by rewrite string_app_nil_r.
    + destruct (IH (cur +:+ String c "")) as (y & Hy & Hp).
      exists (String c y). rewrite Hy, string_app_snoc. split; [done|].
      unfold slash_free in *. simpl. rewrite Ascii.eqb_sym, Hc. done.
Qed.

Lemma split_two_pieces (c0 : ascii) (sep' s cur : string) :
  PyStr.contains (String c0 sep') s = true →
  ∃ a b l, PyStr.split_aux (String c0 sep') s 0 cur = a :: b :: l.
Proof.
  revert cur. induction s as [|c s IH]; intros cur; [done|].
  cbn [PyStr.contains PyStr.split_aux].
  destruct (String.prefix (String c0 sep') (String c s)).
  - intros _.
    destruct (PyStr.split_aux (String c0 sep') s (String.length (String c0 sep') - 1) "")
      as [|b l] eqn:E; [by apply split_aux_nonempty in E|]. by exists cur, b, l.
  - simpl. apply IH.
Qed.

(** The identifier of a slash-free piece followed by nothing or a slash. *)
Lemma split_slash_first (fid y : string) :
  slash_free fid = true →
  String.prefix y "" = true ∨ (∃ t, String.prefix y (String "/" t) = true) →
  head (PyStr.split "/" (fid +:+ y)) = Some fid.
Proof.
  intros Hfid Hy. unfold PyStr.split.
  rewrite split_aux_slash_free, string_app_nil by done.
  destruct y as [|c y]; [done|].
  destruct Hy as [Hy|[t Hy]]; [done|].
  rewrite prefix_cons in Hy. destruct (Ascii.eqb_spec c "/") as [->|]; [|done].
  cbn [PyStr.split_aux]. by rewrite prefix_cons, prefix_nil_l.
Qed.

(** X9. The identifier of a link [pre/file/d/<id>] or [pre/file/d/<id>/...],
    where the marker occurs nowhere before and the identifier has no slash,
    is read back by [_extract_file_id]. *)
Theorem extract_file_id_round_trip (pre fid tail : string) :
  PyStr.contains file_marker (pre +:+ file_marker_open) = false →
  slash_free fid = true →
  tail = "" ∨ (∃ t, tail = String "/" t) →
  extract_file_id (pre +:+ file_marker +:+ fid +:+ tail) = Some fid.
Proof.
  intros Hfree Hfid Htail. unfold extract_file_id. fold file_marker.
  rewrite contains_app. unfold PyStr.split, file_marker at 1 2.
  rewrite split_aux_leftmost.
  - rewrite split_aux_slash_free, string_app_nil by done.
    destruct (split_aux_head "/file/d/" tail fid) as (y & Hy & Hp).
    destruct (PyStr.split_aux "/file/d/" tail 0 fid) as [|rest l] eqn:E;
      [by apply split_aux_nonempty in E|].
    injection Hy as ->. apply split_slash_first; [done|].
    destruct Htail as [->|[t ->]]; [by left|right; by exists t].
  - intros a b -> Hb.
    destruct (String.prefix "/file/d/" (b +:+ "/file/d/" +:+ fid +:+ tail)) eqn:E;
      [|done].
    rewrite string_app_assoc in Hfree. apply contains_false_suffix in Hfree.
    rewrite <- Hfree. symmetry.
    change ("/file/d/" +:+ fid +:+ tail)
      with (file_marker_open +:+ ("/" +:+ fid +:+ tail)) in E.
    rewrite <- string_app_assoc in E.
    apply prefix_app_short in E; [exact E|].
    rewrite string_app_length. destruct b; [done|]. simpl. lia.
Qed.

(** X10. [_extract_file_id] returns [None] exactly for a link without the
    marker, so that a link with the marker always gives an identifier, and
    an identifier it returns has no slash. *)
Theorem extract_file_id_marker (drive_url : string) :
  (extract_file_id drive_url = None ↔ PyStr.contains file_marker drive_url = false) ∧
  (∀ fid, extract_file_id drive_url = Some fid → slash_free fid = true).
Proof.
  unfold extract_file_id. fold file_marker.
  destruct (PyStr.contains file_marker drive_url) eqn:Hc; [|by split].
  destruct (split_two_pieces _ _ drive_url "" Hc) as (a & b & l & Hs).
  unfold PyStr.split, file_marker. rewrite Hs.
  destruct (split_slash_head b "") as (y & Hy & Hfree).
  unfold PyStr.split. rewrite Hy, string_app_nil. split; [by split|].
  by intros fid [= <-].
Qed.

(** ** Counting events *)

Lemma count_emit f e st : count f (emit e st) = count f st + (if f e then 1 else 0).
Proof.
  unfold count, emit. simpl. rewrite List.filter_app, length_app. simpl.
  destruct (f e); simpl; lia.
Qed.

Lemma count_nonneg f st : 0 ≤ count f st.
Proof. unfold count. lia. Qed.

Lemma count_app f a b evs :
  trace b = trace a ++ evs →
  count f b = count f a + Z.of_nat (length (List.filter f evs)).
Proof. unfold count. intros ->. rewrite List.filter_app, length_app. lia. Qed.

Lemma count_trace f a b : trace b = trace a → count f b = count f a.
Proof. unfold count. by intros ->. Qed.

(** ** Downloader: requests, files and the resume record *)

Lemma download_chunks_run rc chunks buf st r st' :
  download_chunks rc chunks buf st = (r, st') →
  same_store st st' ∧
  count is_request st' = count is_request st ∧
  count is_attempt_sleep st' = count is_attempt_sleep st ∧
  count is_remove st' = count is_remove st ∧
  r ≠ Raise SocketTimeout ∧ r ≠ Raise ValueError ∧
  (chunks_fail chunks = true → ∃ e, r = Raise e).
Proof.
  revert buf st. induction chunks as [|c chunks IH]; intros buf st; simpl.
  - intros [= <- <-]. split; [apply same_store_refl|]. by repeat split.
  - destruct c as [[n []]|[]].
    all: try (intros [= <- <-]; split; [apply same_store_emit|];
              rewrite !count_emit; simpl; repeat split; try lia; try done;
              by eexists).
    all: intros H; apply IH in H as (Hs & H1 & H2 & H2' & H3 & H4 & H5);
      rewrite !count_emit in H1, H2, H2'; simpl in H1, H2, H2';
      (split; [eapply same_store_trans; [|exact Hs];
               repeat (eapply same_store_trans; [|apply same_store_emit]);
               apply same_store_refl|]);
      repeat split; try lia; done.
Qed.

Lemma same_but_refl path a : same_but path a a.
Proof. by repeat split. Qed.

Lemma same_store_but path a b : same_store a b → same_but path a b.
Proof. intros (?&?&?&Hfs&?&?&?). repeat split; try done. intros q _. by rewrite Hfs. Qed.

Lemma fetch_run_stop max_retries path rc st s r :
  same_store st s →
  count is_request s - count is_request st ≤ 1 →
  count is_attempt_sleep s = count is_attempt_sleep st →
  count is_remove s = count is_remove st →
  rc < max_retries ∨ count is_request s = count is_request st →
  (∀ p, r ≠ Ok p) → r ≠ Raise ValueError →
  fetch_run max_retries path rc st r s.
Proof.
  intros Hs H1 H2 H2' Hlt Hr Hv. split; [by apply same_store_but|].
  split; [|split; [done|lia]].
  destruct r as [p| |]; [by destruct (Hr p)|apply Hs..].
Qed.

Lemma fetch_run_retry max_retries path rc st s c d r st' :
  same_store st s →
  count is_request s = count is_request st + 1 →
  count is_attempt_sleep s = count is_attempt_sleep st →
  count is_remove s = count is_remove st →
  rc + 1 < max_retries →
  is_attempt_sleep (EvSleep c d) = true →
  fetch_run max_retries path (rc + 1) (emit (EvSleep c d) s) r st' →
  fetch_run max_retries path rc st r st'.
Proof.
  intros (?&?&?&Hfs&?&?&?) Ha Hb Hb' Hlt Hc
    ((?&?&?&?&?&?&Hq) & Hr & Hv & Hd & He & Hf).
  rewrite !count_emit in Hd, He, Hf. rewrite Hc in He.
  simpl in *. split; [|split; [|split; [done|lia]]].
  - repeat split; try congruence. intros q Hne. by rewrite Hq, Hfs.
  - destruct r; [done|congruence..].
Qed.

Lemma fetch_run_write max_retries path rc st s size :
  same_store st s →
  count is_request s = count is_request st + 1 →
  count is_attempt_sleep s = count is_attempt_sleep st →
  count is_remove s = count is_remove st →
  rc < max_retries →
  fetch_run max_retries path rc st (Ok path)
    (emit (EvWriteFile path size) (set_fs (<[path := size]> (fs s)) s)).
Proof.
  intros (?&?&?&Hfs&?&?&?) Ha Hb Hb' Hlt.
  split; [|split; [|split; [done|]]].
  - repeat split; try done. intros q Hne. simpl.
    rewrite lookup_insert_ne by (intros ->; by apply Hne). by rewrite Hfs.
  - split; [done|]. simpl. rewrite lookup_insert_eq. by eexists.
  - rewrite !count_emit. simpl.
    rewrite !(count_trace _ s (set_fs _ s)) by done.
    lia.
Qed.

Lemma download_attempts_run max_retries drive fid path rc st r st' :
  download_attempts max_retries drive fid path rc st = (r, st') →
  fetch_run max_retries path rc st r st'.
Proof.
  revert rc st. induction drive as [|a drive IH]; intros rc st; simpl.
  - destruct (rc <? max_retries); intros [= <- <-];
      (apply fetch_run_stop; [apply same_store_refl|lia|done|done|by right|done|done]).
  - destruct (rc <? max_retries) eqn:Hlt;
      [|intros [= <- <-];
        (apply fetch_run_stop; [apply same_store_refl|lia|done|done|by right|done|done])].
    apply Z.ltb_lt in Hlt.
    pose proof (count_emit is_request (EvDriveRequest fid) st) as Hq.
    pose proof (count_emit is_attempt_sleep (EvDriveRequest fid) st) as Hz.
    pose proof (count_emit is_remove (EvDriveRequest fid) st) as Hm.
    simpl in Hq, Hz, Hm.
    destruct (da_request a) as [[]|f].
    + destruct (download_chunks _ _ _ _) as [res s] eqn:Hch.
      apply download_chunks_run in Hch as (Hs & Hc1 & Hc2 & Hc3 & Hn1 & Hn2 & _).
      assert (same_store st s) as Hs'.
      { eapply same_store_trans; [apply same_store_emit|exact Hs]. }
      destruct res as [size|e|].
      * intros [= <- <-]. apply fetch_run_write; [done|lia|lia|lia|done].
      * destruct e; try done; destruct (rc + 1 <? max_retries) eqn:E;
          try (intros [= <- <-];
               apply fetch_run_stop; [done|lia|lia|lia|by left|done|done]);
          apply Z.ltb_lt in E; intros H; apply IH in H;
          (eapply fetch_run_retry; [exact Hs'| | | | | |exact H]; [lia|lia|lia|done|reflexivity]).
      * intros [= <- <-]. apply fetch_run_stop; [done|lia|lia|lia|by left|done|done].
    + assert (same_store st (emit (EvDriveRequest fid) st)) as Hs'
        by apply same_store_emit.
      destruct f; simpl; destruct (rc + 1 <? max_retries) eqn:E;
        try (intros [= <- <-];
             apply fetch_run_stop; [done|lia|lia|lia|by left|done|done]);
        apply Z.ltb_lt in E; intros H; apply IH in H;
        (eapply fetch_run_retry; [exact Hs'| | | | | |exact H]; [lia|lia|lia|done|reflexivity]).
Qed.

(** [download_video] after line 216: the resume record is written, then
    either the artifact on disk is returned or the retry loop runs. *)
Lemma download_video_cases max_retries drive now recipe st :
  let rid := str_id (id recipe) in
  let st0 :=
    save_resume_data
      (set_resume_data
         (dict_set rid (downloading_record now recipe) (resume_data st)) st) in
  download_video max_retries drive now recipe st
  = if cached rid st then (Ok (original_path rid), st0)
    else if no_file_id (public_url recipe) then (Raise ValueError, st0)
    else
      match extract_file_id (public_url recipe) with
      | Some file_id =>
          download_attempts max_retries drive file_id (original_path rid) 0 st0
      | None => (Raise ValueError, st0)
      end.
Proof.
  intros rid st0. unfold download_video, cached, no_file_id.
  fold rid. fold (downloading_record now recipe). fold st0.
  change (fs st0) with (fs st).
  destruct (fs st !! original_path rid) as [sz|]; [destruct (MiB <? sz)%N; [done|]|];
    destruct (extract_file_id _) as [fid|]; try done; by destruct (String.eqb fid "").
Qed.

Lemma download_video_run max_retries drive now recipe st r st' :
  download_video max_retries drive now recipe st = (r, st') →
  ∃ st0,
    st0 = save_resume_data
            (set_resume_data
               (dict_set (str_id (id recipe)) (downloading_record now recipe)
                  (resume_data st)) st) ∧
    (if cached (str_id (id recipe)) st then r = Ok (original_path (str_id (id recipe))) ∧ st' = st0
     else if no_file_id (public_url recipe) then r = Raise ValueError ∧ st' = st0
     else fetch_run max_retries (original_path (str_id (id recipe))) 0 st0 r st').
Proof.
  rewrite download_video_cases. cbv zeta. intros H. eexists. split; [reflexivity|].
  destruct (cached _ _); [by injection H as <- <-|].
  unfold no_file_id in *.
  destruct (extract_file_id _) as [fid|]; [|by injection H as <- <-].
  destruct (String.eqb fid ""); [by injection H as <- <-|].
  by apply download_attempts_run in H.
Qed.

(** X11. One call of [download_video] starts at most [max_retries]
    attempts, each of which builds one [get_media] request (line 239), and
    sleeps at most [max_retries - 1] times between attempts, whatever the
    store answers. This bounds the attempts, not the traffic: the calls of
    [next_chunk] within an attempt are not bounded by [max_retries]
    (see [download_video_chunk_timeouts]). *)
Theorem download_video_bounded max_retries drive now recipe st r st' :
  0 ≤ max_retries →
  download_video max_retries drive now recipe st = (r, st') →
  count is_request st' - count is_request st ≤ max_retries ∧
  count is_attempt_sleep st' - count is_attempt_sleep st ≤ Z.max 0 (max_retries - 1).
Proof.
  intros Hmax (st0 & Hst0 & H)%download_video_run.
  assert (count is_request st0 = count is_request st ∧
          count is_attempt_sleep st0 = count is_attempt_sleep st) as [H1 H2].
  { subst st0. unfold save_resume_data. rewrite !count_emit. simpl. unfold count. simpl.
    lia. }
  destruct (cached _ _); [destruct H as [_ ->]; lia|].
  destruct (no_file_id _); [destruct H as [_ ->]; lia|].
  destruct H as (_ & _ & _ & H3 & H4 & _). lia.
Qed.

Lemma download_video_frame max_retries drive now recipe st r st' :
  download_video max_retries drive now recipe st = (r, st') →
  dict_get (str_id (id recipe)) (resume_data st')
    = Some (downloading_record now recipe) ∧
  (∀ k, k ≠ str_id (id recipe) →
        dict_get k (resume_data st') = dict_get k (resume_data st)) ∧
  resume_data_file st' = Some (resume_data st') ∧
  (∀ q, q ≠ original_path (str_id (id recipe)) → fs st' !! q = fs st !! q) ∧
  match r with
  | Ok p => p = original_path (str_id (id recipe)) ∧ is_Some (fs st' !! p)
  | _ => fs st' = fs st
  end ∧
  recipes st' = recipes st ∧ used_recipes st' = used_recipes st ∧
  used_recipes_file st' = used_recipes_file st ∧
  count is_remove st' = count is_remove st.
Proof.
  intros (st0 & Hst0 & H)%download_video_run.
  assert (dict_get (str_id (id recipe)) (resume_data st0)
            = Some (downloading_record now recipe) ∧
          (∀ k, k ≠ str_id (id recipe) →
                dict_get k (resume_data st0) = dict_get k (resume_data st)) ∧
          resume_data_file st0 = Some (resume_data st0) ∧ fs st0 = fs st ∧
          recipes st0 = recipes st ∧ used_recipes st0 = used_recipes st ∧
          used_recipes_file st0 = used_recipes_file st ∧
          count is_remove st0 = count is_remove st)
    as (H1 & H2 & H3 & H4 & H5 & H6 & H7 & H8).
  { subst st0. unfold save_resume_data. rewrite count_emit. simpl.
    split; [apply dict_get_set_eq|]. split; [|by rewrite Z.add_0_r].
    intros k Hk. apply dict_get_set_ne. congruence. }
  destruct (cached _ st) eqn:Hc.
  { destruct H as [-> ->]. do 3 (split; [done|]). split; [by rewrite H4|].
    split; [|done]. split; [done|]. rewrite H4. unfold cached in Hc.
    by destruct (fs st !! _). }
  destruct (no_file_id _).
  { destruct H as [-> ->]. do 3 (split; [done|]). split; [by rewrite H4|].
    by rewrite H4. }
  destruct H as ((Hr & Hu & Hd & _ & Huf & Hf & Hq) & Hres & _ & _ & _ & Hrm).
  rewrite Hd, Hf, Hr, Hu, Huf, Hrm. do 3 (split; [done|]).
  split; [intros q Hne; by rewrite Hq, H4|].
  split; [|done].
  destruct r as [p| |]; [|congruence..].
  destruct Hres as [-> ?]. done.
Qed.

(** X12. Whatever the outcome of [download_video], the resume record of the
    item says [downloading] and the resume file holds the mapping, the
    other records and the other files are as before; a returned path is
    the path of the original, which then exists, and a failed call leaves
    every file as it was. *)
Theorem download_video_outcome max_retries drive now recipe st r st' :
  download_video max_retries drive now recipe st = (r, st') →
  dict_get (str_id (id recipe)) (resume_data st')
    = Some (downloading_record now recipe) ∧
  (∀ k, k ≠ str_id (id recipe) →
        dict_get k (resume_data st') = dict_get k (resume_data st)) ∧
  resume_data_file st' = Some (resume_data st') ∧
  (∀ q, q ≠ original_path (str_id (id recipe)) → fs st' !! q = fs st !! q) ∧
  match r with
  | Ok p => p = original_path (str_id (id recipe)) ∧ is_Some (fs st' !! p)
  | _ => fs st' = fs st
  end.
Proof.
  intros (H1 & H2 & H3 & H4 & H5 & _)%download_video_frame. by repeat split.
Qed.


Lemma class_delays_app c evs1 evs2 :
  class_delays c (evs1 ++ evs2) = class_delays c evs1 ++ class_delays c evs2.
Proof.
  induction evs1 as [|e evs1 IH]; [done|]. destruct e; simpl; try done.
  destruct (decide _); [|done]. simpl. by rewrite IH.
Qed.

(** Timeouts of [next_chunk] before the last chunk: each is one more call
    and one more sleep at the delay of the counter, which stays. *)
Lemma download_chunks_timeouts rc (n : nat) size buf st :
  ∃ st' evs,
    download_chunks rc (replicate n (Failed FTimeout) ++ [Returned (size, true)]) buf st
    = (Ok (buf + size)%N, st') ∧
    trace st' = trace st ++ evs ∧
    fs st' = fs st ∧
    Z.of_nat (length (List.filter is_drive_chunk evs)) = Z.of_nat n + 1 ∧
    List.filter is_request evs = [] ∧
    class_delays ChunkTimeoutRetry evs = replicate n (chunk_timeout_delay rc).
Proof.
  revert st. induction n as [|n IH]; intros st.
  - exists (emit EvDriveChunk st), [EvDriveChunk]. by repeat split.
  - cbn [replicate app download_chunks].
    destruct (IH (emit (EvSleep ChunkTimeoutRetry (chunk_timeout_delay rc))
                    (emit EvDriveChunk st)))
      as (st' & evs & Hrun & Ht & Hfs & Hn & Hq & Hd).
    exists st', ([EvDriveChunk; EvSleep ChunkTimeoutRetry (chunk_timeout_delay rc)] ++ evs).
    split; [done|]. split; [rewrite Ht; simpl; by rewrite <- !app_assoc|].
    split; [done|]. split; [simpl; lia|]. split; [done|].
    simpl. by rewrite Hd.
Qed.

(** X28. The calls of [next_chunk], which are the traffic to the store, are
    not bounded by [max_retries]: a timeout of [next_chunk] is asked again
    within the same attempt and the attempt is not counted. When no
    complete original is on disk, the link gives a file identifier and
    [max_retries] is positive, a first attempt whose [next_chunk] times out
    [n] times before the file arrives makes [n + 1] calls of [next_chunk]
    in that one attempt, sleeps one second after each timeout, and returns
    the file: for every [n], whatever [max_retries]. *)
Theorem download_video_chunk_timeouts max_retries now recipe st (n : nat) size rest :
  0 < max_retries →
  cached (str_id (id recipe)) st = false →
  no_file_id (public_url recipe) = false →
  ∃ st' evs,
    download_video max_retries
      ({| da_request := Returned tt;
          da_chunks := replicate n (Failed FTimeout) ++ [Returned (size, true)] |}
       :: rest) now recipe st
    = (Ok (original_path (str_id (id recipe))), st') ∧
    trace st' = trace st ++ evs ∧
    count is_drive_chunk st' - count is_drive_chunk st = Z.of_nat n + 1 ∧
    count is_request st' - count is_request st = 1 ∧
    class_delays ChunkTimeoutRetry evs = replicate n 1 ∧
    fs st' !! original_path (str_id (id recipe)) = Some size.
Proof.
  intros Hmax Hc Hid. rewrite download_video_cases. cbv zeta.
  rewrite Hc, Hid. unfold no_file_id in Hid.
  destruct (extract_file_id _) as [fid|]; [|done].
  set (st0 := save_resume_data _).
  assert (trace st0 = trace st ++ [EvSaveResume (resume_data st0)]) as Ht0 by done.
  cbn [download_attempts da_request da_chunks].
  replace (0 <? max_retries) with true by (symmetry; apply Z.ltb_lt; lia).
  destruct (download_chunks_timeouts 0 n size 0%N (emit (EvDriveRequest fid) st0))
    as (st1 & evs & Hrun & Ht & Hfs & Hn & Hq & Hd).
  rewrite Hrun. eexists _, _. split; [reflexivity|].
  set (path := original_path (str_id (id recipe))) in *.
  assert (trace (emit (EvWriteFile path (0 + size))
                   (set_fs (<[path := (0 + size)%N]> (fs st1)) st1))
          = trace st ++ ([EvSaveResume (resume_data st0); EvDriveRequest fid] ++ evs
                         ++ [EvWriteFile path (0 + size)])) as Hall.
  { change (trace st1 ++ [EvWriteFile path (0 + size)]
            = trace st ++ ([EvSaveResume (resume_data st0); EvDriveRequest fid] ++ evs
                           ++ [EvWriteFile path (0 + size)])).
    rewrite Ht.
    change (trace (emit (EvDriveRequest fid) st0)) with (trace st0 ++ [EvDriveRequest fid]).
    rewrite Ht0. by rewrite <- !app_assoc. }
  split; [exact Hall|].
  rewrite !(count_app _ _ _ _ Hall).
  rewrite !List.filter_app, !length_app, Hq. simpl.
  split; [lia|]. split; [lia|]. split.
  - rewrite class_delays_app, Hd. simpl. by rewrite app_nil_r.
  - by rewrite lookup_insert_eq.
Qed.


Lemma download_attempts_fail max_retries fid path drive rc st :
  rc < max_retries →
  (Z.to_nat (max_retries - rc) ≤ length drive)%nat →
  Forall (fun a => attempt_fails a = true) (take (Z.to_nat (max_retries - rc)) drive) →
  ∃ e st',
    download_attempts max_retries drive fid path rc st = (Raise e, st') ∧
    count is_request st' - count is_request st = max_retries - rc ∧
    count is_attempt_sleep st' - count is_attempt_sleep st = max_retries - rc - 1 ∧
    fs st' = fs st.
Proof.
  revert rc st. induction drive as [|a drive IH]; intros rc st Hlt Hlen Hall.
  { simpl in Hlen. lia. }
  replace (Z.to_nat (max_retries - rc)) with (S (Z.to_nat (max_retries - (rc + 1))))
    in Hlen, Hall by lia.
  simpl in Hlen. rewrite firstn_cons in Hall. inversion Hall as [|? ? Ha Hrest]; subst.
  assert (∀ c d e s,
            same_store st s →
            count is_request s = count is_request st + 1 →
            count is_attempt_sleep s = count is_attempt_sleep st →
            is_attempt_sleep (EvSleep c d) = true →
            ∃ e' st',
              (if rc + 1 <? max_retries
               then download_attempts max_retries drive fid path (rc + 1)
                      (emit (EvSleep c d) s)
               else (Raise e, s)) = (Raise e', st') ∧
              count is_request st' - count is_request st = max_retries - rc ∧
              count is_attempt_sleep st' - count is_attempt_sleep st
                = max_retries - rc - 1 ∧
              fs st' = fs st) as Hnext.
  { intros c d e s Hs H1 H2 Hc. destruct (rc + 1 <? max_retries) eqn:E.
    - apply Z.ltb_lt in E.
      destruct (IH (rc + 1) (emit (EvSleep c d) s) E) as (e' & st' & H & H3 & H4 & H5);
        [lia|done|].
      exists e', st'. split; [done|]. rewrite !count_emit in H3, H4.
      rewrite Hc in H4. simpl in H3, H5. destruct Hs as (_&_&_&Hfs&_). split; [lia|]. split; [lia|congruence].
    - apply Z.ltb_ge in E. exists e, s. split; [done|].
      destruct Hs as (_&_&_&Hfs&_). split; [lia|]. split; [lia|done]. }
  pose proof (count_emit is_request (EvDriveRequest fid) st) as Hq.
  pose proof (count_emit is_attempt_sleep (EvDriveRequest fid) st) as Hz.
  simpl in Hq, Hz.
  simpl. apply Z.ltb_lt in Hlt as Hlt'. rewrite Hlt'.
  unfold attempt_fails in Ha. destruct (da_request a) as [[]|f].
  - destruct (download_chunks _ _ _ _) as [res s] eqn:Hch.
    apply download_chunks_run in Hch as (Hs & Hc1 & Hc2 & _ & Hn1 & _ & Hf).
    destruct (Hf Ha) as [e ->].
    assert (same_store st s) as Hs'.
    { eapply same_store_trans; [apply same_store_emit|exact Hs]. }
    destruct e; try done;
      (eapply (Hnext DownloadErrorRetry); [exact Hs'|lia|lia|reflexivity]).
  - destruct f; simpl;
      [eapply (Hnext DownloadTimeoutRetry)|eapply (Hnext DownloadErrorRetry)..];
      first [apply same_store_emit|lia|reflexivity].
Qed.

(** X14. When no complete original is on disk, the link gives a file
    identifier and each of the first [max_retries] attempts fails,
    [download_video] raises after exactly [max_retries] requests and
    [max_retries - 1] sleeps between them, and leaves every file as it
    was. *)
Theorem download_video_gives_up max_retries drive now recipe st :
  0 < max_retries →
  cached (str_id (id recipe)) st = false →
  no_file_id (public_url recipe) = false →
  (Z.to_nat max_retries ≤ length drive)%nat →
  Forall (fun a => attempt_fails a = true) (take (Z.to_nat max_retries) drive) →
  ∃ e st',
    download_video max_retries drive now recipe st = (Raise e, st') ∧
    count is_request st' - count is_request st = max_retries ∧
    count is_attempt_sleep st' - count is_attempt_sleep st = max_retries - 1 ∧
    fs st' = fs st.
Proof.
  intros Hmax Hc Hid Hlen Hall. rewrite download_video_cases. cbv zeta.
  rewrite Hc, Hid. unfold no_file_id in Hid.
  destruct (extract_file_id _) as [fid|]; [|done].
  set (st0 := save_resume_data _).
  destruct (download_attempts_fail max_retries fid
              (original_path (str_id (id recipe))) drive 0 st0)
    as (e & st' & H & H1 & H2 & H3); [lia|by rewrite Z.sub_0_r..|].
  exists e, st'. split; [done|].
  assert (count is_request st0 = count is_request st ∧
          count is_attempt_sleep st0 = count is_attempt_sleep st) as [H4 H5].
  { subst st0. unfold save_resume_data. rewrite !count_emit. simpl. unfold count. simpl.
    lia. }
  split; [lia|]. split; [lia|]. by rewrite H3.
Qed.

(** ** Uploader: calls, sleeps and the resume record *)

Lemma upload_pass_run max_retries r l st :
  let p := upload_pass max_retries r l st in
  same_store st (pass_state p) ∧
  count is_upload_chunk (pass_state p) = count is_upload_chunk st + 1 ∧
  count is_remove (pass_state p) = count is_remove st ∧
  count is_upload_sleep (pass_state p) - count is_upload_sleep st
    = retry_count (pass_loop p) - retry_count l ∧
  retry_count l ≤ retry_count (pass_loop p) ≤ retry_count l + 1 ∧
  match p with
  | Continue l' _ => retry_count l' = retry_count l ∨ retry_count l' < max_retries
  | Abort _ _ _ => True
  end.
Proof.
  intros p. destruct (upload_pass_trace max_retries r l st) as [Hs Ht]. fold p in Hs, Ht.
  split; [done|].
  assert (match p with
          | Continue l' _ => retry_count l' = retry_count l ∨ retry_count l' < max_retries
          | Abort _ _ _ => True
          end) as Hp.
  { subst p. unfold upload_pass, retry_handler.
    destruct r as [[[cur|] resp]|[|code|msg]]; simpl;
      repeat match goal with
             | |- context [if ?b then _ else _] => destruct b eqn:?
             end; simpl; auto; right; lia. }
  destruct Ht as [[Ht Hrc]|(c & Hc & Ht & Hrc)].
  - rewrite !(count_app _ _ _ _ Ht). simpl.
    repeat split; try lia. done.
  - rewrite !(count_app _ _ _ _ Ht). simpl.
    rewrite Hc. simpl. repeat split; try lia. done.
Qed.

Lemma upload_loop_run max_retries youtube l st r l' st' :
  upload_loop max_retries youtube l st = (r, l', st') →
  same_store st st' ∧
  count is_upload_sleep st' - count is_upload_sleep st
    = retry_count l' - retry_count l ∧
  retry_count l ≤ retry_count l' ≤ Z.max (retry_count l) max_retries ∧
  count is_remove st' = count is_remove st.
Proof.
  revert l st. induction youtube as [|y youtube IH]; intros l st; simpl.
  - destruct (loop_guard _ _); intros [= <- <- <-];
      (split; [apply same_store_refl|split; [lia|split; [lia|done]]]).
  - destruct (loop_guard max_retries l) eqn:Hg;
      [|intros [= <- <- <-];
        (split; [apply same_store_refl|split; [lia|split; [lia|done]]])].
    assert (retry_count l < max_retries) as Hlt.
    { unfold loop_guard in Hg. destruct (response l); [done|]. by apply Z.ltb_lt. }
    pose proof (upload_pass_run max_retries y l st) as (Hs & _ & Hm & Hz & Hrc & Hp).
    destruct (upload_pass max_retries y l st) as [l1 s1|e l1 s1]; simpl in *.
    + intros H. apply IH in H as (Hs' & Hz' & Hrc' & Hm').
      split; [by eapply same_store_trans|]. split; [lia|]. split; [lia|congruence].
    + intros [= <- <- <-]. split; [done|]. split; [lia|]. split; [lia|done].
Qed.

(** X15. [upload_to_youtube] raises [KeyError] for an item without a resume
    record and [FileNotFoundError] for a file that is not there, and in
    both cases nothing is sent to the video service; in the second the
    record has been marked [uploading] with the path and written out, and
    the next run finds nothing to resume from. *)
Theorem upload_to_youtube_preconditions max_retries youtube today video_path recipe st :
  (dict_get (str_id (id recipe)) (resume_data st) = None →
   upload_to_youtube max_retries youtube today video_path recipe st
   = (Raise KeyError, st)) ∧
  (∀ rec,
     dict_get (str_id (id recipe)) (resume_data st) = Some rec →
     fs st !! video_path = None →
     ∃ st',
       upload_to_youtube max_retries youtube today video_path recipe st
       = (Raise FileNotFoundError, st') ∧
       count is_youtube st' = count is_youtube st ∧
       dict_get (str_id (id recipe)) (resume_data st')
       = Some (set_uploading video_path rec) ∧
       resume_data_file st' = Some (resume_data st') ∧
       resume_path (str_id (id recipe)) st' = None).
Proof.
  unfold upload_to_youtube. split.
  - by intros ->.
  - intros rec -> Hfs. simpl. rewrite Hfs. eexists. split; [reflexivity|].
    unfold upload_entry, save_resume_data. rewrite count_emit. simpl.
    split; [unfold count; simpl; lia|].
    split; [apply dict_get_set_eq|]. split; [done|].
    unfold resume_path. simpl. rewrite dict_get_set_eq. simpl.
    rewrite Hfs. rewrite bool_decide_eq_false_2; [by rewrite andb_false_r|].
    by intros [? ?].
Qed.

(** X16. One call of [upload_to_youtube] sleeps at most [max_retries]
    times, whatever the video service answers, and changes no local file
    and no catalog entry. *)
Theorem upload_to_youtube_bounded max_retries youtube today video_path recipe st r st' :
  0 ≤ max_retries →
  upload_to_youtube max_retries youtube today video_path recipe st = (r, st') →
  count is_upload_sleep st' - count is_upload_sleep st ≤ max_retries ∧
  fs st' = fs st ∧ recipes st' = recipes st.
Proof.
  intros Hmax. unfold upload_to_youtube.
  destruct (dict_get _ _) as [rec|]; [|intros [= _ <-]; split; [lia|done]].
  set (s1 := upload_entry _ _ _ _).
  assert (count is_upload_sleep s1 = count is_upload_sleep st ∧
          fs s1 = fs st ∧ recipes s1 = recipes st) as (H1 & H2 & H3).
  { subst s1. unfold upload_entry, save_resume_data. rewrite count_emit. simpl.
    unfold count. simpl. split; [lia|done]. }
  destruct (fs s1 !! video_path); [|intros [= _ <-]; split; [lia|done]].
  destruct (upload_loop _ _ _ _) as [[res l] s2] eqn:Hloop.
  apply upload_loop_run in Hloop as ((Hr & _ & _ & Hf & _) & Hz & Hrc & _).
  rewrite count_emit in Hz. simpl in Hz, Hr, Hf, Hrc.
  assert (count is_upload_sleep s2 - count is_upload_sleep st ≤ max_retries ∧
          fs s2 = fs st ∧ recipes s2 = recipes st) as Hs2.
  { split; [lia|]. split; congruence. }
  destruct res as [[]|e|]; try by intros [= _ <-].
  intros H. destruct r as [url| |].
  - unfold finish_upload in H. destruct (response l) as [resp|]; [|done].
    destruct (bool_decide _); [done|]. destruct (resp !! "id"); [|done].
    injection H as _ <-.
    destruct Hs2 as (Hs2 & Hs3 & Hs4).
    destruct (dict_get _ _); unfold save_resume_data, count in *; simpl;
      rewrite ?List.filter_app, ?length_app; simpl; (split; [lia|done]).
  - apply finish_upload_not_ok in H as ->; done.
  - apply finish_upload_not_ok in H as ->; done.
Qed.

Lemma upload_loop_fail max_retries youtube l st :
  response l = None →
  retry_count l < max_retries →
  (Z.to_nat (max_retries - retry_count l) ≤ length youtube)%nat →
  Forall (fun y => is_retryable y = true)
    (take (Z.to_nat (max_retries - retry_count l)) youtube) →
  ∃ e l' st',
    upload_loop max_retries youtube l st = (Raise e, l', st') ∧
    count is_upload_chunk st' - count is_upload_chunk st
      = max_retries - retry_count l ∧
    count is_upload_sleep st' - count is_upload_sleep st
      = max_retries - retry_count l.
Proof.
  revert l st. induction youtube as [|y youtube IH]; intros l st Hresp Hlt Hlen Hall.
  { simpl in Hlen. lia. }
  replace (Z.to_nat (max_retries - retry_count l))
    with (S (Z.to_nat (max_retries - (retry_count l + 1)))) in Hlen, Hall by lia.
  simpl in Hlen. rewrite firstn_cons in Hall. inversion Hall as [|? ? Hy Hrest]; subst.
  assert (Z.to_nat (max_retries - (retry_count l + 1)) ≤ length youtube)%nat as Hlen'
    by lia.
  simpl. unfold loop_guard. rewrite Hresp. apply Z.ltb_lt in Hlt as Hlt'. rewrite Hlt'.
  assert (∃ c e,
            upload_pass max_retries y l st = retry_handler c e max_retries l
                                               (emit EvYoutubeChunk st) ∧
            is_upload_class c = true) as (c & e & -> & Hc).
  { unfold upload_pass. destruct y as [|[|code|msg]]; simpl in Hy; [done|..].
    - by exists UploadTimeoutRetry, SocketTimeout.
    - rewrite Hy. by exists UploadServerRetry, (HttpError code).
    - by exists UploadErrorRetry, (OtherError msg). }
  unfold retry_handler. cbv zeta. cbn [retry_count].
  destruct (max_retries <=? retry_count l + 1) eqn:E.
  - apply Z.leb_le in E. eexists _, _, _. split; [reflexivity|].
    rewrite !count_emit. simpl. rewrite Hc. lia.
  - apply Z.leb_gt in E.
    set (l1 := {| response := response l; retry_count := retry_count l + 1;
                  last_progress := last_progress l;
                  stalled_count := stalled_count l |}).
    set (s1 := emit (EvSleep c _) _).
    destruct (IH l1 s1) as (e' & l' & st' & H & H1 & H2);
      [exact Hresp|simpl; lia|exact Hlen'|exact Hrest|].
    exists e', l', st'. split; [exact H|].
    subst s1. rewrite !count_emit in H1, H2. simpl in H1, H2. rewrite Hc in H2. lia.
Qed.

(** X17. When the item has a resume record, the file exists and each of the
    first [max_retries] answers of the video service is a timeout, a server
    error or another retried error, [upload_to_youtube] raises after
    exactly [max_retries] calls of [next_chunk] and as many sleeps, and the
    ledger is as before. *)
Theorem upload_to_youtube_gives_up max_retries youtube today video_path recipe st :
  0 < max_retries →
  is_Some (dict_get (str_id (id recipe)) (resume_data st)) →
  is_Some (fs st !! video_path) →
  (Z.to_nat max_retries ≤ length youtube)%nat →
  Forall (fun y => is_retryable y = true) (take (Z.to_nat max_retries) youtube) →
  ∃ e st',
    upload_to_youtube max_retries youtube today video_path recipe st = (Raise e, st') ∧
    count is_upload_chunk st' - count is_upload_chunk st = max_retries ∧
    count is_upload_sleep st' - count is_upload_sleep st = max_retries ∧
    used_recipes st' = used_recipes st ∧
    used_recipes_file st' = used_recipes_file st.
Proof.
  intros Hmax [rec Hrec] [sz Hsz] Hlen Hall. unfold upload_to_youtube. rewrite Hrec.
  set (s1 := upload_entry _ _ _ _). change (fs s1) with (fs st). rewrite Hsz.
  set (s2 := emit _ s1).
  destruct (upload_loop_fail max_retries youtube loop_init s2)
    as (e & l' & st' & H & H1 & H2); [done|simpl; lia|by rewrite Z.sub_0_r..|].
  rewrite H. exists e, st'. split; [done|].
  apply upload_loop_run in H as ((_ & Hu & _ & _ & _ & Hf & _) & _).
  subst s2 s1. unfold upload_entry, save_resume_data in *.
  rewrite !count_emit in H1, H2. simpl in *. unfold count in *. simpl in *.
  split; [lia|]. split; [lia|done].
Qed.

(** X18. An upload that does not return a link leaves the item resumable:
    when the item had a resume record and the file exists under a non-empty
    path, the record afterwards says [uploading] with that path, the file
    is still there, and the next run takes the path from the record. *)
Theorem upload_to_youtube_resumable max_retries youtube today video_path recipe st r st' :
  is_Some (dict_get (str_id (id recipe)) (resume_data st)) →
  is_Some (fs st !! video_path) →
  video_path ≠ "" →
  upload_to_youtube max_retries youtube today video_path recipe st = (r, st') →
  (∀ url, r ≠ Ok url) →
  resume_path (str_id (id recipe)) st' = Some video_path ∧
  resume_data_file st' = Some (resume_data st').
Proof.
  intros [rec Hrec] [sz Hsz] Hne. unfold upload_to_youtube. rewrite Hrec.
  set (s1 := upload_entry _ _ _ _). change (fs s1) with (fs st). rewrite Hsz.
  assert (∀ s, same_store s1 s →
               resume_path (str_id (id recipe)) s = Some video_path ∧
               resume_data_file s = Some (resume_data s)) as Hgoal.
  { intros s (_ & _ & Hd & Hf & _ & _ & Hdf). split.
    - eapply resume_path_uploading; [| | |done|].
      + rewrite Hd. subst s1. simpl. apply dict_get_set_eq.
      + done.
      + done.
      + rewrite Hf. subst s1. simpl. by rewrite Hsz.
    - by rewrite Hdf, Hd. }
  destruct (upload_loop _ _ _ _) as [[res l] s2] eqn:Hloop.
  apply upload_loop_run in Hloop as (Hs & _).
  assert (same_store s1 s2) as Hs'.
  { eapply same_store_trans; [apply same_store_emit|exact Hs]. }
  destruct res as [[]|e|].
  - intros H Hr. apply finish_upload_not_ok in H as ->; [|done]. by apply Hgoal.
  - intros [= _ <-] _. by apply Hgoal.
  - intros [= _ <-] _. by apply Hgoal.
Qed.

(** ** Temporary files *)

Lemma remove_if_exists_fs path st :
  fs (remove_if_exists path st) = delete path (fs st).
Proof.
  unfold remove_if_exists. destruct (fs st !! path) eqn:E; [done|].
  by rewrite delete_id.
Qed.

Lemma remove_if_exists_count path st :
  count is_remove (remove_if_exists path st)
  = count is_remove st + (if bool_decide (is_Some (fs st !! path)) then 1 else 0).
Proof.
  unfold remove_if_exists. destruct (fs st !! path) eqn:E.
  - rewrite count_emit, bool_decide_eq_true_2 by by eexists. done.
  - rewrite bool_decide_eq_false_2 by by intros [? ?]. lia.
Qed.

Lemma remove_if_exists_absent path st :
  fs st !! path = None → remove_if_exists path st = st.
Proof. unfold remove_if_exists. by intros ->. Qed.

Lemma cleanup_fs rid st :
  fs (cleanup rid st) = delete (compressed_path rid) (delete (original_path rid) (fs st)).
Proof. unfold cleanup. by rewrite !remove_if_exists_fs. Qed.

Lemma cleanup_spec_aux rid st :
  fs (cleanup rid st) !! original_path rid = None ∧
  fs (cleanup rid st) !! compressed_path rid = None.
Proof.
  pose proof (compressed_ne_original rid rid) as Hne.
  rewrite cleanup_fs. split.
  - by rewrite lookup_delete_ne, lookup_delete_eq.
  - by rewrite lookup_delete_eq.
Qed.

(** X19. After [cleanup] neither the original nor the compressed artifact
    of the item is on disk, every other file is as before, one removal is
    made for each of the two that was there, and a second [cleanup] changes
    nothing. *)
Theorem cleanup_spec rid st :
  fs (cleanup rid st) !! original_path rid = None ∧
  fs (cleanup rid st) !! compressed_path rid = None ∧
  (∀ q, q ≠ original_path rid → q ≠ compressed_path rid →
        fs (cleanup rid st) !! q = fs st !! q) ∧
  count is_remove (cleanup rid st)
  = count is_remove st
    + (if bool_decide (is_Some (fs st !! original_path rid)) then 1 else 0)
    + (if bool_decide (is_Some (fs st !! compressed_path rid)) then 1 else 0) ∧
  cleanup rid (cleanup rid st) = cleanup rid st.
Proof.
  pose proof (compressed_ne_original rid rid) as Hne.
  rewrite cleanup_fs. split; [|split; [|split; [|split]]].
  - by rewrite lookup_delete_ne, lookup_delete_eq.
  - by rewrite lookup_delete_eq.
  - intros q H1 H2. by rewrite !lookup_delete_ne.
  - unfold cleanup. rewrite !remove_if_exists_count, remove_if_exists_fs.
    by rewrite lookup_delete_ne.
  - unfold cleanup at 1.
    rewrite (remove_if_exists_absent (original_path rid)).
    + apply remove_if_exists_absent. rewrite cleanup_fs. by rewrite lookup_delete_eq.
    + rewrite cleanup_fs. by rewrite lookup_delete_ne, lookup_delete_eq.
Qed.

(** ** What the stages keep *)

Lemma keeps_files_refl a : keeps_files a a.
Proof. by repeat split. Qed.

Lemma keeps_files_trans a b c : keeps_files a b → keeps_files b c → keeps_files a c.
Proof.
  intros (H1 & H2 & H3) (K1 & K2 & K3). split; [|split; congruence].
  intros q Hq. by apply K1, H1.
Qed.

Lemma same_store_keeps a b :
  same_store a b → count is_remove b = count is_remove a → keeps_files a b.
Proof. intros (Hr & _ & _ & Hf & _) Hc. split; [|done]. intros q. by rewrite Hf. Qed.

Lemma synced_save_resume_data st :
  default ∅ (used_recipes_file st) = used_recipes st → synced (save_resume_data st).
Proof. by split. Qed.

Lemma synced_same_store a b : same_store a b → synced a → synced b.
Proof.
  intros (_ & Hu & Hd & _ & _ & Huf & Hdf) [H1 H2]. unfold synced.
  by rewrite Hu, Hd, Huf, Hdf.
Qed.

Lemma synced_same_but path a b : same_but path a b → synced a → synced b.
Proof.
  intros (_ & Hu & Hd & _ & Huf & Hdf & _) [H1 H2]. unfold synced.
  by rewrite Hu, Hd, Huf, Hdf.
Qed.

Lemma download_video_keeps max_retries drive now recipe st r st' :
  download_video max_retries drive now recipe st = (r, st') →
  keeps_files st st' ∧ (synced st → synced st') ∧
  is_Some (dict_get (str_id (id recipe)) (resume_data st')).
Proof.
  intros (Hrec & _ & Hfile & Hq & Hres & Hr & Hu & Huf & Hrm)%download_video_frame.
  split; [|split].
  - split; [|done]. intros q Hsome.
    destruct (decide (q = original_path (str_id (id recipe)))) as [->|Hne];
      [|by rewrite Hq].
    destruct r as [p| |]; [by destruct Hres as [-> ?]|by rewrite Hres..].
  - intros [Hs _]. split; [by rewrite Hu, Huf|by rewrite Hfile].
  - rewrite Hrec. by eexists.
Qed.

Lemma run_compression_frame ff input output st r st' :
  run_compression ff input output st = (r, st') →
  same_but output st st' ∧
  (∀ q, is_Some (fs st !! q) → is_Some (fs st' !! q)) ∧
  count is_remove st' = count is_remove st ∧
  (r = Ok input ∨ r = Ok output) ∧
  0 ≤ count is_encode st' - count is_encode st ≤ 1 ∧
  (count is_encode st' - count is_encode st = 1 ↔
   ff_version ff = VersionOk ∧
   (∃ bytes, fs st !! input = Some bytes ∧ (10 * MiB ≤ bytes)%N) ∧
   duration_seconds (ff_stderr ff) ≠ 0).
Proof.
  unfold run_compression.
  assert (∀ d (P : Prop), d = 0 → ¬ P → 0 ≤ d ≤ 1 ∧ (d = 1 ↔ P)) as Hoff.
  { intros d P -> HP. split; [lia|]. split; [lia|done]. }
  assert (∀ s, trace s = trace st ++ [EvFfmpegVersion] ∨
               trace s = trace st ++ [EvFfmpegVersion; EvFfmpegProbe input] →
               count is_remove s = count is_remove st ∧
               count is_encode s - count is_encode st = 0) as Hcount.
  { intros s [Hs|Hs]; rewrite !(count_app _ _ _ _ Hs); simpl; lia. }
  assert (∀ s, fs s = fs st → recipes s = recipes st →
               used_recipes s = used_recipes st → resume_data s = resume_data st →
               catalog_file s = catalog_file st →
               used_recipes_file s = used_recipes_file st →
               resume_data_file s = resume_data_file st →
               same_but output st s ∧
               (∀ q, is_Some (fs st !! q) → is_Some (fs s !! q))) as Hsame.
  { intros s Hf ? ? ? ? ? ?. split; [repeat split; try done; intros; by rewrite Hf|].
    intros q. by rewrite Hf. }
  destruct (ff_version ff) eqn:Hv.
  2,3: intros [= <- <-];
    destruct (Hcount (emit EvFfmpegVersion st)) as [H1 H2]; [by left|];
    destruct (Hsame (emit EvFfmpegVersion st)) as [H3 H4]; try done;
    (do 4 (split; [by auto|])); apply Hoff; [done|by intros [? _]].
  cbv zeta. change (fs (emit EvFfmpegVersion st)) with (fs st).
  destruct (fs st !! input) as [n|] eqn:Hin.
  2: { intros [= <- <-].
       destruct (Hcount (emit EvFfmpegVersion st)) as [H1 H2]; [by left|].
       destruct (Hsame (emit EvFfmpegVersion st)) as [H3 H4]; try done.
       do 4 (split; [by auto|]). apply Hoff; [done|by intros (_ & (? & ? & _) & _)]. }
  destruct (Qlt_bool (size_mb n) small_file_mb) eqn:Hsmall.
  { intros [= <- <-].
    destruct (Hcount (emit EvFfmpegVersion st)) as [H1 H2]; [by left|].
    destruct (Hsame (emit EvFfmpegVersion st)) as [H3 H4]; try done.
    do 4 (split; [by auto|]). apply Hoff; [done|].
    intros (_ & (b & [= <-] & Hb) & _). apply not_small in Hb. congruence. }
  assert (10 * MiB ≤ n)%N as Hbig by (by apply small_iff).
  destruct (duration_seconds (ff_stderr ff) =? 0) eqn:Hdur.
  { apply Z.eqb_eq in Hdur. intros [= <- <-].
    destruct (Hcount (emit (EvFfmpegProbe input) (emit EvFfmpegVersion st)))
      as [H1 H2]; [right; simpl; by rewrite <- app_assoc|].
    destruct (Hsame (emit (EvFfmpegProbe input) (emit EvFfmpegVersion st)))
      as [H3 H4]; try done.
    do 4 (split; [by auto|]). apply Hoff; [done|by intros (_ & _ & ?)]. }
  apply Z.eqb_neq in Hdur.
  set (s1 := emit (EvFfmpegEncode _ _ _ _ _) _).
  set (s2 := match ff_output ff with Some _ => _ | None => _ end).
  assert (same_but output st s2 ∧
          (∀ q, is_Some (fs st !! q) → is_Some (fs s2 !! q)) ∧
          count is_remove s2 = count is_remove st ∧
          count is_encode s2 - count is_encode st = 1) as (H1 & H2 & H3 & H4).
  { assert (trace s2 = trace st ++ [EvFfmpegVersion; EvFfmpegProbe input]
                         ++ [EvFfmpegEncode input
                               (target_bitrate (size_mb n) (duration_seconds (ff_stderr ff)))
                               (max_bitrate (target_bitrate (size_mb n)
                                               (duration_seconds (ff_stderr ff))))
                               (target_bitrate (size_mb n)
                                  (duration_seconds (ff_stderr ff)) * 2) output])
      as Ht.
    { subst s2 s1. destruct (ff_output ff); simpl; by rewrite <- !app_assoc. }
    rewrite !(count_app _ _ _ _ Ht). simpl.
    split; [|split; [|lia]].
    - subst s2 s1. destruct (ff_output ff); repeat split; try done.
      intros q Hne. simpl. rewrite lookup_insert_ne; [done|congruence].
    - intros q Hq. subst s2 s1. destruct (ff_output ff); simpl; [|done].
      destruct (decide (output = q)) as [->|Hne].
      + rewrite lookup_insert_eq. by eexists.
      + by rewrite lookup_insert_ne.
  }
  assert (0 ≤ count is_encode s2 - count is_encode st ≤ 1 ∧
          (count is_encode s2 - count is_encode st = 1 ↔
           VersionOk = VersionOk ∧
           (∃ bytes, Some n = Some bytes ∧ (10 * MiB ≤ bytes)%N) ∧
           duration_seconds (ff_stderr ff) ≠ 0)) as H5.
  { split; [lia|]. split; [|done]. intros _. split; [done|]. split; [by exists n|done]. }
  destruct (negb _); [intros [= <- <-]; by auto 10|].
  destruct (fs s2 !! output) as [out|]; [|intros [= <- <-]; by auto 10].
  destruct (barely_smaller (size_mb n) (size_mb out));
    intros [= <- <-]; by auto 10.
Qed.

Lemma compress_video_frame ff input rid st r st' :
  compress_video ff input rid st = (r, st') →
  (∀ q, q ≠ compressed_path rid → fs st' !! q = fs st !! q) ∧
  (∀ q, is_Some (fs st !! q) → is_Some (fs st' !! q)) ∧
  count is_remove st' = count is_remove st ∧
  recipes st' = recipes st ∧ used_recipes st' = used_recipes st ∧
  used_recipes_file st' = used_recipes_file st ∧
  match dict_get rid (resume_data st) with
  | None => r = Raise KeyError ∧ st' = st
  | Some rec =>
      (r = Ok input ∨ r = Ok (compressed_path rid)) ∧
      resume_data st' = dict_set rid (set_status "compressing" rec) (resume_data st) ∧
      resume_data_file st' = Some (resume_data st')
  end ∧
  0 ≤ count is_encode st' - count is_encode st ≤ 1 ∧
  (count is_encode st' - count is_encode st = 1 ↔
   is_Some (dict_get rid (resume_data st)) ∧ reusable rid st = false ∧
   ff_version ff = VersionOk ∧
   (∃ bytes, fs st !! input = Some bytes ∧ (10 * MiB ≤ bytes)%N) ∧
   duration_seconds (ff_stderr ff) ≠ 0).
Proof.
  unfold compress_video, reusable.
  destruct (dict_get rid (resume_data st)) as [rec|] eqn:Hrec.
  2: { intros [= <- <-]. do 7 (split; [done|]). split; [lia|].
       split; [lia|]. by intros ([? ?] & _). }
  set (s1 := compress_entry rid rec st).
  assert (fs s1 = fs st ∧ recipes s1 = recipes st ∧ used_recipes s1 = used_recipes st ∧
          used_recipes_file s1 = used_recipes_file st ∧
          resume_data s1 = dict_set rid (set_status "compressing" rec) (resume_data st) ∧
          resume_data_file s1 = Some (resume_data s1) ∧
          count is_remove s1 = count is_remove st ∧
          count is_encode s1 = count is_encode st)
    as (Hf & Hr & Hu & Huf & Hd & Hdf & Hrm & Hen).
  { subst s1. unfold compress_entry, save_resume_data. rewrite !count_emit. simpl.
    unfold count. simpl. repeat split; lia. }
  rewrite Hf.
  assert (run_compression ff input (compressed_path rid) s1 = (r, st') →
          reusable rid st = false →
          (∀ q, q ≠ compressed_path rid → fs st' !! q = fs st !! q) ∧
          (∀ q, is_Some (fs st !! q) → is_Some (fs st' !! q)) ∧
          count is_remove st' = count is_remove st ∧
          recipes st' = recipes st ∧ used_recipes st' = used_recipes st ∧
          used_recipes_file st' = used_recipes_file st ∧
          ((r = Ok input ∨ r = Ok (compressed_path rid)) ∧
           resume_data st' = dict_set rid (set_status "compressing" rec) (resume_data st) ∧
           resume_data_file st' = Some (resume_data st')) ∧
          0 ≤ count is_encode st' - count is_encode st ≤ 1 ∧
          (count is_encode st' - count is_encode st = 1 ↔
           is_Some (Some rec) ∧ reusable rid st = false ∧
           ff_version ff = VersionOk ∧
           (∃ bytes, fs st !! input = Some bytes ∧ (10 * MiB ≤ bytes)%N) ∧
           duration_seconds (ff_stderr ff) ≠ 0)) as Hrun.
  { intros H Hreuse.
    apply run_compression_frame in H
      as ((Hr' & Hu' & Hd' & _ & Huf' & Hdf' & Hq) & Hk & Hrm' & Hres & Hb & Hiff).
    rewrite Hf in Hiff.
    split; [intros q Hne; by rewrite Hq, Hf|].
    split; [intros q Hq'; apply Hk; by rewrite Hf|].
    split; [congruence|]. split; [congruence|]. split; [congruence|].
    split; [congruence|]. split; [split; [done|split; congruence]|].
    rewrite <- Hen. split; [done|]. rewrite Hiff. split.
    - intros (? & ? & ?). split; [by eexists|]. done.
    - intros (_ & _ & ? & ? & ?). done. }
  unfold reusable in Hrun.
  destruct (fs st !! compressed_path rid) as [sz|] eqn:Hout; [|by auto].
  destruct (MiB <? sz)%N eqn:Hsz; [|by auto].
  intros [= <- <-]. split; [intros; by rewrite Hf|]. split; [intros q; by rewrite Hf|].
  do 4 (split; [done|]). split; [by auto|]. rewrite Hen. split; [lia|].
  split; [lia|]. by intros (_ & ? & _).
Qed.

(** X20. [compress_video] changes no file but the compressed artifact of
    the item and removes none. Without a resume record it raises
    [KeyError] and nothing has happened; with one it always returns a path,
    the input or the compressed artifact, and the record, marked
    [compressing], is in the resume file. *)
Theorem compress_video_outcome ff input rid st r st' :
  compress_video ff input rid st = (r, st') →
  (∀ q, q ≠ compressed_path rid → fs st' !! q = fs st !! q) ∧
  (∀ q, is_Some (fs st !! q) → is_Some (fs st' !! q)) ∧
  match dict_get rid (resume_data st) with
  | None => r = Raise KeyError ∧ st' = st
  | Some rec =>
      (r = Ok input ∨ r = Ok (compressed_path rid)) ∧
      dict_get rid (resume_data st') = Some (set_status "compressing" rec) ∧
      resume_data_file st' = Some (resume_data st')
  end.
Proof.
  intros (H1 & H2 & _ & _ & _ & _ & H3 & _)%compress_video_frame.
  split; [done|]. split; [done|].
  destruct (dict_get rid (resume_data st)) as [rec|]; [|done].
  destruct H3 as (? & Hd & ?). split; [done|]. split; [|done].
  rewrite Hd. apply dict_get_set_eq.
Qed.

(** X21. [compress_video] runs the encoder at most once, and it runs it
    exactly when the item has a resume record, no complete compressed
    artifact is on disk, the tool answers its probe, the input exists with
    at least 10 MiB and the duration read is not zero. *)
Theorem compress_video_encodes ff input rid st r st' :
  compress_video ff input rid st = (r, st') →
  0 ≤ count is_encode st' - count is_encode st ≤ 1 ∧
  (count is_encode st' - count is_encode st = 1 ↔
   is_Some (dict_get rid (resume_data st)) ∧ reusable rid st = false ∧
   ff_version ff = VersionOk ∧
   (∃ bytes, fs st !! input = Some bytes ∧ (10 * MiB ≤ bytes)%N) ∧
   duration_seconds (ff_stderr ff) ≠ 0).
Proof. by intros (_ & _ & _ & _ & _ & _ & _ & H)%compress_video_frame. Qed.

(** ** One run of the orchestrator *)

Lemma finish_upload_frame rid l st r st' :
  finish_upload rid l st = (r, st') →
  fs st' = fs st ∧ recipes st' = recipes st ∧
  count is_remove st' = count is_remove st ∧
  (synced st → synced st') ∧
  (∀ url, r = Ok url → url ≠ "" ∧ used_recipes st' = {[rid]} ∪ used_recipes st).
Proof.
  unfold finish_upload. destruct (response l) as [resp|]; [|by intros [= <- <-]].
  destruct (bool_decide _); [by intros [= <- <-]|].
  destruct (resp !! "id") as [vid|]; [|by intros [= <- <-]].
  intros [= <- <-]. cbv zeta.
  set (s1 := emit (EvSaveUsed _) _).
  assert (fs s1 = fs st ∧ recipes s1 = recipes st ∧
          count is_remove s1 = count is_remove st ∧
          used_recipes s1 = {[rid]} ∪ used_recipes st ∧
          used_recipes_file s1 = Some (used_recipes s1) ∧
          resume_data s1 = resume_data st ∧
          resume_data_file s1 = resume_data_file st)
    as (H1 & H2 & H3 & H4 & H5 & H6 & H7).
  { subst s1. rewrite count_emit. simpl. unfold count. simpl. repeat split; lia. }
  clearbody s1.
  assert (∀ url, Ok ("https://www.youtube.com/watch?v=" +:+ vid) = Ok url → url ≠ "")
    as Hurl.
  { intros url [= <-]. by rewrite string_app_cons. }
  destruct (dict_get rid (resume_data st)).
  - unfold save_resume_data. rewrite count_emit. simpl.
    split; [done|]. split; [done|]. split; [unfold count in *; simpl; lia|].
    split; [intros _; split; simpl; [by rewrite H5|done]|].
    intros url Hu. split; [by apply Hurl|done].
  - do 3 (split; [done|]).
    split; [intros [_ Hs]; split; [by rewrite H5|by rewrite H6, H7]|].
    intros url Hu. split; [by apply Hurl|done].
Qed.

Lemma upload_to_youtube_frame max_retries youtube today video_path recipe st r st' :
  upload_to_youtube max_retries youtube today video_path recipe st = (r, st') →
  fs st' = fs st ∧ recipes st' = recipes st ∧
  count is_remove st' = count is_remove st ∧
  (synced st → synced st') ∧
  (∀ url, r = Ok url →
          url ≠ "" ∧ used_recipes st' = {[str_id (id recipe)]} ∪ used_recipes st).
Proof.
  unfold upload_to_youtube.
  destruct (dict_get _ _) as [rec|]; [|by intros [= <- <-]].
  set (s1 := upload_entry _ _ _ _).
  assert (fs s1 = fs st ∧ recipes s1 = recipes st ∧
          count is_remove s1 = count is_remove st ∧
          used_recipes s1 = used_recipes st ∧
          (synced st → synced s1)) as (H1 & H2 & H3 & H4 & H5).
  { subst s1. unfold upload_entry, save_resume_data. rewrite count_emit. simpl.
    unfold count. simpl. split; [done|]. split; [done|]. split; [lia|].
    split; [done|]. by intros [? _]. }
  destruct (fs s1 !! video_path); [|by intros [= <- <-]].
  destruct (upload_loop _ _ _ _) as [[res l] s2] eqn:Hloop.
  apply upload_loop_run in Hloop as (Hs & _ & _ & Hrm).
  rewrite count_emit in Hrm. simpl in Hrm.
  assert (same_store s1 s2) as Hs'.
  { eapply same_store_trans; [apply same_store_emit|exact Hs]. }
  pose proof Hs' as (Hr' & Hu' & _ & Hf' & _).
  assert (fs s2 = fs st ∧ recipes s2 = recipes st ∧
          count is_remove s2 = count is_remove st ∧ (synced st → synced s2)) as Hs2.
  { split; [congruence|]. split; [congruence|]. split; [lia|].
    intros Hy. by eapply synced_same_store, H5. }
  destruct res as [[]|e|].
  - intros (K1 & K2 & K3 & K4 & K5)%finish_upload_frame.
    destruct Hs2 as (? & ? & ? & ?).
    split; [congruence|]. split; [congruence|]. split; [lia|]. split; [by auto|].
    intros url Hurl. destruct (K5 url Hurl) as [? ->]. split; [done|]. congruence.
  - intros [= <- <-]. destruct Hs2 as (? & ? & ? & ?). by do 4 (split; [done|]).
  - intros [= <- <-]. destruct Hs2 as (? & ? & ? & ?). by do 4 (split; [done|]).
Qed.

Lemma stage_artifact_keeps env recipe st r st' :
  stage_artifact env recipe st = (r, st') →
  keeps_files st st' ∧ (synced st → synced st').
Proof.
  unfold stage_artifact. destruct (resume_path _ _).
  { intros [= _ <-]. split; [apply keeps_files_refl|done]. }
  destruct (download_video _ _ _ _ _) as [rd sd] eqn:Hd.
  pose proof Hd as (Hk & Hsy & _)%download_video_keeps.
  destruct rd as [p|e|]; try by intros [= _ <-].
  intros (_ & K2 & K3 & K4 & K5 & K6 & K7 & _)%compress_video_frame.
  split.
  - eapply keeps_files_trans; [exact Hk|]. by repeat split.
  - intros Hs. specialize (Hsy Hs). destruct Hsy as [Hs1 Hs2].
    destruct (dict_get _ (resume_data sd)).
    + destruct K7 as (_ & _ & Hfile). unfold synced. by rewrite K5, K6, Hfile.
    + by destruct K7 as [_ ->].
Qed.

Lemma cleanup_synced rid st : synced st → synced (cleanup rid st).
Proof.
  destruct (cleanup_frame rid st) as (H1 & H2 & H3 & H4 & _).
  intros [? ?]. unfold synced. by rewrite H1, H2, H3, H4.
Qed.

Lemma cleanup_recipes rid st : recipes (cleanup rid st) = recipes st.
Proof.
  unfold cleanup, remove_if_exists.
  destruct (fs st !! original_path rid); simpl;
    destruct (_ !! compressed_path rid); done.
Qed.

Lemma process_recipe_run env recipe st r st' :
  process_recipe env recipe st = (r, st') →
  recipes st' = recipes st ∧ (synced st → synced st') ∧
  match r with
  | Ok (Some url) =>
      url ≠ "" ∧
      used_recipes st' = {[str_id (id recipe)]} ∪ used_recipes st ∧
      fs st' !! original_path (str_id (id recipe)) = None ∧
      fs st' !! compressed_path (str_id (id recipe)) = None
  | Ok None => False
  | _ => keeps_files st st'
  end.
Proof.
  unfold process_recipe.
  destruct (stage_artifact env recipe st) as [rs s1] eqn:Hst.
  pose proof (stage_artifact_ledger _ _ _ _ _ Hst) as [Hu1 _].
  apply stage_artifact_keeps in Hst as [Hk Hsy].
  destruct rs as [p|e|]; try (intros [= <- <-]; split; [apply Hk|done]).
  destruct (upload_to_youtube _ _ _ _ _ _) as [ru s2] eqn:Hup.
  apply upload_to_youtube_frame in Hup as (Hf & Hr & Hrm & Hsy' & Hurl).
  assert (keeps_files st s2) as Hk2.
  { eapply keeps_files_trans; [exact Hk|]. split; [|done]. intros q. by rewrite Hf. }
  destruct ru as [url|e|]; try (intros [= <- <-]; split; [apply Hk2|by auto]).
  destruct (Hurl url eq_refl) as [Hne Hused].
  apply String.eqb_neq in Hne. rewrite Hne. intros [= <- <-].
  destruct (cleanup_spec_aux (str_id (id recipe)) s2) as (C1 & C2).
  split; [rewrite cleanup_recipes; destruct Hk as (_ & _ & ?); congruence|].
  split; [intros Hs; by apply cleanup_synced, Hsy', Hsy|].
  split; [by apply String.eqb_neq|].
  destruct (cleanup_frame (str_id (id recipe)) s2) as (F1 & _).
  rewrite F1, Hused, Hu1. done.
Qed.

Lemma select_recipe_available env rid st recipe :
  select_recipe env rid st = Ok (Some recipe) →
  recipe ∈ recipes st ∧ str_id (id recipe) ∉ used_recipes st.
Proof.
  assert (get_next_recipe (env_random env) st = Ok (Some recipe) →
          recipe ∈ recipes st ∧ str_id (id recipe) ∉ used_recipes st) as Hnext.
  { intros [Hin _]%get_next_recipe_sorted.
    unfold available_recipes in Hin. by apply list_elem_of_filter in Hin as [? ?]. }
  unfold select_recipe. destruct rid as [rid|]; [|done].
  destruct (String.eqb rid ""); [done|].
  destruct (get_recipe_by_id rid st) as [r|] eqn:Hr; [|done].
  destruct (bool_decide _) eqn:Hb; [done|]. intros [= <-].
  apply bool_decide_eq_false in Hb. split; [|done].
  unfold get_recipe_by_id in Hr. by apply find_elem_of in Hr as [? _].
Qed.

Lemma process_single_recipe_run env rid st r st' :
  process_single_recipe env rid st = (r, st') →
  (synced st → synced st') ∧
  match r with
  | Ok (Some url) =>
      ∃ recipe,
        recipe ∈ recipes st' ∧ (str_id (id recipe) ∉ used_recipes st) ∧
        used_recipes st' = {[str_id (id recipe)]} ∪ used_recipes st ∧
        fs st' !! original_path (str_id (id recipe)) = None ∧
        fs st' !! compressed_path (str_id (id recipe)) = None ∧
        url ≠ ""
  | Raise _ => False
  | _ =>
      (∀ q, is_Some (fs st !! q) → is_Some (fs st' !! q)) ∧
      count is_remove st' = count is_remove st
  end.
Proof.
  unfold process_single_recipe.
  destruct (ensure_recipes st) as [r1 s1] eqn:He.
  apply ensure_recipes_frame in He as (Hu & Huf & Hd & Hdf & Hf & Ht).
  assert (synced st → synced s1) as Hsy.
  { intros [? ?]. unfold synced. by rewrite Hu, Huf, Hd, Hdf. }
  assert ((∀ q, is_Some (fs st !! q) → is_Some (fs s1 !! q)) ∧
          count is_remove s1 = count is_remove st) as Hk1.
  { split; [intros q; by rewrite Hf|by apply count_trace]. }
  destruct r1 as [[]|e|]; try (intros [= <- <-]; by split).
  destruct (select_recipe env rid s1) as [[recipe|]|e|] eqn:Hsel;
    try (intros [= <- <-]; by split).
  apply select_recipe_available in Hsel as [Hin Hnot].
  destruct (process_recipe env recipe s1) as [r2 s2] eqn:Hp.
  apply process_recipe_run in Hp as (Hr & Hsy2 & Hres).
  assert ((∀ q, is_Some (fs s1 !! q) → is_Some (fs s2 !! q)) ∧
          count is_remove s2 = count is_remove s1 →
          (∀ q, is_Some (fs st !! q) → is_Some (fs s2 !! q)) ∧
          count is_remove s2 = count is_remove st) as Hk2.
  { intros [K1 K2]. destruct Hk1 as [K3 K4]. split; [|congruence].
    intros q Hq. by apply K1, K3. }
  destruct r2 as [[url|]|e|]; intros [= <- <-]; (split; [by auto|]).
  - destruct Hres as (Hne & Hused & C1 & C2). exists recipe.
    rewrite Hr, <- Hu. by repeat split.
  - done.
  - apply Hk2. by destruct Hres as (? & ? & _).
  - apply Hk2. by destruct Hres as (? & ? & _).
Qed.

(** X22. A run of [process_single_recipe] that returns a link has published
    an entry of the catalog whose identifier was not in the ledger and is
    in it now, and neither the original nor the compressed artifact of that
    entry is left on disk. *)
Theorem process_single_recipe_published env rid st url st' :
  process_single_recipe env rid st = (Ok (Some url), st') →
  ∃ recipe,
    recipe ∈ recipes st' ∧ (str_id (id recipe) ∉ used_recipes st) ∧
    used_recipes st' = {[str_id (id recipe)]} ∪ used_recipes st ∧
    fs st' !! original_path (str_id (id recipe)) = None ∧
    fs st' !! compressed_path (str_id (id recipe)) = None ∧
    url ≠ "".
Proof. by intros [_ H]%process_single_recipe_run. Qed.

(** X23. A run of [process_single_recipe] that returns no link removes no
    file: every file that was on disk is still there, so that what was
    downloaded or compressed can be taken up by the next run. *)
Theorem process_single_recipe_keeps_files env rid st r st' :
  process_single_recipe env rid st = (r, st') →
  (∀ url, r ≠ Ok (Some url)) →
  (∀ q, is_Some (fs st !! q) → is_Some (fs st' !! q)) ∧
  count is_remove st' = count is_remove st.
Proof.
  intros [_ H]%process_single_recipe_run Hr.
  destruct r as [[url|]|e|]; [by destruct (Hr url)|done..].
Qed.

(** X24. When the ledger and the resume mapping in memory are what their
    files hold, they still are after a run of [process_single_recipe],
    whatever its outcome; a process started on the files the run left
    begins with the same ledger, resume mapping and files. *)
Theorem process_single_recipe_synced env rid st r st' :
  synced st →
  process_single_recipe env rid st = (r, st') →
  synced st' ∧
  used_recipes (init st') = used_recipes st' ∧
  resume_data (init st') = resume_data st' ∧
  fs (init st') = fs st' ∧
  synced (init st').
Proof.
  intros Hs [Hsy _]%process_single_recipe_run.
  destruct (Hsy Hs) as [H1 H2]. by repeat split.
Qed.

(** ** Status report *)

Lemma get_status_report_cases st :
  ∃ r1 s1,
    ensure_recipes st = (r1, s1) ∧
    used_recipes s1 = used_recipes st ∧ resume_data s1 = resume_data st ∧
    get_status_report st
    = match r1 with
      | Ok _ =>
          let total := Z.of_nat (length (recipes s1)) in
          let uploaded := Z.of_nat (size (used_recipes s1)) in
          let remaining := total - uploaded in
          let estimate := if 0 <? uploaded then Some (remaining * 2) else None in
          let report next :=
            {| total_recipes := total; uploaded_count := uploaded;
               remaining_count := remaining; estimated_hours := estimate;
               next_recipes := next; in_progress_recipes := resume_data s1 |} in
          if 0 <? remaining then
            match remaining_sorted s1 with
            | Some next => (Ok (Some (report (Some next))), s1)
            | None => (Ok None, s1)
            end
          else (Ok (Some (report None)), s1)
      | Raise _ => (Ok None, s1)
      | Pending => (Pending, s1)
      end.
Proof.
  unfold get_status_report. destruct (ensure_recipes st) as [r1 s1] eqn:He.
  exists r1, s1. split; [done|].
  apply ensure_recipes_frame in He as (Hu & _ & Hd & _). by destruct r1.
Qed.

(** X25. In a report of [get_status_report] the remaining count is the
    size of the catalog less the size of the ledger; the list of the next
    recipes is made exactly when that count is positive, and it holds the
    catalog entries that are not in the ledger, by growing integer
    identifier. *)
Theorem get_status_report_next st rep st' :
  get_status_report st = (Ok (Some rep), st') →
  used_recipes st' = used_recipes st ∧
  total_recipes rep = Z.of_nat (length (recipes st')) ∧
  uploaded_count rep = Z.of_nat (size (used_recipes st')) ∧
  remaining_count rep = total_recipes rep - uploaded_count rep ∧
  (next_recipes rep = None ↔ remaining_count rep ≤ 0) ∧
  (∀ next, next_recipes rep = Some next →
     next ≡ₚ available_recipes st' ∧
     StronglySorted (fun a b => int_key a ≤ int_key b) next).
Proof.
  destruct (get_status_report_cases st) as (r1 & s1 & _ & Hu & _ & ->).
  destruct r1 as [[]|e|]; [|done..]. cbv zeta.
  destruct (0 <? _) eqn:Hpos.
  - apply Z.ltb_lt in Hpos. unfold remaining_sorted. fold (available_recipes s1).
    destruct (keyed (available_recipes s1)) as [ks|] eqn:Hk; simpl; [|done].
    intros [= <- <-]. simpl. do 4 (split; [done|]).
    split; [split; [done|lia]|].
    intros next [= <-]. by destruct (sorted_available _ _ Hk) as (? & ? & _).
  - apply Z.ltb_ge in Hpos. intros [= <- <-]. simpl. do 4 (split; [done|]).
    split; [done|]. done.
Qed.

Lemma length_in_ledger (l : list Recipe) (used : gset string) :
  NoDup (map (fun r => str_id (id r)) l) →
  (∀ x, x ∈ used → x ∈ map (fun r => str_id (id r)) l) →
  length (filter (fun r => str_id (id r) ∈ used) l) = size used.
Proof.
  intros Hnd Hsub.
  set (ids := map (fun r => str_id (id r))
                (filter (fun r => str_id (id r) ∈ used) l)).
  assert (NoDup ids) as Hnd'.
  { subst ids. clear Hsub. induction l as [|r l IH]; [constructor|].
    simpl in Hnd. apply NoDup_cons in Hnd as [Hr Hl].
    destruct (decide (str_id (id r) ∈ used)).
    - rewrite filter_cons_True by done. simpl. apply NoDup_cons. split; [|by apply IH].
      intros Hin. apply Hr. apply list_elem_of_fmap in Hin as (r' & Heq & Hr').
      apply list_elem_of_filter in Hr' as [_ Hr']. apply list_elem_of_fmap.
      by exists r'.
    - rewrite filter_cons_False by done. by apply IH. }
  assert (list_to_set ids = used) as Hset.
  { apply set_eq. intros x. rewrite elem_of_list_to_set. subst ids. split.
    - intros (r & -> & Hr)%list_elem_of_fmap. by apply list_elem_of_filter in Hr as [? _].
    - intros Hx. pose proof (Hsub x Hx) as (r & -> & Hr)%list_elem_of_fmap.
      apply list_elem_of_fmap. exists r. split; [done|]. by apply list_elem_of_filter. }
  assert (size used = length ids) as ->.
  { rewrite <- Hset at 1. by apply size_list_to_set. }
  subst ids. by rewrite length_map.
Qed.

(** X26. When the identifiers of the catalog are distinct and every
    identifier of the ledger is one of the catalog, the remaining count of
    the report is the number of catalog entries that are not in the
    ledger. *)
Theorem get_status_report_remaining st rep st' :
  get_status_report st = (Ok (Some rep), st') →
  NoDup (map (fun r => str_id (id r)) (recipes st')) →
  (∀ x, x ∈ used_recipes st' → x ∈ map (fun r => str_id (id r)) (recipes st')) →
  remaining_count rep = Z.of_nat (length (available_recipes st')).
Proof.
  intros H Hnd Hsub.
  assert (remaining_count rep
          = Z.of_nat (length (recipes st')) - Z.of_nat (size (used_recipes st'))) as ->.
  { destruct (get_status_report_cases st) as (r1 & s1 & _ & Hu & _ & Heq).
    rewrite Heq in H. destruct r1 as [[]|e|]; [|done..]. cbv zeta in H.
    destruct (0 <? _); [destruct (remaining_sorted s1); [|done]|];
      by injection H as <- <-. }
  rewrite <- (length_in_ledger (recipes st')) by done.
  pose proof (filter_app_complement (fun r => str_id (id r) ∈ used_recipes st')
                (recipes st')) as Hperm.
  apply Permutation_length in Hperm. rewrite length_app in Hperm.
  unfold available_recipes. lia.
Qed.

(** ** Sign-in *)

Lemma authenticate_loop_three {Creds : Type} (passes : list (AuthPass Creds))
    (creds : option Creds) :
  authenticate_loop passes creds 0 []
  = match passes with
    | [] => (Pending, [])
    | p1 :: rest1 =>
        match ap_end p1 with
        | AuthBreak => (Ok (ap_creds p1), [])
        | _ =>
            match rest1 with
            | [] => (Pending, [auth_delay])
            | p2 :: rest2 =>
                match ap_end p2 with
                | AuthBreak => (Ok (ap_creds p2), [auth_delay])
                | _ =>
                    match rest2 with
                    | [] => (Pending, [auth_delay; auth_delay])
                    | p3 :: rest3 =>
                        match ap_end p3 with
                        | AuthBreak => (Ok (ap_creds p3), [auth_delay; auth_delay])
                        | AuthTimeout =>
                            (Ok (ap_creds p3), [auth_delay; auth_delay; auth_delay])
                        | AuthError msg =>
                            (Raise (OtherError msg), [auth_delay; auth_delay])
                        end
                    end
                end
            end
        end
    end.
Proof.
  destruct passes as [|p1 [|p2 [|p3 rest]]]; simpl;
    repeat match goal with
           | |- context [ap_end ?p] => destruct (ap_end p)
           end; simpl; try done; by destruct rest.
Qed.

Lemma authenticate_built {Creds : Type} (passes : list (AuthPass Creds)) :
  authenticate passes (Returned tt) = authenticate_loop passes None 0 [].
Proof.
  unfold authenticate. by destruct (authenticate_loop passes None 0 []) as [[| |] ?].
Qed.

(** X27. When the services can be built, [authenticate] reads at most three
    passes of its loop, and its sleeps are exactly these: five seconds
    after each failed pass it goes through (the passes before the first
    that ends at [break], three at most), but none after a third failed
    pass whose error it raises. Three timeouts do not raise: the services
    are then built with the credentials the third pass left, after three
    sleeps. An exception leaves the loop only when the third failed pass
    ends in another error, after two sleeps. When the services cannot be
    built, that failure is raised unless the loop has raised already. *)
Theorem authenticate_spec {Creds : Type} (passes : list (AuthPass Creds)) :
  authenticate passes (Returned tt) = authenticate (take 3 passes) (Returned tt) ∧
  (let failed := failed_passes (take 3 passes) in
   match (authenticate passes (Returned tt)).1 with
   | Raise _ =>
       failed = 3%nat ∧ (authenticate passes (Returned tt)).2 = replicate 2 auth_delay
   | _ => (authenticate passes (Returned tt)).2 = replicate failed auth_delay
   end) ∧
  (∀ p1 p2 p3 rest,
     passes = p1 :: p2 :: p3 :: rest →
     ap_end p1 = AuthTimeout → ap_end p2 = AuthTimeout → ap_end p3 = AuthTimeout →
     authenticate passes (Returned tt)
     = (Ok (ap_creds p3), [auth_delay; auth_delay; auth_delay])) ∧
  (∀ e,
     (authenticate passes (Returned tt)).1 = Raise e →
     ∃ p1 p2 p3 rest msg,
       passes = p1 :: p2 :: p3 :: rest ∧
       ap_end p1 ≠ AuthBreak ∧ ap_end p2 ≠ AuthBreak ∧
       ap_end p3 = AuthError msg ∧ e = OtherError msg ∧
       (authenticate passes (Returned tt)).2 = [auth_delay; auth_delay]) ∧
  (∀ f creds slept,
     authenticate passes (Returned tt) = (Ok creds, slept) →
     authenticate passes (Failed f) = (Raise (exn_of f), slept)).
Proof.
  split; [|split; [|split; [|split]]].
  5: { intros f creds slept. rewrite authenticate_built. unfold authenticate.
       by intros ->. }
  all: rewrite !authenticate_built, !authenticate_loop_three.
  - by destruct passes as [|p1 [|p2 [|p3 rest]]].
  - destruct passes as [|p1 [|p2 [|p3 rest]]]; simpl; unfold pass_fails;
      repeat match goal with
             | |- context [ap_end ?p] => destruct (ap_end p)
             end; simpl; done.
  - intros p1 p2 p3 rest -> H1 H2 H3. by rewrite H1, H2, H3.
  - intros e. destruct passes as [|p1 [|p2 [|p3 rest]]]; simpl;
      repeat match goal with
             | |- context [ap_end ?p] => destruct (ap_end p) eqn:?
             end; simpl; try done;
      intros [= <-]; eexists _, _, _, _, _; (split; [reflexivity|]);
      repeat split; try done; congruence.
Qed.

(** ** The further properties at the sample runs *)

Lemma get_next_recipe_available_witness :
  get_next_recipe None Shelf.idle = Ok (Some Shelf.stew) ∧
  Shelf.stew ∈ recipes Shelf.idle ∧
  str_id (id Shelf.stew) ∉ used_recipes Shelf.idle.
Proof.
  split; [vm_compute; reflexivity|].
  apply (get_next_recipe_available None Shelf.idle Shelf.stew).
  vm_compute. reflexivity.
Defined.

Lemma get_next_recipe_resumes_witness :
  ∃ r, get_next_recipe (Some 4%nat) Shelf.resuming = Ok (Some r) ∧
       str_id (id r) = "12" ∧ r ∈ recipes Shelf.resuming.
Proof.
  apply (get_next_recipe_resumes (Some 4%nat) Shelf.resuming "12" Sample.downloading
           Shelf.cake).
  - vm_compute. reflexivity.
  - discriminate.
  - apply list_elem_of_here.
  - vm_compute. reflexivity.
  - intros H. change ("12" ∈ ({[ "7" ]} : gset string)) in H.
    apply elem_of_singleton in H. discriminate H.
Defined.

Lemma get_next_recipe_lowest_witness :
  (∀ r', r' ∈ available_recipes Shelf.idle → is_Some (int_id (id r'))) ∧
  (length (filter (fun r' => (int_key r' < int_key Shelf.stew)%Z)
             (available_recipes Shelf.idle)) < 10)%nat ∧
  ((None : Random) = None ∨ (length (available_recipes Shelf.idle) ≤ 10)%nat →
   ∀ r', r' ∈ available_recipes Shelf.idle → int_key Shelf.stew ≤ int_key r').
Proof.
  apply (get_next_recipe_lowest None Shelf.idle Shelf.stew).
  - intros r' _. vm_compute. discriminate.
  - vm_compute. reflexivity.
Defined.

Lemma extract_file_id_round_trip_witness :
  extract_file_id ("https://drive.google.com" +:+ file_marker +:+ "ABC" +:+ "/view")
  = Some "ABC".
Proof.
  apply (extract_file_id_round_trip "https://drive.google.com" "ABC" "/view").
  - vm_compute. reflexivity.
  - vm_compute. reflexivity.
  - right. by exists "view".
Defined.

Lemma download_video_bounded_witness :
  count is_request
    (download_video download_max_retries (env_drive Sample.env) "now"
       Sample.recipe Sample.fresh).2
  - count is_request Sample.fresh ≤ download_max_retries ∧
  count is_attempt_sleep
    (download_video download_max_retries (env_drive Sample.env) "now"
       Sample.recipe Sample.fresh).2
  - count is_attempt_sleep Sample.fresh ≤ Z.max 0 (download_max_retries - 1).
Proof.
  apply (download_video_bounded download_max_retries (env_drive Sample.env) "now"
           Sample.recipe Sample.fresh
           (download_video download_max_retries (env_drive Sample.env) "now"
              Sample.recipe Sample.fresh).1).
  - vm_compute. discriminate.
  - apply surjective_pairing.
Defined.

Lemma download_video_outcome_witness :
  (download_video download_max_retries (env_drive Sample.env) "now"
     Sample.recipe Sample.fresh).1 = Ok (original_path "7") ∧
  ∃ st',
    dict_get "7" (resume_data st') = Some (downloading_record "now" Sample.recipe) ∧
    resume_data_file st' = Some (resume_data st') ∧
    is_Some (fs st' !! original_path "7").
Proof.
  split; [vm_compute; reflexivity|].
  pose proof (download_video_outcome download_max_retries (env_drive Sample.env) "now"
                Sample.recipe Sample.fresh (Ok (original_path "7"))
                (download_video download_max_retries (env_drive Sample.env) "now"
                   Sample.recipe Sample.fresh).2) as H.
  destruct H as (H1 & _ & H3 & _ & _ & H5).
  - assert ((download_video download_max_retries (env_drive Sample.env) "now"
               Sample.recipe Sample.fresh).1 = Ok (original_path "7")) as Hfst
      by (vm_compute; reflexivity).
    rewrite <- Hfst. apply surjective_pairing.
  - eexists. split; [exact H1|]. split; [exact H3|exact H5].
Defined.


Lemma download_video_chunk_timeouts_witness :
  ∃ st' evs,
    download_video download_max_retries
      [{| da_request := Returned tt;
          da_chunks := replicate 7 (Failed FTimeout) ++ [Returned (200000%N, true)] |}]
      "now" Sample.recipe Sample.fresh
    = (Ok (original_path (str_id (id Sample.recipe))), st') ∧
    trace st' = trace Sample.fresh ++ evs ∧
    count is_drive_chunk st' - count is_drive_chunk Sample.fresh = Z.of_nat 7 + 1 ∧
    count is_request st' - count is_request Sample.fresh = 1 ∧
    class_delays ChunkTimeoutRetry evs = replicate 7 1 ∧
    fs st' !! original_path (str_id (id Sample.recipe)) = Some 200000%N.
Proof.
  apply (download_video_chunk_timeouts download_max_retries "now" Sample.recipe
           Sample.fresh 7 200000%N []).
  - reflexivity.
  - vm_compute. reflexivity.
  - vm_compute. reflexivity.
Defined.

Lemma download_video_gives_up_witness :
  ∃ e st',
    download_video download_max_retries Shelf.dead_drive "now" Sample.recipe Sample.fresh
    = (Raise e, st') ∧
    count is_request st' - count is_request Sample.fresh = download_max_retries ∧
    count is_attempt_sleep st' - count is_attempt_sleep Sample.fresh
    = download_max_retries - 1 ∧
    fs st' = fs Sample.fresh.
Proof.
  apply (download_video_gives_up download_max_retries Shelf.dead_drive "now"
           Sample.recipe Sample.fresh).
  - reflexivity.
  - vm_compute. reflexivity.
  - vm_compute. reflexivity.
  - vm_compute. lia.
  - vm_compute. repeat constructor.
Defined.

Lemma upload_to_youtube_bounded_witness :
  count is_upload_sleep
    (upload_to_youtube upload_max_retries Sample.youtube "2024-01-01"
       (compressed_path "7") Sample.recipe Sample.interrupted).2
  - count is_upload_sleep Sample.interrupted ≤ upload_max_retries ∧
  fs (upload_to_youtube upload_max_retries Sample.youtube "2024-01-01"
        (compressed_path "7") Sample.recipe Sample.interrupted).2
  = fs Sample.interrupted ∧
  recipes (upload_to_youtube upload_max_retries Sample.youtube "2024-01-01"
             (compressed_path "7") Sample.recipe Sample.interrupted).2
  = recipes Sample.interrupted.
Proof.
  apply (upload_to_youtube_bounded upload_max_retries Sample.youtube "2024-01-01"
           (compressed_path "7") Sample.recipe Sample.interrupted
           (upload_to_youtube upload_max_retries Sample.youtube "2024-01-01"
              (compressed_path "7") Sample.recipe Sample.interrupted).1).
  - vm_compute. discriminate.
  - apply surjective_pairing.
Defined.

Lemma upload_to_youtube_gives_up_witness :
  ∃ e st',
    upload_to_youtube upload_max_retries Shelf.dead_youtube "2024-01-01"
      (compressed_path "7") Sample.recipe Sample.interrupted = (Raise e, st') ∧
    count is_upload_chunk st' - count is_upload_chunk Sample.interrupted
    = upload_max_retries ∧
    count is_upload_sleep st' - count is_upload_sleep Sample.interrupted
    = upload_max_retries ∧
    used_recipes st' = used_recipes Sample.interrupted ∧
    used_recipes_file st' = used_recipes_file Sample.interrupted.
Proof.
  assert (is_Some (dict_get (str_id (id Sample.recipe)) (resume_data Sample.interrupted)))
    as Hrec by (vm_compute; by eexists).
  assert (is_Some (fs Sample.interrupted !! compressed_path "7")) as Hfile
    by (vm_compute; by eexists).
  assert (Z.to_nat upload_max_retries ≤ length Shelf.dead_youtube)%nat as Hlen
    by (vm_compute; lia).
  assert (Forall (fun y => is_retryable y = true)
            (take (Z.to_nat upload_max_retries) Shelf.dead_youtube)) as Hall
    by (vm_compute; repeat constructor).
  pose proof (upload_to_youtube_gives_up upload_max_retries Shelf.dead_youtube
                "2024-01-01" (compressed_path "7") Sample.recipe Sample.interrupted
                eq_refl Hrec Hfile Hlen Hall) as H.
  exact H.
Defined.

Lemma upload_to_youtube_resumable_witness :
  resume_path "7"
    (upload_to_youtube upload_max_retries [Failed (FHttp 403)] "2024-01-01"
       (compressed_path "7") Sample.recipe Sample.interrupted).2
  = Some (compressed_path "7") ∧
  resume_data_file
    (upload_to_youtube upload_max_retries [Failed (FHttp 403)] "2024-01-01"
       (compressed_path "7") Sample.recipe Sample.interrupted).2
  = Some (resume_data
            (upload_to_youtube upload_max_retries [Failed (FHttp 403)] "2024-01-01"
               (compressed_path "7") Sample.recipe Sample.interrupted).2).
Proof.
  assert (is_Some (dict_get (str_id (id Sample.recipe)) (resume_data Sample.interrupted)))
    as Hrec by (vm_compute; by eexists).
  assert (is_Some (fs Sample.interrupted !! compressed_path "7")) as Hfile
    by (vm_compute; by eexists).
  assert (compressed_path "7" ≠ "") as Hne by (vm_compute; discriminate).
  assert ((upload_to_youtube upload_max_retries [Failed (FHttp 403)] "2024-01-01"
             (compressed_path "7") Sample.recipe Sample.interrupted).1
          = Raise (HttpError 403)) as Hfst by (vm_compute; reflexivity).
  assert (upload_to_youtube upload_max_retries [Failed (FHttp 403)] "2024-01-01"
            (compressed_path "7") Sample.recipe Sample.interrupted
          = (Raise (HttpError 403),
             (upload_to_youtube upload_max_retries [Failed (FHttp 403)] "2024-01-01"
                (compressed_path "7") Sample.recipe Sample.interrupted).2)) as Hrun
    by (rewrite <- Hfst; apply surjective_pairing).
  assert (∀ url : string, (Raise (HttpError 403) : Result string) ≠ Ok url) as Hno
    by discriminate.
  pose proof (upload_to_youtube_resumable upload_max_retries [Failed (FHttp 403)]
                "2024-01-01" (compressed_path "7") Sample.recipe Sample.interrupted
                _ _ Hrec Hfile Hne Hrun Hno) as H.
  exact H.
Defined.

Lemma compress_video_outcome_witness :
  (compress_video Sample.ffmpeg (original_path "7") "7" Sample.downloaded).1
  = Ok (compressed_path "7") ∧
  (∀ q, q ≠ compressed_path "7" →
        fs (compress_video Sample.ffmpeg (original_path "7") "7" Sample.downloaded).2
          !! q = fs Sample.downloaded !! q) ∧
  (∀ q, is_Some (fs Sample.downloaded !! q) →
        is_Some (fs (compress_video Sample.ffmpeg (original_path "7") "7"
                       Sample.downloaded).2 !! q)).
Proof.
  split; [vm_compute; reflexivity|].
  pose proof (compress_video_outcome Sample.ffmpeg (original_path "7") "7"
                Sample.downloaded
                (compress_video Sample.ffmpeg (original_path "7") "7"
                   Sample.downloaded).1
                (compress_video Sample.ffmpeg (original_path "7") "7"
                   Sample.downloaded).2 (surjective_pairing _)) as (H1 & H2 & _).
  split; [exact H1|exact H2].
Defined.

Lemma compress_video_encodes_witness :
  count is_encode
    (compress_video Sample.ffmpeg (original_path "7") "7" Sample.downloaded).2
  - count is_encode Sample.downloaded = 1.
Proof.
  pose proof (compress_video_encodes Sample.ffmpeg (original_path "7") "7"
                Sample.downloaded
                (compress_video Sample.ffmpeg (original_path "7") "7"
                   Sample.downloaded).1
                (compress_video Sample.ffmpeg (original_path "7") "7"
                   Sample.downloaded).2 (surjective_pairing _)) as [_ [_ H]].
  apply H. split; [vm_compute; by eexists|]. split; [vm_compute; reflexivity|].
  split; [reflexivity|]. split; [|vm_compute; discriminate].
  exists 20971520%N. split; [vm_compute; reflexivity|vm_compute; discriminate].
Defined.

Lemma process_single_recipe_published_witness :
  ∃ recipe,
    recipe ∈ recipes (process_single_recipe Sample.env None Sample.fresh).2 ∧
    (str_id (id recipe) ∉ used_recipes Sample.fresh) ∧
    used_recipes (process_single_recipe Sample.env None Sample.fresh).2
    = {[str_id (id recipe)]} ∪ used_recipes Sample.fresh ∧
    fs (process_single_recipe Sample.env None Sample.fresh).2
      !! original_path (str_id (id recipe)) = None ∧
    fs (process_single_recipe Sample.env None Sample.fresh).2
      !! compressed_path (str_id (id recipe)) = None ∧
    "https://www.youtube.com/watch?v=xyz" ≠ "".
Proof.
  assert ((process_single_recipe Sample.env None Sample.fresh).1
          = Ok (Some "https://www.youtube.com/watch?v=xyz")) as Hfst
    by (vm_compute; reflexivity).
  assert (process_single_recipe Sample.env None Sample.fresh
          = (Ok (Some "https://www.youtube.com/watch?v=xyz"),
             (process_single_recipe Sample.env None Sample.fresh).2)) as Hrun
    by (rewrite <- Hfst; apply surjective_pairing).
  pose proof (process_single_recipe_published Sample.env None Sample.fresh
                "https://www.youtube.com/watch?v=xyz" _ Hrun) as H.
  exact H.
Defined.

Lemma process_single_recipe_keeps_files_witness :
  (process_single_recipe Shelf.refusing None Sample.downloaded).1 = Ok None ∧
  (∀ q, is_Some (fs Sample.downloaded !! q) →
        is_Some (fs (process_single_recipe Shelf.refusing None Sample.downloaded).2
                   !! q)) ∧
  count is_remove (process_single_recipe Shelf.refusing None Sample.downloaded).2
  = count is_remove Sample.downloaded.
Proof.
  assert ((process_single_recipe Shelf.refusing None Sample.downloaded).1 = Ok None)
    as Hfst by (vm_compute; reflexivity).
  split; [exact Hfst|].
  assert (process_single_recipe Shelf.refusing None Sample.downloaded
          = (Ok None, (process_single_recipe Shelf.refusing None Sample.downloaded).2))
    as Hrun by (rewrite <- Hfst; apply surjective_pairing).
  assert (∀ url : string, (Ok None : Result (option string)) ≠ Ok (Some url)) as Hno
    by discriminate.
  pose proof (process_single_recipe_keeps_files Shelf.refusing None Sample.downloaded
                (Ok None) _ Hrun Hno) as H.
  exact H.
Defined.

Lemma process_single_recipe_synced_witness :
  synced (process_single_recipe Sample.env None Sample.fresh).2 ∧
  used_recipes (init (process_single_recipe Sample.env None Sample.fresh).2)
  = used_recipes (process_single_recipe Sample.env None Sample.fresh).2 ∧
  resume_data (init (process_single_recipe Sample.env None Sample.fresh).2)
  = resume_data (process_single_recipe Sample.env None Sample.fresh).2 ∧
  fs (init (process_single_recipe Sample.env None Sample.fresh).2)
  = fs (process_single_recipe Sample.env None Sample.fresh).2 ∧
  synced (init (process_single_recipe Sample.env None Sample.fresh).2).
Proof.
  apply (process_single_recipe_synced Sample.env None Sample.fresh
           (process_single_recipe Sample.env None Sample.fresh).1).
  - split; reflexivity.
  - apply surjective_pairing.
Defined.

Lemma get_status_report_next_witness :
  ∃ rep,
    (get_status_report Shelf.idle).1 = Ok (Some rep) ∧
    remaining_count rep = 2 ∧
    (∀ next, next_recipes rep = Some next →
       next ≡ₚ available_recipes (get_status_report Shelf.idle).2 ∧
       StronglySorted (fun a b => int_key a ≤ int_key b) next).
Proof.
  eexists. split; [vm_compute; reflexivity|]. split; [vm_compute; reflexivity|].
  eapply (get_status_report_next Shelf.idle).
  apply injective_projections; [vm_compute; reflexivity|reflexivity].
Defined.

Lemma get_status_report_remaining_witness :
  ∃ rep,
    (get_status_report Shelf.idle).1 = Ok (Some rep) ∧
    remaining_count rep
    = Z.of_nat (length (available_recipes (get_status_report Shelf.idle).2)).
Proof.
  eexists. split; [vm_compute; reflexivity|].
  eapply (get_status_report_remaining Shelf.idle).
  - apply injective_projections; [vm_compute; reflexivity|reflexivity].
  - vm_compute. repeat constructor; intros H; repeat (apply elem_of_cons in H as [H|H]; [discriminate H|]); by apply elem_of_nil in H.
  - intros x Hx. change (x ∈ ({[ "7" ]} : gset string)) in Hx.
    apply elem_of_singleton in Hx as ->. vm_compute.
    apply list_elem_of_further, list_elem_of_here.
Defined.
